(** * PPDetHead: target assignment, aggregation loss and decoding

    A shallow embedding of [mmdet/models/anchor_heads/ppdet_head.py].

    Numbers.  Integer tensors (labels, instance ids, grid indices, image
    shapes) are [Z] or [nat].  Floating-point tensors are idealised as exact
    numbers: rationals [Q] on the training path, where everything the code
    does with them is field arithmetic, comparison, [ceil] and [floor], and
    reals [R] wherever the code takes [log], [exp] or [sigmoid].  Rounding,
    overflow and NaN of IEEE floats are outside this model; the one place
    where the code relies on NaN (the square root of a negative area, which
    fails every comparison) is written out.

    Tensors.  A dense tensor is a shape together with a total accessor; only
    indices inside the shape are cells of the tensor.  Operations that raise
    in Python (assertion failures, index errors, impossible reshapes,
    [torch.cat] of an empty list) return [None]. *)

From Stdlib Require Import ZArith QArith Qround Qreals Reals List Bool Arith.
From Stdlib Require Import Lia Lra Permutation Sorted.
From Stdlib Require Lqa.
Import ListNotations.

Local Open Scope Z_scope.

(** ** Option plumbing *)

Definition obind {A B} (o : option A) (f : A -> option B) : option B :=
  match o with Some a => f a | None => None end.

Notation "x <- e ;; k" := (obind e (fun x => k))
  (at level 61, e at next level, right associativity).
Notation "' p <- e ;; k" := (obind e (fun p => k))
  (at level 61, p pattern, e at next level, right associativity).

Definition assert (b : bool) : option unit := if b then Some tt else None.

Fixpoint mapM {A B} (f : A -> option B) (l : list A) : option (list B) :=
  match l with
  | [] => Some []
  | a :: t => b <- f a ;; bs <- mapM f t ;; Some (b :: bs)
  end.

(** [t[idx]] for an index tensor [idx]: an index outside [t] raises. *)
Definition index_list {A} (t : list A) (idx : list nat) : option (list A) :=
  mapM (nth_error t) idx.

(** [(cond).nonzero()] on a flat tensor: the positions where [cond] holds,
    ascending. *)
Fixpoint nonzero_from {A} (cond : A -> bool) (i : nat) (l : list A) : list nat :=
  match l with
  | [] => []
  | a :: t => if cond a then i :: nonzero_from cond (S i) t
              else nonzero_from cond (S i) t
  end.

Definition nonzero {A} (cond : A -> bool) (l : list A) : list nat :=
  nonzero_from cond 0 l.

(** ** Scalars *)

(** [torch.clamp(min=lo, max=hi)] is [min(max(v, lo), hi)]. *)
Definition clampZ (v lo hi : Z) : Z := Z.min (Z.max v lo) hi.

Definition Qmax' (a b : Q) : Q := if Qle_bool a b then b else a.
Definition Qmin' (a b : Q) : Q := if Qle_bool a b then a else b.
Definition clampQ (v lo hi : Q) : Q := Qmin' (Qmax' v lo) hi.

Definition clampR (v lo hi : R) : R := Rmin (Rmax v lo) hi.

(** [torch.log] on an exact value. *)
Definition torch_log (q : Q) : R := ln (Q2R q).

(** ** Tensors *)

Record tensor2 (A : Type) := mk_tensor2
  { shape2 : nat * nat; at2 : nat -> nat -> A }.
Arguments mk_tensor2 {A}.
Arguments shape2 {A}.
Arguments at2 {A}.

Record tensor3 (A : Type) := mk_tensor3
  { shape3 : nat * nat * nat; at3 : nat -> nat -> nat -> A }.
Arguments mk_tensor3 {A}.
Arguments shape3 {A}.
Arguments at3 {A}.

Record tensor4 (A : Type) := mk_tensor4
  { shape4 : nat * nat * nat * nat; at4 : nat -> nat -> nat -> nat -> A }.
Arguments mk_tensor4 {A}.
Arguments shape4 {A}.
Arguments at4 {A}.

Definition shape_eqb (a b : nat * nat) : bool :=
  Nat.eqb (fst a) (fst b) && Nat.eqb (snd a) (snd b).

(** [t.flatten()] of an [H x W] tensor, row-major. *)
Definition flatten2 {A} (t : tensor2 A) : list A :=
  flat_map (fun r => map (at2 t r) (seq 0 (snd (shape2 t))))
           (seq 0 (fst (shape2 t))).

(** [t.reshape(-1, 4)] of an [H x W x 4] tensor: one row per cell. *)
Definition reshape_rows4 {A} (t : tensor3 A) : list (list A) :=
  flat_map (fun r => map (fun c => map (at3 t r c) (seq 0 4))
                            (seq 0 (snd (fst (shape3 t)))))
           (seq 0 (fst (fst (shape3 t)))).

(** Python slice [start:stop] on a dimension of size [dim]: negative bounds
    count from the end, and both are clipped into [0, dim]. *)
Definition slice_bound (i : Z) (dim : nat) : Z :=
  if i <? 0 then Z.max (i + Z.of_nat dim) 0 else Z.min i (Z.of_nat dim).

Definition in_slice (start stop : Z) (dim : nat) (i : nat) : bool :=
  (slice_bound start dim <=? Z.of_nat i) && (Z.of_nat i <? slice_bound stop dim).

(** [t[py1:py2+1, px1:px2+1] = v], where [v r c] is the value written at the
    absolute position [(r, c)]. *)
Definition slice_assign2 {A} (t : tensor2 A) (py1 py2 px1 px2 : Z)
    (v : nat -> nat -> A) : tensor2 A :=
  mk_tensor2 (shape2 t)
    (fun r c => if in_slice py1 (py2 + 1) (fst (shape2 t)) r
                   && in_slice px1 (px2 + 1) (snd (shape2 t)) c
                then v r c else at2 t r c).

(** [t[py1:py2+1, px1:px2+1, k] = v]. *)
Definition slice_assign3 {A} (t : tensor3 A) (py1 py2 px1 px2 : Z) (k : nat)
    (v : nat -> nat -> A) : tensor3 A :=
  mk_tensor3 (shape3 t)
    (fun r c ch => if Nat.eqb ch k
                      && in_slice py1 (py2 + 1) (fst (fst (shape3 t))) r
                      && in_slice px1 (px2 + 1) (snd (fst (shape3 t))) c
                   then v r c else at3 t r c ch).

(** ** Head configuration *)

Record PPDetHead := mk_head
  { num_classes : Z;
    strides : list Z;
    base_edge_list : list Q;
    scale_ranges : list (Q * Q);
    sigma : Q }.

(** [self.cls_out_channels = num_classes - 1] *)
Definition cls_out_channels (self : PPDetHead) : Z := num_classes self - 1.

(** ** Grid generator *)

Definition half : Q := 1 # 2.

(** [get_points(..., flatten=False)]: for every level the pair [(y, x)] of
    [H x W] grids with [y[r, c] = r + 0.5] and [x[r, c] = c + 0.5]. *)
Definition get_points (featmap_sizes : list (nat * nat))
  : list (tensor2 Q * tensor2 Q) :=
  map (fun featmap_size =>
         (mk_tensor2 featmap_size (fun r _ => inject_Z (Z.of_nat r) + half)%Q,
          mk_tensor2 featmap_size (fun _ c => inject_Z (Z.of_nat c) + half)%Q))
      featmap_sizes.

(** ** Ground truth *)

Record bbox := mk_bbox { bx1 : Q; by1 : Q; bx2 : Q; by2 : Q }.

(** The radicand of [gt_areas = sqrt((x2 - x1) * (y2 - y1))]. *)
Definition area_sq (b : bbox) : Q := ((bx2 b - bx1 b) * (by2 b - by1 b))%Q.

(** The value of [gt_areas] for a box of nonnegative area. *)
Definition gt_area (b : bbox) : R := sqrt (Q2R (area_sq b)).

(** [(gt_areas >= lower_bound) & (gt_areas <= upper_bound)], decided on the
    radicand.  A negative radicand makes [torch.sqrt] return NaN, which
    fails both comparisons. *)
Definition sqrt_geb (a lo : Q) : bool :=
  Qle_bool lo 0 || Qle_bool (lo * lo) a.
Definition sqrt_leb (a hi : Q) : bool :=
  Qle_bool 0 hi && Qle_bool a (hi * hi).
Definition hit (lower_bound upper_bound : Q) (b : bbox) : bool :=
  Qle_bool 0 (area_sq b) && sqrt_geb (area_sq b) lower_bound
  && sqrt_leb (area_sq b) upper_bound.

(** [hit_indices], each index carried with its row of [gt_bboxes_raw]. *)
Definition hit_indices (lower_bound upper_bound : Q) (gt_bboxes_raw : list bbox)
  : list (nat * bbox) :=
  filter (fun ib => hit lower_bound upper_bound (snd ib))
         (combine (seq 0 (length gt_bboxes_raw)) gt_bboxes_raw).

(** [torch.sort(-gt_areas[hit_indices])] followed by
    [hit_indices[hit_index_order]]: the hits in descending order of area.
    Equal areas keep their order here; torch leaves their order open. *)
Fixpoint insert_desc (ib : nat * bbox) (l : list (nat * bbox)) : list (nat * bbox) :=
  match l with
  | [] => [ib]
  | jb :: t => if Qle_bool (area_sq (snd jb)) (area_sq (snd ib))
               then ib :: jb :: t
               else jb :: insert_desc ib t
  end.

Definition sort_desc (l : list (nat * bbox)) : list (nat * bbox) :=
  fold_right insert_desc [] l.

(** ** Level assigner *)

(** [pos_left, pos_top, pos_right, pos_down] of one selected box. *)
Definition pos_region (sigma : Q) (stride : Z) (featmap_size : nat * nat)
    (b : bbox) : Z * Z * Z * Z :=
  let s := inject_Z stride in
  let gx1 := (bx1 b / s)%Q in
  let gy1 := (by1 b / s)%Q in
  let gx2 := (bx2 b / s)%Q in
  let gy2 := (by2 b / s)%Q in
  let half_w := (half * (gx2 - gx1))%Q in
  let half_h := (half * (gy2 - gy1))%Q in
  let wmax := Z.of_nat (snd featmap_size) - 1 in
  let hmax := Z.of_nat (fst featmap_size) - 1 in
  let pos_left := clampZ (Qceiling (gx1 + (1 - sigma) * half_w - half)) 0 wmax in
  let pos_right := clampZ (Qfloor (gx1 + (1 + sigma) * half_w - half)) 0 wmax in
  let pos_top := clampZ (Qceiling (gy1 + (1 - sigma) * half_h - half)) 0 hmax in
  let pos_down := clampZ (Qfloor (gy1 + (1 + sigma) * half_h - half)) 0 hmax in
  (pos_left, pos_top, pos_right, pos_down).

(** ** Target builder *)

(** One tuple of the [zip] over the per-level configuration and inputs. *)
Record level_args := mk_level
  { lv_base_len : Q;
    lv_range : Q * Q;
    lv_stride : Z;
    lv_featmap_size : nat * nat;
    lv_points : tensor2 Q * tensor2 Q }.

Fixpoint zip_levels (bases : list Q) (ranges : list (Q * Q)) (strs : list Z)
    (sizes : list (nat * nat)) (points : list (tensor2 Q * tensor2 Q))
  : list level_args :=
  match bases, ranges, strs, sizes, points with
  | b :: bs, r :: rs, s :: ss, f :: fs, p :: ps =>
      mk_level b r s f p :: zip_levels bs rs ss fs ps
  | _, _, _, _, _ => []
  end.

(** The three grids of one level while they are being painted. *)
Record grids := mk_grids
  { g_labels : tensor2 Z; g_bbox : tensor3 Q; g_ids : tensor2 Z }.

(** One tuple of the painting loop:
    [(px1, py1, px2, py2), label, gt_id, (gt_x1, gt_y1, gt_x2, gt_y2)]. *)
Definition paint_item : Type := (Z * Z * Z * Z) * Z * nat * bbox.

Definition item_region (it : paint_item) : Z * Z * Z * Z := fst (fst (fst it)).
Definition item_label (it : paint_item) : Z := snd (fst (fst it)).
Definition item_id (it : paint_item) : nat := snd (fst it).
Definition item_box (it : paint_item) : bbox := snd it.

(** The body of the painting loop. *)
Definition paint (stride : Z) (base_len : Q) (y x : tensor2 Q)
    (label_size_list_raw : Z) (g : grids) (it : paint_item) : grids :=
  let '(px1, py1, px2, py2) := item_region it in
  let gt := item_box it in
  let s := inject_Z stride in
  let b0 := slice_assign3 (g_bbox g) py1 py2 px1 px2 0
              (fun r c => (s * at2 x r c - bx1 gt) / base_len)%Q in
  let b1 := slice_assign3 b0 py1 py2 px1 px2 1
              (fun r c => (s * at2 y r c - by1 gt) / base_len)%Q in
  let b2 := slice_assign3 b1 py1 py2 px1 px2 2
              (fun r c => (bx2 gt - s * at2 x r c) / base_len)%Q in
  let b3 := slice_assign3 b2 py1 py2 px1 px2 3
              (fun r c => (by2 gt - s * at2 y r c) / base_len)%Q in
  mk_grids
    (slice_assign2 (g_labels g) py1 py2 px1 px2 (fun _ _ => item_label it))
    b3
    (slice_assign2 (g_ids g) py1 py2 px1 px2
       (fun _ _ => Z.of_nat (item_id it) + label_size_list_raw)).

Definition sixteenth : Q := 1 # 16.

(** The tuples of the painting loop, in painting order. *)
Definition paint_items (sigma : Q) (stride : Z) (featmap_size : nat * nat)
    (gt_labels : list Z) (hits : list (nat * bbox)) : list paint_item :=
  map (fun lh : Z * (nat * bbox) =>
         (pos_region sigma stride featmap_size (snd (snd lh)),
          fst lh, fst (snd lh), snd (snd lh)))
      (combine gt_labels hits).

(** The body of the loop over levels.  [uninit] is the content of the
    buffer that [gt_bboxes_raw.new(H, W, 4)] returns: [Tensor.new] with
    sizes allocates without initialising, unlike the [new_zeros] used for
    [labels] and [gt_ids].  The point grids must have the shape of the
    feature map for the slices of [x] and [y] to fit the painted slices;
    [loss], the only caller, passes the grids of [get_points]. *)
Definition target_level (sigma : Q) (gt_bboxes_raw : list bbox)
    (gt_labels_raw : list Z) (label_size_list_raw : Z)
    (uninit : nat -> nat -> nat -> Q) (lv : level_args)
  : option (tensor2 Z * tensor3 R * tensor2 Z) :=
  let featmap_size := lv_featmap_size lv in
  let '(y, x) := lv_points lv in
  let labels := mk_tensor2 featmap_size (fun _ _ => 0) in
  let bbox_targets :=
    mk_tensor3 (fst featmap_size, snd featmap_size, 4%nat)
               (fun r c k => uninit r c k + 1)%Q in
  let gt_ids := mk_tensor2 featmap_size (fun _ _ => 0 - 1) in
  let hits := hit_indices (fst (lv_range lv)) (snd (lv_range lv)) gt_bboxes_raw in
  if Nat.eqb (length hits) 0 then
    Some (labels,
          mk_tensor3 (shape3 bbox_targets)
                     (fun r c k => torch_log (at3 bbox_targets r c k)),
          gt_ids)
  else
    let hits := sort_desc hits in
    gt_labels <- index_list gt_labels_raw (map fst hits) ;;
    _ <- assert (shape_eqb (shape2 x) featmap_size
                 && shape_eqb (shape2 y) featmap_size) ;;
    let g := fold_left
               (paint (lv_stride lv) (lv_base_len lv) y x label_size_list_raw)
               (paint_items sigma (lv_stride lv) featmap_size gt_labels hits)
               (mk_grids labels bbox_targets gt_ids) in
    Some (g_labels g,
          mk_tensor3 (shape3 (g_bbox g))
                     (fun r c k =>
                        torch_log (clampQ (at3 (g_bbox g) r c k) sixteenth 16)),
          g_ids g).

(** [ppdet_target_single]: [(label_list, bbox_target_list, ids_list)].
    [mem l] is the uninitialised buffer handed out at level [l]. *)
Definition ppdet_target_single (self : PPDetHead) (gt_bboxes_raw : list bbox)
    (gt_labels_raw : list Z) (label_size_list_raw : Z)
    (featmap_size_list : list (nat * nat))
    (point_list : list (tensor2 Q * tensor2 Q))
    (mem : nat -> nat -> nat -> nat -> Q)
  : option (list (tensor2 Z) * list (tensor3 R) * list (tensor2 Z)) :=
  let levels := zip_levels (base_edge_list self) (scale_ranges self)
                           (strides self) featmap_size_list point_list in
  per_level <- mapM (fun il : nat * level_args =>
                       target_level (sigma self) gt_bboxes_raw gt_labels_raw
                                    label_size_list_raw (mem (fst il)) (snd il))
                    (combine (seq 0 (length levels)) levels) ;;
  Some (map (fun t => fst (fst t)) per_level,
        map (fun t => snd (fst t)) per_level,
        map snd per_level).

(** ** Aggregation loss composer *)

(** [torch.cat] of a list of flat tensors; an empty list raises. *)
Definition torch_cat {A} (l : list (list A)) : option (list A) :=
  match l with
  | [] => None
  | _ :: _ => Some (concat l)
  end.

(** [zip] applied to the unpacked list [ll]: the transposition of a list of
    lists, cut at the shortest. *)
Definition column {A} (i : nat) (ll : list (list A)) : list A :=
  flat_map (fun l => match nth_error l i with Some a => [a] | None => [] end) ll.

Definition zip_star {A} (ll : list (list A)) : list (list A) :=
  match ll with
  | [] => []
  | l0 :: rest =>
      map (fun i => column i ll)
          (seq 0 (fold_left Nat.min (map (@length A) rest) (length l0)))
  end.

Fixpoint zip3 {A B C} (la : list A) (lb : list B) (lc : list C)
  : list (A * B * C) :=
  match la, lb, lc with
  | a :: ta, b :: tb, c :: tc => (a, b, c) :: zip3 ta tb tc
  | _, _, _ => []
  end.

(** The running offsets [label_size_list]: the number of ground-truth
    labels of all earlier images. *)
Fixpoint label_sizes (temp : Z) (gt_label_list : list (list Z)) : list Z :=
  match gt_label_list with
  | [] => []
  | x :: rest => temp :: label_sizes (Z.of_nat (length x) + temp) rest
  end.

(** [t.permute(0, 2, 3, 1).reshape(-1, cols)] of an [N x C x H x W] tensor:
    the buffer in [N, H, W, C] order cut into rows of [cols] entries.  The
    reshape raises unless [cols] is positive and divides the size. *)
Definition permute_reshape {A} (t : tensor4 A) (cols : Z)
  : option (list (list A)) :=
  let n := fst (fst (fst (shape4 t))) in
  let c := snd (fst (fst (shape4 t))) in
  let h := snd (fst (shape4 t)) in
  let w := snd (shape4 t) in
  let total := (n * h * w * c)%nat in
  let k := Z.to_nat cols in
  _ <- assert ((0 <? cols) && Nat.eqb (total mod k) 0) ;;
  Some (map (fun row =>
               map (fun j =>
                      let f := (row * k + j)%nat in
                      at4 t (f / (h * w * c))%nat (f mod c)%nat
                            ((f / (w * c)) mod h)%nat ((f / c) mod w)%nat)
                   (seq 0 k))
            (seq 0 (total / k))).

Definition Qsum (l : list Q) : Q := fold_right Qplus 0%Q l.

(** [rows.mean(dim=0)]: the elementwise mean of a stack of score rows. *)
Definition mean_dim0 (rows : list (list Q)) : list Q :=
  match rows with
  | [] => []
  | r0 :: _ =>
      map (fun k => (Qsum (map (fun r => nth k r 0%Q) rows)
                     / inject_Z (Z.of_nat (length rows)))%Q)
          (seq 0 (length r0))
  end.

(** The flattened batch that [loss] works on. *)
Record flat_batch := mk_flat
  { flatten_labels : list Z;
    flatten_bbox_targets : list (list R);
    flatten_ids : list Z;
    num_imgs : Z;
    flatten_cls_scores : list (list Q);
    flatten_bbox_preds : list (list Q);
    all_gt_label_list : list Z }.

(** [multi_apply(self.ppdet_target_single, gt_bbox_list, gt_label_list,
    label_size_list, ...)]: one call per image, then the three result lists
    unpacked; with no image there is nothing to unpack.  [mem i] holds the
    uninitialised buffers of the call for image [i]. *)
Definition multi_apply_targets (self : PPDetHead)
    (gt_bbox_list : list (list bbox)) (gt_label_list : list (list Z))
    (featmap_sizes : list (nat * nat))
    (points : list (tensor2 Q * tensor2 Q))
    (mem : nat -> nat -> nat -> nat -> nat -> Q)
  : option (list (list (tensor2 Z)) * list (list (tensor3 R))
            * list (list (tensor2 Z))) :=
  let label_size_list := label_sizes 0 gt_label_list in
  let args := zip3 gt_bbox_list gt_label_list label_size_list in
  results <- mapM (fun ia : nat * (list bbox * list Z * Z) =>
                     ppdet_target_single self (fst (fst (snd ia)))
                       (snd (fst (snd ia))) (snd (snd ia))
                       featmap_sizes points (mem (fst ia)))
                  (combine (seq 0 (length args)) args) ;;
  _ <- assert (negb (Nat.eqb (length results) 0)) ;;
  Some (map (fun t => fst (fst t)) results,
        map (fun t => snd (fst t)) results,
        map snd results).

(** [torch.cat([torch.cat([f(t) for t in level]) for level in levels])],
    with [levels] the transposition of [lists]. *)
Definition flatten_levels {T A} (f : T -> list A) (lists : list (list T))
  : option (list A) :=
  per_level <- mapM (fun level => torch_cat (map f level)) (zip_star lists) ;;
  torch_cat per_level.

(** [loss], up to the flattened tensors. *)
Definition loss_flatten (self : PPDetHead)
    (cls_scores bbox_preds : list (tensor4 Q))
    (gt_bbox_list : list (list bbox)) (gt_label_list : list (list Z))
    (mem : nat -> nat -> nat -> nat -> nat -> Q) : option flat_batch :=
  _ <- assert (Nat.eqb (length cls_scores) (length bbox_preds)) ;;
  let featmap_sizes :=
    map (fun featmap => (snd (fst (shape4 featmap)), snd (shape4 featmap)))
        cls_scores in
  _ <- nth_error bbox_preds 0 ;;
  let points := get_points featmap_sizes in
  all_gt <- torch_cat gt_label_list ;;
  '(label_list, bbox_target_list, gt_ids_list) <-
     multi_apply_targets self gt_bbox_list gt_label_list featmap_sizes points mem ;;
  labels <- flatten_levels flatten2 label_list ;;
  bbox_targets <- flatten_levels reshape_rows4 bbox_target_list ;;
  ids <- flatten_levels flatten2 gt_ids_list ;;
  first <- nth_error cls_scores 0 ;;
  scores_l <- mapM (fun t => permute_reshape t (cls_out_channels self)) cls_scores ;;
  preds_l <- mapM (fun t => permute_reshape t 4) bbox_preds ;;
  scores <- torch_cat scores_l ;;
  preds <- torch_cat preds_l ;;
  Some (mk_flat labels bbox_targets ids
          (Z.of_nat (fst (fst (fst (shape4 first)))))
          scores preds all_gt).

(** The body of the loop over [enumerate(all_gt_label_list)]. *)
Definition agg_step (ids : list Z) (scores : list (list Q))
    (st : option (list Z * list (list Q) * Z)) (ic : nat * Z)
  : option (list Z * list (list Q) * Z) :=
  '(agg_labels, agg_cls_scores, num_agg_pos) <- st ;;
  let aggregation_indices := nonzero (fun id => id =? Z.of_nat (fst ic)) ids in
  if negb (Nat.eqb (length aggregation_indices) 0) then
    rows <- index_list scores aggregation_indices ;;
    Some (snd ic :: agg_labels, mean_dim0 rows :: agg_cls_scores, num_agg_pos + 1)
  else Some (agg_labels, agg_cls_scores, num_agg_pos).

(** The sample set of the classification loss:
    [(agg_cls_scores, agg_labels, num_agg_pos)]. *)
Definition aggregate (fb : flat_batch) : option (list Z * list (list Q) * Z) :=
  let neg_inds := nonzero (fun l => l <=? 0) (flatten_labels fb) in
  agg_labels <- index_list (flatten_labels fb) neg_inds ;;
  agg_cls_scores <- index_list (flatten_cls_scores fb) neg_inds ;;
  fold_left (agg_step (flatten_ids fb) (flatten_cls_scores fb))
            (combine (seq 0 (length (all_gt_label_list fb))) (all_gt_label_list fb))
            (Some (agg_labels, agg_cls_scores, 0)).

Record losses := mk_losses { loss_cls : R; loss_bbox : R }.

Section Loss.

(** The loss primitives built by [build_loss]. *)
Variable loss_cls_fn : list (list Q) -> list Z -> Z -> R.
Variable loss_bbox_fn : list (list Q) -> list (list R) -> list (list R) -> Z -> R.

(** The regression branch of [loss]. *)
Definition regression_loss (fb : flat_batch) : option R :=
  let pos_inds := nonzero (fun l => 0 <? l) (flatten_labels fb) in
  let num_pos := Z.of_nat (length pos_inds) in
  if 0 <? num_pos then
    pos_bbox_preds <- index_list (flatten_bbox_preds fb) pos_inds ;;
    pos_bbox_targets <- index_list (flatten_bbox_targets fb) pos_inds ;;
    let pos_weights := map (map (fun _ => (0 + 1)%R)) pos_bbox_targets in
    Some (loss_bbox_fn pos_bbox_preds pos_bbox_targets pos_weights num_pos)
  else Some 0%R.

Definition loss (self : PPDetHead)
    (cls_scores bbox_preds : list (tensor4 Q))
    (gt_bbox_list : list (list bbox)) (gt_label_list : list (list Z))
    (mem : nat -> nat -> nat -> nat -> nat -> Q) : option losses :=
  fb <- loss_flatten self cls_scores bbox_preds gt_bbox_list gt_label_list mem ;;
  '(agg_labels, agg_cls_scores, num_agg_pos) <- aggregate fb ;;
  let l_cls := loss_cls_fn agg_cls_scores agg_labels (num_agg_pos + num_imgs fb) in
  l_bbox <- regression_loss fb ;;
  Some (mk_losses l_cls l_bbox).

End Loss.

(** ** Decoder *)

Definition sigmoid (v : R) : R := (1 / (1 + exp (- v)))%R.

(** [t.permute(1, 2, 0).reshape(-1, cols)] of a [C x H x W] tensor. *)
Definition permute_reshape3 {A} (t : tensor3 A) (cols : Z)
  : option (list (list A)) :=
  let c := fst (fst (shape3 t)) in
  let h := snd (fst (shape3 t)) in
  let w := snd (shape3 t) in
  let total := (h * w * c)%nat in
  let k := Z.to_nat cols in
  _ <- assert ((0 <? cols) && Nat.eqb (total mod k) 0) ;;
  Some (map (fun row =>
               map (fun j =>
                      let f := (row * k + j)%nat in
                      at3 t (f mod c)%nat (f / (w * c))%nat ((f / c) mod w)%nat)
                   (seq 0 k))
            (seq 0 (total / k))).

(** [scores.max(dim=1)] on one row. *)
Definition row_max (row : list R) : R :=
  match row with
  | [] => 0%R
  | a :: t => fold_left Rmax t a
  end.

(** [values.topk(k)]: the positions of the [k] largest values, largest
    first.  Equal values keep their order here; torch leaves it open. *)
Fixpoint insert_by_value (vi : R * nat) (l : list (R * nat)) : list (R * nat) :=
  match l with
  | [] => [vi]
  | wj :: t => if Rle_dec (fst wj) (fst vi) then vi :: wj :: t
               else wj :: insert_by_value vi t
  end.

Definition topk (values : list R) (k : nat) : list nat :=
  map snd (firstn k (fold_right insert_by_value []
                       (combine values (seq 0 (length values))))).

(** The test-time configuration [cfg]; [cfg_nms_pre] is [None] when the key
    is absent, and [cfg.get('nms_pre', -1)] then reads [-1]. *)
Record test_cfg (NmsCfg : Type) := mk_cfg
  { cfg_nms_pre : option Z;
    cfg_score_thr : R;
    cfg_k : R;
    cfg_agg_thr : R;
    cfg_nms : NmsCfg;
    cfg_max_per_img : Z }.
Arguments mk_cfg {NmsCfg}.
Arguments cfg_nms_pre {NmsCfg}.
Arguments cfg_score_thr {NmsCfg}.
Arguments cfg_k {NmsCfg}.
Arguments cfg_agg_thr {NmsCfg}.
Arguments cfg_nms {NmsCfg}.
Arguments cfg_max_per_img {NmsCfg}.

Definition get_nms_pre {NmsCfg} (cfg : test_cfg NmsCfg) : Z :=
  match cfg_nms_pre cfg with Some v => v | None => -1 end.

(** One tuple of the [zip] over the levels in the decoders:
    [cls_score, bbox_pred, featmap_size, stride, base_len, (y, x)]. *)
Definition decode_args : Type :=
  tensor3 R * tensor3 R * (nat * nat) * Z * Q * (list R * list R).

Fixpoint zip_decode (cls_scores bbox_preds : list (tensor3 R))
    (featmap_sizes : list (nat * nat)) (strs : list Z) (bases : list Q)
    (point_list : list (list R * list R)) : list decode_args :=
  match cls_scores, bbox_preds, featmap_sizes, strs, bases, point_list with
  | c :: cs, b :: bs, f :: fs, s :: ss, e :: es, p :: ps =>
      (c, b, f, s, e, p) :: zip_decode cs bs fs ss es ps
  | _, _, _, _, _, _ => []
  end.

(** The box of one cell before the clamp:
    [stride * x -/+ base_len * bbox_pred[:, k]]. *)
Definition decode_point (stride : Z) (base_len : Q) (y x : R) (pred : list R)
  : R * R * R * R :=
  ((IZR stride * x - Q2R base_len * nth 0 pred 0)%R,
   (IZR stride * y - Q2R base_len * nth 1 pred 0)%R,
   (IZR stride * x + Q2R base_len * nth 2 pred 0)%R,
   (IZR stride * y + Q2R base_len * nth 3 pred 0)%R).

(** [torch.stack([x1, y1, x2, y2], -1)] of the clamped coordinates, one row
    per cell.  [img_shape] is [(height, width)]. *)
Definition clamp_box (img_shape : Z * Z) (b : R * R * R * R) : list R :=
  let '(x1, y1, x2, y2) := b in
  [clampR x1 0 (IZR (snd img_shape - 1));
   clampR y1 0 (IZR (fst img_shape - 1));
   clampR x2 0 (IZR (snd img_shape - 1));
   clampR y2 0 (IZR (fst img_shape - 1))].

Definition same_length3 {A B C} (a : list A) (b : list B) (c : list C) : bool :=
  Nat.eqb (length a) (length b) && Nat.eqb (length b) (length c).

(** The loop body of [get_bboxes_single_aug].  The elementwise arithmetic
    needs [y], [x] and the prediction rows to be equally many; the callers
    pass the flattened grid of the same feature map. *)
Definition decode_level_aug {NmsCfg} (self : PPDetHead) (cfg : test_cfg NmsCfg)
    (img_shape : Z * Z) (a : decode_args)
  : option (list (list R) * list (list R)) :=
  let '(cls_score, bbox_pred, featmap_size, stride, base_len, (y, x)) := a in
  _ <- assert (shape_eqb (snd (fst (shape3 cls_score)), snd (shape3 cls_score))
                         (snd (fst (shape3 bbox_pred)), snd (shape3 bbox_pred))) ;;
  scores <- permute_reshape3 cls_score (cls_out_channels self) ;;
  let scores := map (map sigmoid) scores in
  bbox_pred <- permute_reshape3 bbox_pred 4 ;;
  let bbox_pred := map (map exp) bbox_pred in
  let nms_pre := get_nms_pre cfg in
  '(bbox_pred, scores, y, x) <-
     (if (0 <? nms_pre) && (nms_pre <? Z.of_nat (length scores)) then
        let max_scores := map row_max scores in
        let topk_inds := topk max_scores (Z.to_nat nms_pre) in
        bbox_pred <- index_list bbox_pred topk_inds ;;
        scores <- index_list scores topk_inds ;;
        y <- index_list y topk_inds ;;
        x <- index_list x topk_inds ;;
        Some (bbox_pred, scores, y, x)
      else Some (bbox_pred, scores, y, x)) ;;
  _ <- assert (same_length3 y x bbox_pred) ;;
  let bboxes :=
    map (fun yxp : R * R * list R =>
           clamp_box img_shape
             (decode_point stride base_len (fst (fst yxp)) (snd (fst yxp)) (snd yxp)))
        (combine (combine y x) bbox_pred) in
  Some (bboxes, scores).

(** [get_bboxes_single_aug]: [(det_bboxes, det_scores)]. *)
Definition get_bboxes_single_aug {NmsCfg} (self : PPDetHead)
    (cls_scores bbox_preds : list (tensor3 R))
    (featmap_sizes : list (nat * nat)) (point_list : list (list R * list R))
    (img_shape : Z * Z) (scale_factor : R) (cfg : test_cfg NmsCfg)
    (rescale : bool) : option (list (list R) * list (list R)) :=
  _ <- assert (Nat.eqb (length cls_scores) (length bbox_preds)
               && Nat.eqb (length bbox_preds) (length point_list)) ;;
  per_level <- mapM (decode_level_aug self cfg img_shape)
                 (zip_decode cls_scores bbox_preds featmap_sizes (strides self)
                             (base_edge_list self) point_list) ;;
  det_bboxes <- torch_cat (map fst per_level) ;;
  let det_bboxes :=
    if rescale then map (map (fun v => (v / scale_factor)%R)) det_bboxes
    else det_bboxes in
  det_scores <- torch_cat (map snd per_level) ;;
  let det_scores := map (fun row => 0%R :: row) det_scores in
  Some (det_bboxes, det_scores).

Section Suppression.

Variable NmsCfg : Type.
Variable Detections : Type.

(** The external [multiclass_nms], called with seven positional
    arguments. *)
Variable multiclass_nms :
  list (list R) -> list (list R) -> R -> R -> R -> NmsCfg -> Z -> Detections.

(** The loop body of [get_bboxes_single]. *)
Definition decode_level (self : PPDetHead) (cfg : test_cfg NmsCfg)
    (img_shape : Z * Z) (a : decode_args)
  : option (list (list R) * list (list R)) :=
  let '(cls_score, bbox_pred, featmap_size, stride, base_len, (y, x)) := a in
  _ <- assert (shape_eqb (snd (fst (shape3 cls_score)), snd (shape3 cls_score))
                         (snd (fst (shape3 bbox_pred)), snd (shape3 bbox_pred))) ;;
  scores <- permute_reshape3 cls_score (cls_out_channels self) ;;
  let scores := map (map sigmoid) scores in
  bbox_pred <- permute_reshape3 bbox_pred 4 ;;
  let bbox_pred := map (map exp) bbox_pred in
  let nms_pre := get_nms_pre cfg in
  '(bbox_pred, scores, y, x) <-
     (if (0 <? nms_pre) && (nms_pre <? Z.of_nat (length scores)) then
        let max_scores := map row_max scores in
        let topk_inds := topk max_scores (Z.to_nat nms_pre) in
        bbox_pred <- index_list bbox_pred topk_inds ;;
        scores <- index_list scores topk_inds ;;
        y <- index_list y topk_inds ;;
        x <- index_list x topk_inds ;;
        Some (bbox_pred, scores, y, x)
      else Some (bbox_pred, scores, y, x)) ;;
  _ <- assert (same_length3 y x bbox_pred) ;;
  let bboxes :=
    map (fun yxp : R * R * list R =>
           clamp_box img_shape
             (decode_point stride base_len (fst (fst yxp)) (snd (fst yxp))
                           (snd yxp)))
        (combine (combine y x) bbox_pred) in
  Some (bboxes, scores).

(** [get_bboxes_single] up to the call of [multiclass_nms]: the values of
    [det_bboxes] and [det_scores] handed to it. *)
Definition nms_inputs (self : PPDetHead)
    (cls_scores bbox_preds : list (tensor3 R))
    (featmap_sizes : list (nat * nat)) (point_list : list (list R * list R))
    (img_shape : Z * Z) (scale_factor : R) (cfg : test_cfg NmsCfg)
    (rescale : bool) : option (list (list R) * list (list R)) :=
  _ <- assert (Nat.eqb (length cls_scores) (length bbox_preds)
               && Nat.eqb (length bbox_preds) (length point_list)) ;;
  per_level <- mapM (decode_level self cfg img_shape)
                 (zip_decode cls_scores bbox_preds featmap_sizes (strides self)
                             (base_edge_list self) point_list) ;;
  det_bboxes <- torch_cat (map fst per_level) ;;
  let det_bboxes :=
    if rescale then map (map (fun v => (v / scale_factor)%R)) det_bboxes
    else det_bboxes in
  det_scores <- torch_cat (map snd per_level) ;;
  let det_scores := map (fun row => 0%R :: row) det_scores in
  Some (det_bboxes, det_scores).

(** [get_bboxes_single]. *)
Definition get_bboxes_single (self : PPDetHead)
    (cls_scores bbox_preds : list (tensor3 R))
    (featmap_sizes : list (nat * nat)) (point_list : list (list R * list R))
    (img_shape : Z * Z) (scale_factor : R) (cfg : test_cfg NmsCfg)
    (rescale debug : bool) : option Detections :=
  '(det_bboxes, det_scores) <-
     nms_inputs self cls_scores bbox_preds featmap_sizes point_list
                img_shape scale_factor cfg rescale ;;
  if debug then
    Some (multiclass_nms det_bboxes det_scores (cfg_k cfg) (cfg_agg_thr cfg)
                         (cfg_score_thr cfg) (cfg_nms cfg) (cfg_max_per_img cfg))
  else
    Some (multiclass_nms det_bboxes det_scores (cfg_score_thr cfg) (cfg_k cfg)
                         (cfg_agg_thr cfg) (cfg_nms cfg) (cfg_max_per_img cfg)).

End Suppression.

(** ** Batched decoding *)

(** [get_points(..., flatten=True)]: for every level the pair
    [(y.flatten(), x.flatten())]. *)
Definition get_points_flatten (featmap_sizes : list (nat * nat))
  : list (list Q * list Q) :=
  map (fun yx : tensor2 Q * tensor2 Q => (flatten2 (fst yx), flatten2 (snd yx)))
      (get_points featmap_sizes).

(** [t[img_id]] on the batch dimension of an [N x C x H x W] tensor; an index
    outside the batch raises. *)
Definition select_img {A} (t : tensor4 A) (img_id : nat) : option (tensor3 A) :=
  _ <- assert (Nat.ltb img_id (fst (fst (fst (shape4 t))))) ;;
  Some (mk_tensor3 (snd (fst (fst (shape4 t))), snd (fst (shape4 t)), snd (shape4 t))
                   (at4 t img_id)).

(** One entry of [img_metas]: ['img_shape'] as [(height, width)] and
    ['scale_factor']. *)
Record img_meta := mk_meta { meta_img_shape : Z * Z; meta_scale_factor : R }.

(** The grid points handed to the decoders: the values of
    [get_points(..., flatten=True)], exact in the tensors' dtype. *)
Definition decoder_points (featmap_sizes : list (nat * nat))
  : list (list R * list R) :=
  map (fun yx : list Q * list Q => (map Q2R (fst yx), map Q2R (snd yx)))
      (get_points_flatten featmap_sizes).

(** [get_bboxes_aug]: the list of [(det_bboxes, det_scores)], one per image.
    [rescale=None] is [false]. *)
Definition get_bboxes_aug {NmsCfg} (self : PPDetHead)
    (cls_scores bbox_preds : list (tensor4 R)) (img_metas : list img_meta)
    (cfg : test_cfg NmsCfg) (rescale : bool)
  : option (list (list (list R) * list (list R))) :=
  _ <- assert (Nat.eqb (length cls_scores) (length bbox_preds)) ;;
  let featmap_sizes :=
    map (fun featmap : tensor4 R =>
           (snd (fst (shape4 featmap)), snd (shape4 featmap))) cls_scores in
  _ <- nth_error bbox_preds 0 ;;
  let points := decoder_points featmap_sizes in
  mapM (fun im : nat * img_meta =>
          cls_score_list <- mapM (fun t => select_img t (fst im)) cls_scores ;;
          bbox_pred_list <- mapM (fun t => select_img t (fst im)) bbox_preds ;;
          get_bboxes_single_aug self cls_score_list bbox_pred_list featmap_sizes
            points (meta_img_shape (snd im)) (meta_scale_factor (snd im))
            cfg rescale)
       (combine (seq 0 (length img_metas)) img_metas).

(** [get_bboxes]: the list of the results of [get_bboxes_single], one per
    image. *)
Definition get_bboxes {NmsCfg Detections}
    (multiclass_nms : list (list R) -> list (list R) -> R -> R -> R -> NmsCfg
                      -> Z -> Detections)
    (self : PPDetHead)
    (cls_scores bbox_preds : list (tensor4 R)) (img_metas : list img_meta)
    (cfg : test_cfg NmsCfg) (rescale : bool) : option (list Detections) :=
  _ <- assert (Nat.eqb (length cls_scores) (length bbox_preds)) ;;
  let featmap_sizes :=
    map (fun featmap : tensor4 R =>
           (snd (fst (shape4 featmap)), snd (shape4 featmap))) cls_scores in
  _ <- nth_error bbox_preds 0 ;;
  let points := decoder_points featmap_sizes in
  mapM (fun im : nat * img_meta =>
          cls_score_list <- mapM (fun t => select_img t (fst im)) cls_scores ;;
          bbox_pred_list <- mapM (fun t => select_img t (fst im)) bbox_preds ;;
          get_bboxes_single NmsCfg Detections multiclass_nms self cls_score_list
            bbox_pred_list featmap_sizes points (meta_img_shape (snd im))
            (meta_scale_factor (snd im)) cfg rescale false)
       (combine (seq 0 (length img_metas)) img_metas).

(** * Definitions for the statements *)

(** Membership of a cell in the rectangle [px1..px2] x [py1..py2]. *)
Definition covers (reg : Z * Z * Z * Z) (r c : nat) : bool :=
  let '(px1, py1, px2, py2) := reg in
  (py1 <=? Z.of_nat r) && (Z.of_nat r <=? py2)
  && (px1 <=? Z.of_nat c) && (Z.of_nat c <=? px2).

(** The cells that one tuple of the painting loop writes. *)
Definition painted (featmap_size : nat * nat) (it : paint_item) (r c : nat) : bool :=
  let '(px1, py1, px2, py2) := item_region it in
  in_slice py1 (py2 + 1) (fst featmap_size) r
  && in_slice px1 (px2 + 1) (snd featmap_size) c.

(** The four values written by one tuple at a cell, by channel. *)
Definition side_dist (stride : Z) (base_len : Q) (y x : tensor2 Q) (gt : bbox)
    (r c k : nat) : Q :=
  let s := inject_Z stride in
  match k with
  | 0%nat => (s * at2 x r c - bx1 gt) / base_len
  | 1%nat => (s * at2 y r c - by1 gt) / base_len
  | 2%nat => (bx2 gt - s * at2 x r c) / base_len
  | _ => (by2 gt - s * at2 y r c) / base_len
  end%Q.

Definition grids_shape (fs : nat * nat) (g : grids) : Prop :=
  shape2 (g_labels g) = fs /\ shape3 (g_bbox g) = (fst fs, snd fs, 4%nat)
  /\ shape2 (g_ids g) = fs.

(** The last tuple, in painting order, that writes a cell. *)
Definition last_painter (fs : nat * nat) (items : list paint_item) (r c : nat)
  : option paint_item :=
  find (fun it => painted fs it r c) (rev items).

(** [a] is painted no later than [b]: its area is at least that of [b]. *)
Definition area_ge (a b : nat * bbox) : Prop :=
  (area_sq (snd b) <= area_sq (snd a))%Q.

(** The hits of a level in painting order, and the tuples of its loop. *)
Definition level_hits (boxes : list bbox) (lv : level_args) : list (nat * bbox) :=
  sort_desc (hit_indices (fst (lv_range lv)) (snd (lv_range lv)) boxes).

Definition level_items (sigma : Q) (boxes : list bbox) (labels : list Z)
    (lv : level_args) : list paint_item :=
  match index_list labels (map fst (level_hits boxes lv)) with
  | Some gt_labels =>
      paint_items sigma (lv_stride lv) (lv_featmap_size lv) gt_labels
                  (level_hits boxes lv)
  | None => []
  end.

(** The levels that [ppdet_target_single] iterates over. *)
Definition levels_of (self : PPDetHead) (featmap_size_list : list (nat * nat))
    (point_list : list (tensor2 Q * tensor2 Q)) : list level_args :=
  zip_levels (base_edge_list self) (scale_ranges self) (strides self)
             featmap_size_list point_list.

(** The bounds as the specification words them: from the box centre
    [x_center], [y_center] and the half sizes, in stride units. *)
Definition center_region (sigma : Q) (stride : Z) (featmap_size : nat * nat)
    (b : bbox) : Z * Z * Z * Z :=
  let s := inject_Z stride in
  let x_center := ((bx1 b + bx2 b) / 2 / s)%Q in
  let y_center := ((by1 b + by2 b) / 2 / s)%Q in
  let half_w := ((bx2 b - bx1 b) / 2 / s)%Q in
  let half_h := ((by2 b - by1 b) / 2 / s)%Q in
  let wmax := Z.of_nat (snd featmap_size) - 1 in
  let hmax := Z.of_nat (fst featmap_size) - 1 in
  (clampZ (Qceiling (x_center + (1 - sigma) * half_w - half)) 0 wmax,
   clampZ (Qceiling (y_center + (1 - sigma) * half_h - half)) 0 hmax,
   clampZ (Qfloor (x_center + (1 + sigma) * half_w - half)) 0 wmax,
   clampZ (Qfloor (y_center + (1 + sigma) * half_h - half)) 0 hmax).

(** The same formulas measured from the left and top edges [x1], [y1] of the
    box instead of its centre. *)
Definition edge_region (sigma : Q) (stride : Z) (featmap_size : nat * nat)
    (b : bbox) : Z * Z * Z * Z :=
  let s := inject_Z stride in
  let x1 := (bx1 b / s)%Q in
  let y1 := (by1 b / s)%Q in
  let half_w := ((bx2 b - bx1 b) / 2 / s)%Q in
  let half_h := ((by2 b - by1 b) / 2 / s)%Q in
  let wmax := Z.of_nat (snd featmap_size) - 1 in
  let hmax := Z.of_nat (fst featmap_size) - 1 in
  (clampZ (Qceiling (x1 + (1 - sigma) * half_w - half)) 0 wmax,
   clampZ (Qceiling (y1 + (1 - sigma) * half_h - half)) 0 hmax,
   clampZ (Qfloor (x1 + (1 + sigma) * half_w - half)) 0 wmax,
   clampZ (Qfloor (y1 + (1 + sigma) * half_h - half)) 0 hmax).

(** The region shrunk by [sigma] around the centre. *)
Definition shrunk_region (sigma : Q) (stride : Z) (featmap_size : nat * nat)
    (b : bbox) : Z * Z * Z * Z :=
  let s := inject_Z stride in
  let x_center := ((bx1 b + bx2 b) / 2 / s)%Q in
  let y_center := ((by1 b + by2 b) / 2 / s)%Q in
  let half_w := ((bx2 b - bx1 b) / 2 / s)%Q in
  let half_h := ((by2 b - by1 b) / 2 / s)%Q in
  let wmax := Z.of_nat (snd featmap_size) - 1 in
  let hmax := Z.of_nat (fst featmap_size) - 1 in
  (clampZ (Qceiling (x_center - sigma * half_w - half)) 0 wmax,
   clampZ (Qceiling (y_center - sigma * half_h - half)) 0 hmax,
   clampZ (Qfloor (x_center + sigma * half_w - half)) 0 wmax,
   clampZ (Qfloor (y_center + sigma * half_h - half)) 0 hmax).

(** A head with two levels and a box selected by its first level. *)
Definition head2 : PPDetHead :=
  mk_head 3 [4; 8] [16%Q; 32%Q] [(8%Q, 32%Q); (16%Q, 64%Q)] (2 # 5).

Definition box16 : bbox := mk_bbox 0 0 16 16.

Definition sizes2 : list (nat * nat) := [(8, 8); (4, 4)]%nat.

Definition box24 : bbox := mk_bbox 0 0 24 24.

Definition box20 : bbox := mk_bbox 0 0 20 20.

(** Fresh buffers that happen to hold zeros. *)
Definition zero_mem : nat -> nat -> nat -> nat -> Q := fun _ _ _ _ => 0%Q.

(** The first level of [head2] on [sizes2]. *)
Definition level0 : level_args :=
  mk_level 16 (8%Q, 32%Q) 4 (8, 8)%nat
    (mk_tensor2 (8, 8)%nat (fun r _ => inject_Z (Z.of_nat r) + half)%Q,
     mk_tensor2 (8, 8)%nat (fun _ c => inject_Z (Z.of_nat c) + half)%Q).

(** The label and the instance id of one cell of one level. *)
Definition cell_of
    (out : option (list (tensor2 Z) * list (tensor3 R) * list (tensor2 Z)))
    (lvl r c : nat) : option (Z * Z) :=
  '(LL, _, GL) <- out ;;
  L <- nth_error LL lvl ;;
  G <- nth_error GL lvl ;;
  Some (at2 L r c, at2 G r c).

Definition is_some {A} (o : option A) : bool :=
  match o with Some _ => true | None => false end.

(** The normalised side distances of a cell from a box, in the words of the
    specification: [x_cell = x + 0.5] and [y_cell = y + 0.5] are the
    coordinates of the cell centre. *)
Definition spec_dist (stride : Z) (base_edge : Q) (gt : bbox) (y x k : nat) : Q :=
  let x_cell := (inject_Z (Z.of_nat x) + half)%Q in
  let y_cell := (inject_Z (Z.of_nat y) + half)%Q in
  match k with
  | 0%nat => (inject_Z stride * x_cell - bx1 gt) / base_edge
  | 1%nat => (inject_Z stride * y_cell - by1 gt) / base_edge
  | 2%nat => (bx2 gt - inject_Z stride * x_cell) / base_edge
  | _ => (by2 gt - inject_Z stride * y_cell) / base_edge
  end%Q.

(** A buffer that happens to hold 3 in every entry. *)
Definition stale_mem : nat -> nat -> nat -> nat -> Q := fun _ _ _ _ => 3%Q.

(** The score row of a cell of the flattened batch. *)
Definition cell_scores (fb : flat_batch) (j : nat) : list Q :=
  nth j (flatten_cls_scores fb) [].

(** The cells whose instance id is the global id [i]. *)
Definition instance_cells (fb : flat_batch) (i : nat) : list nat :=
  nonzero (fun id => id =? Z.of_nat i) (flatten_ids fb).

(** The cells with label at most 0, each with its raw score row and the
    label 0. *)
Definition neg_rows (fb : flat_batch) : list (list Q * Z) :=
  map (fun j => (cell_scores fb j, 0))
      (nonzero (fun l => l <=? 0) (flatten_labels fb)).

(** The ground-truth instances, by global id and with their class label,
    that have at least one cell. *)
Definition hit_instances (fb : flat_batch) : list (nat * Z) :=
  filter (fun ic => negb (Nat.eqb (length (instance_cells fb (fst ic))) 0))
         (combine (seq 0 (length (all_gt_label_list fb))) (all_gt_label_list fb)).

(** One row per hit instance: the mean of the score rows of its cells, with
    the class label of the instance. *)
Definition hit_rows (fb : flat_batch) : list (list Q * Z) :=
  map (fun ic => (mean_dim0 (map (cell_scores fb) (instance_cells fb (fst ic))),
                  snd ic))
      (hit_instances fb).

(** What a cell of the batch can hold: background, or the label of some
    ground-truth box together with a nonnegative instance id. *)
Definition cell_ok (gt_label_list : list (list Z)) (l g : Z) : Prop :=
  (l = 0 /\ g = -1)
  \/ (0 <= g /\ exists labels, In labels gt_label_list /\ In l labels).

(** A batch of one image on the two levels of [head2]. *)
Definition cls_scores2 : list (tensor4 Q) :=
  [mk_tensor4 (1, 2, 8, 8)%nat (fun _ c h w => inject_Z (Z.of_nat (c + h + w)));
   mk_tensor4 (1, 2, 4, 4)%nat (fun _ c h w => inject_Z (Z.of_nat (c + h * w)))].

Definition bbox_preds2 : list (tensor4 Q) :=
  [mk_tensor4 (1, 4, 8, 8)%nat (fun _ _ _ _ => 0%Q);
   mk_tensor4 (1, 4, 4, 4)%nat (fun _ _ _ _ => 0%Q)].

(** Stand-ins for the loss primitives. *)
Definition count_loss_cls (scores : list (list Q)) (labels : list Z)
    (avg_factor : Z) : R := IZR (Z.of_nat (length scores)) / IZR avg_factor.

Definition count_loss_bbox (preds : list (list Q)) (targets weights : list (list R))
    (avg_factor : Z) : R := IZR (Z.of_nat (length preds)) / IZR avg_factor.

(** What one level of the decoder returns. *)
Definition level_decoded {NmsCfg : Type} (self : PPDetHead) (img_shape : Z * Z)
    (a : decode_args) (out : list (list R) * list (list R)) : Prop :=
  0 < cls_out_channels self
  /\ Forall (fun row => length row = Z.to_nat (cls_out_channels self)) (snd out)
  /\ Forall (fun row => exists yv xv pred,
                 Forall (fun v => (0 <= v)%R) pred
                 /\ row = clamp_box img_shape
                            (decode_point (snd (fst (fst a))) (snd (fst a))
                                          yv xv pred))
            (fst out)
  /\ (fst (fst (shape3 (fst (fst (fst (fst (fst a))))))) = Z.to_nat (cls_out_channels self) ->
      fst (fst (shape3 (snd (fst (fst (fst (fst a))))))) = 4%nat ->
      length (fst out) = length (snd out)).

(** A head with the single level of stride 8 and base edge 16, and one cell
    at [(y, x) = (10.5, 20.5)] with raw predictions 0. *)
Definition head8 : PPDetHead := mk_head 3 [8] [16%Q] [(8%Q, 32%Q)] (2 # 5).

Definition cell_cls : tensor3 R := mk_tensor3 (2, 1, 1)%nat (fun _ _ _ => 0%R).

Definition cell_reg : tensor3 R := mk_tensor3 (4, 1, 1)%nat (fun _ _ _ => 0%R).

Definition cell_points : list (list R * list R) := [([(21 / 2)%R], [(41 / 2)%R])].

Definition cfg0 : test_cfg unit := mk_cfg None 0%R 0%R 0%R tt 100.

(** The number of cells of each level. *)
Definition level_cells (sizes : list (nat * nat)) : list nat :=
  map (fun s => (fst s * snd s)%nat) sizes.

(** A batch as the network produces it: [n] images with at least as many
    labels as boxes each, one score tensor of shape
    [n x cls_out_channels x H x W] and one regression tensor of shape
    [n x 4 x H x W] per level, and a configuration that covers the levels. *)
Definition wf_batch (self : PPDetHead) (cls_scores bbox_preds : list (tensor4 Q))
    (gt_bbox_list : list (list bbox)) (gt_label_list : list (list Z)) : Prop :=
  (1 <= length gt_bbox_list)%nat
  /\ (1 <= length cls_scores)%nat
  /\ Forall2 (fun boxes labels => (length boxes <= length labels)%nat)
             gt_bbox_list gt_label_list
  /\ (length cls_scores <= length (base_edge_list self))%nat
  /\ (length cls_scores <= length (scale_ranges self))%nat
  /\ (length cls_scores <= length (strides self))%nat
  /\ 0 < cls_out_channels self
  /\ Forall2 (fun c b =>
                fst (fst (fst (shape4 c))) = length gt_bbox_list
                /\ snd (fst (fst (shape4 c))) = Z.to_nat (cls_out_channels self)
                /\ fst (fst (fst (shape4 b))) = length gt_bbox_list
                /\ snd (fst (fst (shape4 b))) = 4%nat
                /\ snd (fst (shape4 b)) = snd (fst (shape4 c))
                /\ snd (shape4 b) = snd (shape4 c))
             cls_scores bbox_preds.

(** A box too small for the scale range of either level of [head2]. *)
Definition box2 : bbox := mk_bbox 0 0 2 2.

(** The distance of the cell centre to the far side is what the code writes
    for channels 2 and 3; all four are the [spec_dist] of the cell. *)
Definition cell_center (i : nat) : Q := (inject_Z (Z.of_nat i) + half)%Q.

(** A box beyond the right edge of the 8 x 8 map of stride 4. *)
Definition box_outside : bbox := mk_bbox 40 0 48 16.

(** What a cell of the flattened batch holds, read against
    [all_gt_label_list]: background, or an instance id that indexes the
    label of the cell. *)
Definition cell_global (all_gt : list Z) (l g : Z) : Prop :=
  (l = 0 /\ g = -1)
  \/ (0 <= g /\ nth_error all_gt (Z.to_nat g) = Some l).

(** The number of cells of a level that survive the top-k selection of the
    decoders. *)
Definition kept_cells {NmsCfg} (cfg : test_cfg NmsCfg) (n : nat) : nat :=
  if (0 <? get_nms_pre cfg) && (get_nms_pre cfg <? Z.of_nat n)
  then Z.to_nat (get_nms_pre cfg) else n.

(** The head outputs of a batch of [n] images at test time: per level one
    score tensor of shape [n x cls_out_channels x H x W] and one regression
    tensor of shape [n x 4 x H x W], with a stride and a base edge length for
    every level. *)
Definition wf_outputs (self : PPDetHead) (cls_scores bbox_preds : list (tensor4 R))
    (n : nat) : Prop :=
  (1 <= length cls_scores)%nat
  /\ (length cls_scores <= length (strides self))%nat
  /\ (length cls_scores <= length (base_edge_list self))%nat
  /\ 0 < cls_out_channels self
  /\ Forall2 (fun c b =>
                fst (fst (fst (shape4 c))) = n
                /\ snd (fst (fst (shape4 c))) = Z.to_nat (cls_out_channels self)
                /\ fst (fst (fst (shape4 b))) = n
                /\ snd (fst (fst (shape4 b))) = 4%nat
                /\ snd (fst (shape4 b)) = snd (fst (shape4 c))
                /\ snd (shape4 b) = snd (shape4 c))
             cls_scores bbox_preds.

(** One decoder argument tuple whose tensors and points fit its feature
    map. *)
Definition wf_decode_arg (self : PPDetHead) (a : decode_args) : Prop :=
  let '(cls_score, bbox_pred, featmap_size, stride, base_len, (y, x)) := a in
  shape3 cls_score
  = (Z.to_nat (cls_out_channels self), fst featmap_size, snd featmap_size)
  /\ shape3 bbox_pred = (4%nat, fst featmap_size, snd featmap_size)
  /\ length y = (fst featmap_size * snd featmap_size)%nat
  /\ length x = (fst featmap_size * snd featmap_size)%nat.

(** The feature-map size of a decoder argument tuple. *)
Definition arg_size (a : decode_args) : nat * nat := snd (fst (fst (fst a))).

(** A batch of two images for [head8], one cell per image. *)
Definition batch_cls : list (tensor4 R) :=
  [mk_tensor4 (2, 2, 1, 1)%nat (fun _ _ _ _ => 0%R)].

Definition batch_reg : list (tensor4 R) :=
  [mk_tensor4 (2, 4, 1, 1)%nat (fun _ _ _ _ => 0%R)].

Definition metas2 : list img_meta :=
  [mk_meta (200, 300) 1; mk_meta (100, 150) 2].

(** The positive cells of the flattened batch, [pos_inds]. *)
Definition pos_cells (fb : flat_batch) : list nat :=
  nonzero (fun l => 0 <? l) (flatten_labels fb).

(** * Properties *)

(** ** Option and list helpers *)

Lemma obind_Some {A B} (o : option A) (f : A -> option B) (b : B) :
  obind o f = Some b <-> exists a, o = Some a /\ f a = Some b.
Proof.
  destruct o as [a|]; simpl; split.
  - intros H; exists a; auto.
  - intros [a' [E H]]; inversion E; subst; auto.
  - discriminate.
  - intros [a' [E _]]; discriminate.
Qed.

Lemma assert_Some (b : bool) (u : unit) : assert b = Some u <-> b = true.
Proof. destruct b, u; simpl; split; congruence. Qed.

Ltac inv_bind H :=
  repeat match type of H with
  | obind _ _ = Some _ =>
      let a := fresh "a" in let E := fresh "E" in
      apply obind_Some in H; destruct H as [a [E H]]
  end.

Lemma mapM_Forall2 {A B} (f : A -> option B) (l : list A) (bs : list B) :
  mapM f l = Some bs <-> Forall2 (fun a b => f a = Some b) l bs.
Proof.
  revert bs; induction l as [|a l IH]; intros bs; simpl.
  - split; intros H.
    + inversion H; constructor.
    + inversion H; reflexivity.
  - split; intros H.
    + inv_bind H. inversion H; subst. constructor; auto. apply IH; auto.
    + inversion H as [|? b ? bs' Hb Hbs]; subst.
      rewrite Hb; simpl. apply IH in Hbs. rewrite Hbs; reflexivity.
Qed.

Lemma mapM_length {A B} (f : A -> option B) (l : list A) (bs : list B) :
  mapM f l = Some bs -> length bs = length l.
Proof.
  intros H; apply mapM_Forall2 in H.
  induction H; simpl; congruence.
Qed.

Lemma mapM_nth_error {A B} (f : A -> option B) (l : list A) (bs : list B)
    (i : nat) (b : B) :
  mapM f l = Some bs -> nth_error bs i = Some b ->
  exists a, nth_error l i = Some a /\ f a = Some b.
Proof.
  intros H; apply mapM_Forall2 in H.
  revert i; induction H as [|a b' l bs Hab _ IH]; intros [|i] Hi;
    simpl in *; try discriminate.
  - inversion Hi; subst. exists a; auto.
  - apply IH; auto.
Qed.

Lemma mapM_total {A B} (f : A -> option B) (l : list A) :
  Forall (fun a => exists b, f a = Some b) l -> exists bs, mapM f l = Some bs.
Proof.
  induction 1 as [|a l [b Hb] _ [bs Hbs]]; simpl.
  - eexists; reflexivity.
  - rewrite Hb, Hbs; simpl. eexists; reflexivity.
Qed.

Lemma find_rev_app {A} (p : A -> bool) (l : list A) (a : A) :
  find p (rev (a :: l)) =
  match find p (rev l) with
  | Some x => Some x
  | None => if p a then Some a else None
  end.
Proof.
  simpl. generalize (rev l) as m.
  induction m as [|x m IH]; simpl.
  - reflexivity.
  - destruct (p x); auto.
Qed.

Lemma find_rev_snoc {A} (p : A -> bool) (l : list A) (a : A) :
  find p (rev (l ++ [a])) = if p a then Some a else find p (rev l).
Proof. rewrite rev_app_distr; reflexivity. Qed.

(** ** Slices *)

(** For bounds clamped into [0, dim - 1] the Python slice [lo : hi + 1] holds
    exactly the indices from [lo] to [hi]; with [dim = 0] both are empty. *)
Lemma in_slice_clamped (a b : Z) (dim i : nat) :
  in_slice (clampZ a 0 (Z.of_nat dim - 1)) (clampZ b 0 (Z.of_nat dim - 1) + 1) dim i
  = (clampZ a 0 (Z.of_nat dim - 1) <=? Z.of_nat i)
    && (Z.of_nat i <=? clampZ b 0 (Z.of_nat dim - 1)).
Proof.
  unfold in_slice, slice_bound.
  pose proof (Zle_0_nat i). pose proof (Zle_0_nat dim).
  set (A := clampZ a 0 (Z.of_nat dim - 1)).
  set (B := clampZ b 0 (Z.of_nat dim - 1)).
  assert (HA : (0 < Z.of_nat dim -> 0 <= A <= Z.of_nat dim - 1) /\ (Z.of_nat dim = 0 -> A = -1))
    by (unfold A, clampZ; lia).
  assert (HB : (0 < Z.of_nat dim -> 0 <= B <= Z.of_nat dim - 1) /\ (Z.of_nat dim = 0 -> B = -1))
    by (unfold B, clampZ; lia).
  clearbody A B.
  destruct (Z.ltb_spec A 0); destruct (Z.ltb_spec (B + 1) 0);
  repeat match goal with
           | |- context [?x <? ?y] => destruct (Z.ltb_spec x y)
           | |- context [?x <=? ?y] => destruct (Z.leb_spec x y)
           end; simpl; try reflexivity; try lia.
Qed.

(** ** The painting loop *)

Section Painting.

Variables (stride : Z) (base_len : Q) (y x : tensor2 Q) (off : Z).
Variable fs : nat * nat.

Let step := paint stride base_len y x off.

Lemma paint_shape (g : grids) (it : paint_item) :
  grids_shape fs g -> grids_shape fs (step g it).
Proof.
  unfold grids_shape, step, paint.
  destruct (item_region it) as [[[px1 py1] px2] py2]; simpl. auto.
Qed.

Lemma paint_labels (g : grids) (it : paint_item) (r c : nat) :
  grids_shape fs g ->
  at2 (g_labels (step g it)) r c =
  if painted fs it r c then item_label it else at2 (g_labels g) r c.
Proof.
  unfold grids_shape, step, paint, painted. intros (Hl & _ & _).
  destruct (item_region it) as [[[px1 py1] px2] py2]; simpl.
  rewrite Hl. reflexivity.
Qed.

Lemma paint_ids (g : grids) (it : paint_item) (r c : nat) :
  grids_shape fs g ->
  at2 (g_ids (step g it)) r c =
  if painted fs it r c then Z.of_nat (item_id it) + off else at2 (g_ids g) r c.
Proof.
  unfold grids_shape, step, paint, painted. intros (_ & _ & Hi).
  destruct (item_region it) as [[[px1 py1] px2] py2]; simpl.
  rewrite Hi. reflexivity.
Qed.

Lemma paint_bbox (g : grids) (it : paint_item) (r c k : nat) :
  grids_shape fs g -> (k < 4)%nat ->
  at3 (g_bbox (step g it)) r c k =
  if painted fs it r c then side_dist stride base_len y x (item_box it) r c k
  else at3 (g_bbox g) r c k.
Proof.
  unfold grids_shape, step, paint, painted. intros (_ & Hb & _) Hk.
  destruct (item_region it) as [[[px1 py1] px2] py2]; simpl.
  rewrite Hb; simpl.
  destruct (in_slice py1 (py2 + 1) (fst fs) r && in_slice px1 (px2 + 1) (snd fs) c)
    eqn:E.
  - apply andb_true_iff in E. destruct E as [E1 E2]. rewrite E1, E2.
    destruct k as [|[|[|[|k]]]]; simpl; try reflexivity; lia.
  - assert (E' : forall b, b && in_slice py1 (py2 + 1) (fst fs) r
                           && in_slice px1 (px2 + 1) (snd fs) c = false).
    { intros b. rewrite <- andb_assoc, E. apply andb_false_r. }
    rewrite !E'. reflexivity.
Qed.

(** After the loop a cell holds what the last tuple covering it wrote, and
    its initial content if no tuple covers it. *)
Lemma fold_paint (items : list paint_item) (g : grids) :
  grids_shape fs g ->
  let g' := fold_left step items g in
  grids_shape fs g' /\
  forall r c,
    at2 (g_labels g') r c =
      match last_painter fs items r c with
      | Some it => item_label it
      | None => at2 (g_labels g) r c
      end
    /\ at2 (g_ids g') r c =
      match last_painter fs items r c with
      | Some it => Z.of_nat (item_id it) + off
      | None => at2 (g_ids g) r c
      end
    /\ forall k, (k < 4)%nat ->
      at3 (g_bbox g') r c k =
      match last_painter fs items r c with
      | Some it => side_dist stride base_len y x (item_box it) r c k
      | None => at3 (g_bbox g) r c k
      end.
Proof.
  intros Hg. induction items as [|it items IH] using rev_ind; simpl.
  - split; auto.
  - rewrite fold_left_app; simpl.
    destruct IH as [Hs IH]. split.
    + apply paint_shape; exact Hs.
    + intros r c. unfold last_painter. rewrite find_rev_snoc.
      destruct (IH r c) as (Il & Ii & Ib).
      rewrite paint_labels, paint_ids by exact Hs.
      destruct (painted fs it r c) eqn:E.
      * repeat split; auto. intros k Hk. rewrite paint_bbox, E by auto. reflexivity.
      * repeat split; auto. intros k Hk. rewrite paint_bbox, E by auto. auto.
Qed.

End Painting.

(** The tuples of the loop carry the region, label, index and raw box of
    the hits, in order. *)
Lemma paint_items_In (sigma : Q) (stride : Z) (fs : nat * nat)
    (gt_labels : list Z) (hits : list (nat * bbox)) (it : paint_item) :
  In it (paint_items sigma stride fs gt_labels hits) ->
  item_region it = pos_region sigma stride fs (item_box it)
  /\ In (item_label it, (item_id it, item_box it)) (combine gt_labels hits).
Proof.
  unfold paint_items. rewrite in_map_iff.
  intros [[l [i b]] [E H]]. subst it. simpl. split; auto.
Qed.

(** With the bounds of [pos_region], the painted cells are those of the
    rectangle. *)
Lemma painted_covers (sigma : Q) (stride : Z) (fs : nat * nat) (it : paint_item)
    (r c : nat) :
  item_region it = pos_region sigma stride fs (item_box it) ->
  painted fs it r c = covers (item_region it) r c.
Proof.
  intros E. unfold painted, covers. rewrite E. unfold pos_region.
  rewrite !in_slice_clamped. rewrite andb_assoc. reflexivity.
Qed.

(** ** Selection and order of the hits *)

Lemma In_combine_seq {A} (l : list A) (i : nat) (a : A) (s : nat) :
  In (i, a) (combine (seq s (length l)) l) <->
  (s <= i)%nat /\ nth_error l (i - s) = Some a.
Proof.
  revert s; induction l as [|b l IH]; intros s; simpl.
  - split; [tauto|]. intros [_ H]. destruct (i - s)%nat; discriminate.
  - rewrite IH. split.
    + intros [E | [Hs H]].
      * inversion E; subst. rewrite Nat.sub_diag. auto.
      * split; [lia|]. replace (i - s)%nat with (S (i - S s)) by lia. exact H.
    + intros [Hs H]. destruct (i - s)%nat as [|n] eqn:E.
      * left. inversion H; subst. f_equal. lia.
      * right. split; [lia|]. replace (i - S s)%nat with n by lia. exact H.
Qed.

Lemma hit_indices_In (lo hi : Q) (boxes : list bbox) (i : nat) (b : bbox) :
  In (i, b) (hit_indices lo hi boxes) <->
  nth_error boxes i = Some b /\ hit lo hi b = true.
Proof.
  unfold hit_indices. rewrite filter_In, In_combine_seq. simpl.
  rewrite Nat.sub_0_r. intuition lia.
Qed.

Lemma insert_desc_perm (ib : nat * bbox) (l : list (nat * bbox)) :
  Permutation (insert_desc ib l) (ib :: l).
Proof.
  induction l as [|jb l IH]; simpl; [reflexivity|].
  destruct (Qle_bool _ _); [reflexivity|].
  rewrite IH. apply perm_swap.
Qed.

Lemma sort_desc_perm (l : list (nat * bbox)) : Permutation (sort_desc l) l.
Proof.
  induction l as [|a l IH]; simpl; [reflexivity|].
  rewrite insert_desc_perm. constructor. exact IH.
Qed.

Lemma insert_desc_sorted (ib : nat * bbox) (l : list (nat * bbox)) :
  StronglySorted area_ge l -> StronglySorted area_ge (insert_desc ib l).
Proof.
  induction 1 as [|jb l Hs IH Hf]; simpl.
  - repeat constructor.
  - destruct (Qle_bool (area_sq (snd jb)) (area_sq (snd ib))) eqn:E.
    + apply Qle_bool_iff in E.
      constructor; [constructor; auto|].
      constructor; [exact E|].
      eapply Forall_impl; [|exact Hf].
      intros c Hc. unfold area_ge in *. eapply Qle_trans; eauto.
    + assert (Hlt : (area_sq (snd ib) <= area_sq (snd jb))%Q).
      { apply Qnot_lt_le. intros Hlt. apply Qlt_le_weak in Hlt.
        apply Qle_bool_iff in Hlt. congruence. }
      constructor; [exact IH|].
      eapply Permutation_Forall; [symmetry; apply insert_desc_perm|].
      constructor; auto.
  Qed.

Lemma sort_desc_sorted (l : list (nat * bbox)) :
  StronglySorted area_ge (sort_desc l).
Proof.
  induction l as [|a l IH]; simpl; [constructor|].
  apply insert_desc_sorted; exact IH.
Qed.

(** In a list sorted by [R], the last element satisfying [p] comes after
    every other element satisfying [p]. *)
Lemma find_last_sorted {A} (R : A -> A -> Prop) (p : A -> bool) (l : list A)
    (j k : A) :
  StronglySorted R l -> find p (rev l) = Some k -> In j l -> p j = true ->
  j = k \/ R j k.
Proof.
  induction 1 as [|a l Hs IH Hf]; intros Hk Hj Hp.
  - destruct Hj.
  - rewrite find_rev_app in Hk.
    destruct (find p (rev l)) as [k'|] eqn:E.
    + inversion Hk; subst k'. destruct Hj as [Hj | Hj].
      * subst a. right. rewrite Forall_forall in Hf. apply Hf.
        apply find_some in E. apply in_rev. tauto.
      * auto.
    + destruct Hj as [Hj | Hj].
      * subst a. rewrite Hp in Hk. left; congruence.
      * exfalso. apply in_rev in Hj.
        pose proof (find_none _ _ E _ Hj). congruence.
Qed.

Lemma find_rev_exists {A} (p : A -> bool) (l : list A) (j : A) :
  In j l -> p j = true -> exists k, find p (rev l) = Some k.
Proof.
  intros Hj Hp. destruct (find p (rev l)) as [k|] eqn:E; [eauto|].
  apply in_rev in Hj. pose proof (find_none _ _ E _ Hj). congruence.
Qed.

(** ** One level of the target builder *)

Lemma index_list_combine {A B} (t : list A) (hits : list (nat * B)) (vs : list A) :
  index_list t (map fst hits) = Some vs ->
  length vs = length hits /\
  (forall v i b, In (v, (i, b)) (combine vs hits) -> nth_error t i = Some v) /\
  (forall i b, In (i, b) hits -> exists v, In (v, (i, b)) (combine vs hits)).
Proof.
  unfold index_list. intros H. apply mapM_Forall2 in H.
  remember (map fst hits) as idx eqn:E. revert hits E.
  induction H as [|i v idx vs Hv _ IH]; intros hits E.
  - destruct hits; [|discriminate]. simpl. repeat split; tauto.
  - destruct hits as [|[i' b'] hits]; [discriminate|].
    simpl in E. inversion E; subst i'. destruct (IH hits H1) as (Hl & Hn & Hc).
    simpl. split; [congruence|]. split.
    + intros v0 i0 b0 [E0 | Hin]; [inversion E0; subst; auto | eauto].
    + intros i0 b0 [E0 | Hin].
      * inversion E0; subst. exists v. auto.
      * destruct (Hc _ _ Hin) as [v0 Hv0]. exists v0. auto.
Qed.

Lemma level_hits_In (boxes : list bbox) (lv : level_args) (i : nat) (b : bbox) :
  In (i, b) (level_hits boxes lv) <->
  nth_error boxes i = Some b
  /\ hit (fst (lv_range lv)) (snd (lv_range lv)) b = true.
Proof.
  unfold level_hits. rewrite <- hit_indices_In. split; intros H.
  - eapply Permutation_in; [apply sort_desc_perm | exact H].
  - eapply Permutation_in; [symmetry; apply sort_desc_perm | exact H].
Qed.

Lemma level_hits_nil (boxes : list bbox) (lv : level_args) :
  length (hit_indices (fst (lv_range lv)) (snd (lv_range lv)) boxes) = 0%nat ->
  level_hits boxes lv = [].
Proof.
  unfold level_hits. intros H.
  destruct (hit_indices _ _ boxes); [reflexivity | discriminate].
Qed.

Lemma level_items_In (sigma : Q) (boxes : list bbox) (labels : list Z)
    (lv : level_args) (it : paint_item) :
  In it (level_items sigma boxes labels lv) ->
  item_region it = pos_region sigma (lv_stride lv) (lv_featmap_size lv) (item_box it)
  /\ nth_error labels (item_id it) = Some (item_label it)
  /\ nth_error boxes (item_id it) = Some (item_box it)
  /\ hit (fst (lv_range lv)) (snd (lv_range lv)) (item_box it) = true.
Proof.
  unfold level_items.
  destruct (index_list labels (map fst (level_hits boxes lv))) as [gl|] eqn:E;
    [|intros []].
  intros H. apply paint_items_In in H. destruct H as [Hr Hin].
  apply index_list_combine in E. destruct E as (_ & Hn & _).
  split; [exact Hr|]. split; [eauto|].
  apply in_combine_r in Hin. apply level_hits_In in Hin. exact Hin.
Qed.

Lemma level_items_complete (sigma : Q) (boxes : list bbox) (labels gl : list Z)
    (lv : level_args) (i : nat) (b : bbox) :
  index_list labels (map fst (level_hits boxes lv)) = Some gl ->
  nth_error boxes i = Some b ->
  hit (fst (lv_range lv)) (snd (lv_range lv)) b = true ->
  exists it, In it (level_items sigma boxes labels lv)
             /\ item_id it = i /\ item_box it = b.
Proof.
  intros E Hb Hh. unfold level_items. rewrite E.
  apply index_list_combine in E. destruct E as (_ & _ & Hc).
  destruct (Hc i b) as [v Hv]; [apply level_hits_In; auto|].
  exists (pos_region sigma (lv_stride lv) (lv_featmap_size lv) b, v, i, b).
  split; [|split; reflexivity].
  unfold paint_items. apply in_map_iff. exists (v, (i, b)). auto.
Qed.

Lemma map_snd_combine {A B} (la : list A) (lb : list B) :
  length la = length lb -> map snd (combine la lb) = lb.
Proof.
  revert lb; induction la as [|a la IH]; intros [|b lb] H; simpl in *;
    try discriminate; auto.
  f_equal. apply IH. lia.
Qed.

Lemma level_items_hits (sigma : Q) (boxes : list bbox) (labels gl : list Z)
    (lv : level_args) :
  index_list labels (map fst (level_hits boxes lv)) = Some gl ->
  map (fun it => (item_id it, item_box it)) (level_items sigma boxes labels lv)
  = level_hits boxes lv.
Proof.
  intros E. unfold level_items. rewrite E.
  apply index_list_combine in E. destruct E as (Hl & _ & _).
  unfold paint_items. rewrite map_map.
  rewrite <- (map_snd_combine gl (level_hits boxes lv) Hl) at 2.
  apply map_ext. intros [v [i b]]. reflexivity.
Qed.

Lemma StronglySorted_map_inv {A B} (f : A -> B) (R : B -> B -> Prop) (l : list A) :
  StronglySorted R (map f l) -> StronglySorted (fun a b => R (f a) (f b)) l.
Proof.
  induction l as [|a l IH]; simpl; intros H; [constructor|].
  inversion H as [|? ? Hs Hf]; subst. constructor; auto.
  rewrite Forall_forall in *. intros x Hx. apply Hf. apply in_map; exact Hx.
Qed.

(** The tuples are painted in descending order of area. *)
Lemma level_items_sorted (sigma : Q) (boxes : list bbox) (labels : list Z)
    (lv : level_args) :
  StronglySorted
    (fun a b => (area_sq (item_box b) <= area_sq (item_box a))%Q)
    (level_items sigma boxes labels lv).
Proof.
  destruct (index_list labels (map fst (level_hits boxes lv))) as [gl|] eqn:E.
  - pose proof (level_items_hits sigma boxes labels gl lv E) as Hm.
    pose proof (sort_desc_sorted
                  (hit_indices (fst (lv_range lv)) (snd (lv_range lv)) boxes)) as Hs.
    fold (level_hits boxes lv) in Hs. rewrite <- Hm in Hs.
    apply StronglySorted_map_inv in Hs. exact Hs.
  - unfold level_items. rewrite E. constructor.
Qed.

(** Two tuples of a level with the same index are the same tuple. *)
Lemma level_items_inj (sigma : Q) (boxes : list bbox) (labels : list Z)
    (lv : level_args) (a b : paint_item) :
  In a (level_items sigma boxes labels lv) ->
  In b (level_items sigma boxes labels lv) ->
  item_id a = item_id b -> a = b.
Proof.
  intros Ha Hb E.
  destruct (level_items_In _ _ _ _ _ Ha) as (Ra & La & Ba & _).
  destruct (level_items_In _ _ _ _ _ Hb) as (Rb & Lb & Bb & _).
  rewrite E in La, Ba.
  assert (Ebox : item_box a = item_box b) by congruence.
  assert (Elab : item_label a = item_label b) by congruence.
  rewrite Ebox in Ra. rewrite <- Rb in Ra.
  destruct a as [[[ra la] ia] ba], b as [[[rb lb] ib] bb].
  unfold item_region, item_label, item_id, item_box in *; simpl in *.
  congruence.
Qed.

Section Level.

Variables (sigma : Q) (boxes : list bbox) (labels : list Z) (off : Z).
Variable uninit : nat -> nat -> nat -> Q.
Variable lv : level_args.

Let fs := lv_featmap_size lv.
Let items := level_items sigma boxes labels lv.

(** The label and instance-id grids of a level. *)
Lemma target_level_cells (L : tensor2 Z) (B : tensor3 R) (G : tensor2 Z) :
  target_level sigma boxes labels off uninit lv = Some (L, B, G) ->
  shape2 L = fs /\ shape2 G = fs /\
  forall r c,
    at2 L r c = match last_painter fs items r c with
                | Some it => item_label it
                | None => 0
                end
    /\ at2 G r c = match last_painter fs items r c with
                   | Some it => Z.of_nat (item_id it) + off
                   | None => -1
                   end.
Proof.
  unfold target_level, items, level_items. fold fs.
  destruct (lv_points lv) as [y x].
  destruct (Nat.eqb _ 0) eqn:E.
  - apply Nat.eqb_eq in E. rewrite (level_hits_nil _ _ E). simpl.
    intros H; inversion H; subst; simpl. auto.
  - fold (level_hits boxes lv). intros H. inv_bind H.
    rewrite E0. inversion H; subst; clear H.
    pose proof (fold_paint (lv_stride lv) (lv_base_len lv) y x off fs
                  (paint_items sigma (lv_stride lv) fs a (level_hits boxes lv))
                  (mk_grids (mk_tensor2 fs (fun _ _ => 0))
                            (mk_tensor3 (fst fs, snd fs, 4%nat)
                                        (fun r c k => (uninit r c k + 1)%Q))
                            (mk_tensor2 fs (fun _ _ => 0 - 1)))) as Hf.
    simpl in Hf. destruct Hf as [(Hl & _ & Hi) Hc]; [repeat split|].
    split; [exact Hl|]. split; [exact Hi|].
    intros r c. destruct (Hc r c) as (H1 & H2 & _). simpl in *.
    rewrite H1, H2. split; reflexivity.
Qed.

(** The regression grid of a level that selects at least one box. *)
Lemma target_level_bbox (L : tensor2 Z) (B : tensor3 R) (G : tensor2 Z) :
  target_level sigma boxes labels off uninit lv = Some (L, B, G) ->
  level_hits boxes lv <> [] ->
  forall r c k, (k < 4)%nat ->
    at3 B r c k =
    torch_log
      (clampQ match last_painter fs items r c with
              | Some it => side_dist (lv_stride lv) (lv_base_len lv)
                             (fst (lv_points lv)) (snd (lv_points lv))
                             (item_box it) r c k
              | None => (uninit r c k + 1)%Q
              end sixteenth 16).
Proof.
  unfold target_level, items, level_items. fold fs.
  destruct (lv_points lv) as [y x].
  destruct (Nat.eqb _ 0) eqn:E.
  - apply Nat.eqb_eq in E. rewrite (level_hits_nil _ _ E). congruence.
  - fold (level_hits boxes lv). intros H _. inv_bind H.
    rewrite E0. inversion H; subst; clear H.
    pose proof (fold_paint (lv_stride lv) (lv_base_len lv) y x off fs
                  (paint_items sigma (lv_stride lv) fs a (level_hits boxes lv))
                  (mk_grids (mk_tensor2 fs (fun _ _ => 0))
                            (mk_tensor3 (fst fs, snd fs, 4%nat)
                                        (fun r c k => (uninit r c k + 1)%Q))
                            (mk_tensor2 fs (fun _ _ => 0 - 1)))) as Hf.
    simpl in Hf. destruct Hf as [_ Hc]; [repeat split|].
    intros r c k Hk. destruct (Hc r c) as (_ & _ & H3). simpl in *.
    rewrite (H3 k Hk). reflexivity.
Qed.

(** The regression grid of a level that selects no box: the logarithm of
    the fresh buffer plus one, not clamped. *)
Lemma target_level_bbox_empty (L : tensor2 Z) (B : tensor3 R) (G : tensor2 Z) :
  target_level sigma boxes labels off uninit lv = Some (L, B, G) ->
  level_hits boxes lv = [] ->
  forall r c k, at3 B r c k = torch_log (uninit r c k + 1).
Proof.
  unfold target_level. fold fs.
  destruct (lv_points lv) as [y x].
  destruct (Nat.eqb _ 0) eqn:E.
  - intros H _. inversion H; subst. reflexivity.
  - intros _ Hn. exfalso. apply Nat.eqb_neq in E. apply E.
    unfold level_hits in Hn.
    pose proof (Permutation_length
                  (sort_desc_perm (hit_indices (fst (lv_range lv))
                                               (snd (lv_range lv)) boxes))) as Hp.
    rewrite Hn in Hp. simpl in Hp. congruence.
Qed.

End Level.

(** ** All levels of one image, all images of a batch *)

Lemma nth_error_combine_seq {A} (l : list A) (s i j : nat) (a : A) :
  nth_error (combine (seq s (length l)) l) i = Some (j, a) ->
  j = (s + i)%nat /\ nth_error l i = Some a.
Proof.
  revert s i; induction l as [|b l IH]; intros s [|i]; simpl; try discriminate.
  - intros H; inversion H; subst. split; [lia | reflexivity].
  - intros H. apply IH in H. destruct H; split; [lia | assumption].
Qed.

Lemma ppdet_target_single_nth (self : PPDetHead) (boxes : list bbox)
    (labels : list Z) (off : Z) (sizes : list (nat * nat))
    (points : list (tensor2 Q * tensor2 Q)) (mem : nat -> nat -> nat -> nat -> Q)
    (LL : list (tensor2 Z)) (BL : list (tensor3 R)) (GL : list (tensor2 Z))
    (l : nat) :
  ppdet_target_single self boxes labels off sizes points mem = Some (LL, BL, GL) ->
  forall L B G,
    nth_error LL l = Some L -> nth_error BL l = Some B -> nth_error GL l = Some G ->
    exists lv, nth_error (levels_of self sizes points) l = Some lv
               /\ target_level (sigma self) boxes labels off (mem l) lv
                  = Some (L, B, G).
Proof.
  unfold ppdet_target_single. fold (levels_of self sizes points).
  intros H L B G HL HB HG. inv_bind H. inversion H; subst; clear H.
  rewrite nth_error_map in HL, HB, HG.
  destruct (nth_error a l) as [[[L' B'] G']|] eqn:En; [|discriminate].
  simpl in HL, HB, HG. inversion HL; inversion HB; inversion HG; subst.
  destruct (mapM_nth_error _ _ _ _ _ E En) as [[j lv] [Hn Ht]].
  apply nth_error_combine_seq in Hn. destruct Hn as [Hj Hn].
  simpl in Hj; subst j. exists lv. split; assumption.
Qed.

Lemma label_sizes_nonneg (temp : Z) (gt_label_list : list (list Z)) :
  0 <= temp -> Forall (fun s => 0 <= s) (label_sizes temp gt_label_list).
Proof.
  revert temp; induction gt_label_list as [|x rest IH]; intros temp H; simpl.
  - constructor.
  - constructor; [exact H|]. apply IH. lia.
Qed.

Lemma zip3_nth_error {A B C} (la : list A) (lb : list B) (lc : list C)
    (i : nat) (a : A) (b : B) (c : C) :
  nth_error (zip3 la lb lc) i = Some (a, b, c) ->
  nth_error la i = Some a /\ nth_error lb i = Some b /\ nth_error lc i = Some c.
Proof.
  revert lb lc i; induction la as [|a' la IH]; intros [|b' lb] [|c' lc] [|i];
    simpl; try discriminate.
  - intros H; inversion H; subst; auto.
  - apply IH.
Qed.

Lemma multi_apply_targets_nth (self : PPDetHead)
    (gt_bbox_list : list (list bbox)) (gt_label_list : list (list Z))
    (sizes : list (nat * nat)) (points : list (tensor2 Q * tensor2 Q))
    (mem : nat -> nat -> nat -> nat -> nat -> Q)
    (label_list : list (list (tensor2 Z)))
    (bbox_target_list : list (list (tensor3 R)))
    (gt_ids_list : list (list (tensor2 Z))) (img : nat) :
  multi_apply_targets self gt_bbox_list gt_label_list sizes points mem
  = Some (label_list, bbox_target_list, gt_ids_list) ->
  forall LL BL GL,
    nth_error label_list img = Some LL ->
    nth_error bbox_target_list img = Some BL ->
    nth_error gt_ids_list img = Some GL ->
    exists boxes labels off,
      nth_error gt_bbox_list img = Some boxes
      /\ nth_error gt_label_list img = Some labels
      /\ nth_error (label_sizes 0 gt_label_list) img = Some off
      /\ ppdet_target_single self boxes labels off sizes points (mem img)
         = Some (LL, BL, GL).
Proof.
  unfold multi_apply_targets. intros H LL BL GL HL HB HG.
  inv_bind H. inversion H; subst; clear H.
  rewrite nth_error_map in HL, HB, HG.
  destruct (nth_error a img) as [[[L' B'] G']|] eqn:En; [|discriminate].
  simpl in HL, HB, HG. inversion HL; inversion HB; inversion HG; subst.
  destruct (mapM_nth_error _ _ _ _ _ E En) as [[j [[boxes labels] off]] [Hn Ht]].
  apply nth_error_combine_seq in Hn. destruct Hn as [Hj Hn].
  simpl in Hj; subst j. simpl in Ht.
  apply zip3_nth_error in Hn. destruct Hn as (H1 & H2 & H3).
  exists boxes, labels, off. auto.
Qed.

(** ** The instance invariant *)

Lemma target_level_invariant (sigma : Q) (boxes : list bbox) (labels : list Z)
    (off : Z) (uninit : nat -> nat -> nat -> Q) (lv : level_args)
    (L : tensor2 Z) (B : tensor3 R) (G : tensor2 Z) :
  (forall lab, In lab labels -> 1 <= lab) -> 0 <= off ->
  target_level sigma boxes labels off uninit lv = Some (L, B, G) ->
  forall r c, at2 L r c = 0 <-> at2 G r c = -1.
Proof.
  intros Hlab Hoff H r c.
  destruct (target_level_cells _ _ _ _ _ _ _ _ _ H) as (_ & _ & Hc).
  destruct (Hc r c) as [Hl Hg]. rewrite Hl, Hg.
  destruct (last_painter _ _ r c) as [it|] eqn:E; [|tauto].
  apply find_some in E. destruct E as [Hin _]. apply in_rev in Hin.
  apply level_items_In in Hin. destruct Hin as (_ & Hn & _).
  apply nth_error_In in Hn. apply Hlab in Hn. lia.
Qed.

(** C6.  In every grid triple that the target builder produces for any
    image of a batch and any level, when all ground-truth labels are
    foreground class ids (at least 1), a cell has label 0 exactly when its
    instance id is -1. *)
Theorem instance_invariant (self : PPDetHead)
    (gt_bbox_list : list (list bbox)) (gt_label_list : list (list Z))
    (sizes : list (nat * nat)) (points : list (tensor2 Q * tensor2 Q))
    (mem : nat -> nat -> nat -> nat -> nat -> Q)
    (label_list : list (list (tensor2 Z)))
    (bbox_target_list : list (list (tensor3 R)))
    (gt_ids_list : list (list (tensor2 Z))) :
  (forall labels lab, In labels gt_label_list -> In lab labels -> 1 <= lab) ->
  multi_apply_targets self gt_bbox_list gt_label_list sizes points mem
  = Some (label_list, bbox_target_list, gt_ids_list) ->
  forall img lvl LL BL GL L B G,
    nth_error label_list img = Some LL ->
    nth_error bbox_target_list img = Some BL ->
    nth_error gt_ids_list img = Some GL ->
    nth_error LL lvl = Some L ->
    nth_error BL lvl = Some B ->
    nth_error GL lvl = Some G ->
    forall y x, at2 L y x = 0 <-> at2 G y x = -1.
Proof.
  intros Hlab H img lvl LL BL GL L B G HLL HBL HGL HL HB HG.
  destruct (multi_apply_targets_nth _ _ _ _ _ _ _ _ _ img H LL BL GL HLL HBL HGL)
    as (boxes & labels & off & _ & Hl & Ho & Hs).
  destruct (ppdet_target_single_nth _ _ _ _ _ _ _ _ _ _ lvl Hs L B G HL HB HG)
    as (lv & _ & Ht).
  eapply target_level_invariant; [| |exact Ht].
  - intros lab Hin. eapply Hlab; [|exact Hin]. eapply nth_error_In; exact Hl.
  - pose proof (label_sizes_nonneg 0 gt_label_list (Z.le_refl 0)) as Hf.
    rewrite Forall_forall in Hf. apply Hf. eapply nth_error_In; exact Ho.
Qed.

(** ** The positive region *)

Lemma Qinv_2 : (/ 2 == half)%Q.
Proof. reflexivity. Qed.

Ltac region_eq :=
  unfold Qdiv; rewrite ?Qinv_2; unfold half; ring.

Ltac bound_eq :=
  match goal with
  | |- clampZ (?f ?a) _ _ = clampZ (?f ?b) _ _ =>
      let H := fresh in
      assert (H : (a == b)%Q) by region_eq;
      (rewrite (Qceiling_comp _ _ H) || rewrite (Qfloor_comp _ _ H));
      reflexivity
  end.

(** C1, amended.  The bounds of the positive region of a box are
    [ceil(x1 + (1 - sigma) * half_w - 0.5)] and
    [floor(x1 + (1 + sigma) * half_w - 0.5)] with [x1] the left edge of the
    box in stride units, and likewise from the top edge [y1] vertically,
    each clamped into [0, dim - 1]; measured from the centre they are
    [ceil(x_center - sigma * half_w - 0.5)] and
    [floor(x_center + sigma * half_w - 0.5)]. *)
Theorem pos_region_bounds (sigma : Q) (stride : Z) (featmap_size : nat * nat)
    (b : bbox) :
  pos_region sigma stride featmap_size b = edge_region sigma stride featmap_size b
  /\ pos_region sigma stride featmap_size b
     = shrunk_region sigma stride featmap_size b.
Proof.
  unfold pos_region, edge_region, shrunk_region. split.
  - f_equal; [f_equal; [f_equal|]|]; bound_eq.
  - f_equal; [f_equal; [f_equal|]|]; bound_eq.
Qed.

(** C1, as claimed, fails: the box [(0, 0, 16, 16)] is selected by the level
    of stride 4; on an 8 x 8 feature map the code paints columns and rows 1
    to 2, while the formulas from the box centre give 3 to 4.  In the grids
    the cell (1, 1) carries the box and the cell (4, 4) is background. *)
Lemma center_region_differs :
  hit 8 32 box16 = true
  /\ pos_region (sigma head2) 4 (8%nat, 8%nat) box16 = (1, 1, 2, 2)
  /\ center_region (sigma head2) 4 (8%nat, 8%nat) box16 = (3, 3, 4, 4)
  /\ pos_region (sigma head2) 4 (8%nat, 8%nat) box16
     <> center_region (sigma head2) 4 (8%nat, 8%nat) box16
  /\ cell_of (ppdet_target_single head2 [box16] [1] 0 sizes2 (get_points sizes2)
                zero_mem) 0 1 1 = Some (1, 0)
  /\ cell_of (ppdet_target_single head2 [box16] [1] 0 sizes2 (get_points sizes2)
                zero_mem) 0 4 4 = Some (0, -1).
Proof.
  repeat split; try (vm_compute; reflexivity). vm_compute. discriminate.
Qed.

(** ** Selection by area score *)

Lemma Q2R_0 : Q2R 0 = 0%R.
Proof. unfold Q2R; simpl; lra. Qed.

Lemma Qle_bool_false (a b : Q) : Qle_bool a b = false -> (b < a)%Q.
Proof.
  intros H. apply Qnot_le_lt. intros Hle.
  apply Qle_bool_iff in Hle. congruence.
Qed.

(** The selection decided on the radicand is the comparison of the square
    root with the bounds of the scale range, both ends included. *)
Lemma hit_spec (lo hi : Q) (b : bbox) :
  hit lo hi b = true <->
  (0 <= area_sq b)%Q /\ (Q2R lo <= gt_area b <= Q2R hi)%R.
Proof.
  unfold hit, sqrt_geb, sqrt_leb, gt_area.
  rewrite !andb_true_iff, orb_true_iff, !Qle_bool_iff.
  set (a := area_sq b). split.
  - intros [[Ha Hlo] [Hhi0 Hhi]]. split; [exact Ha|].
    apply Qle_Rle in Ha, Hhi0, Hhi. rewrite Q2R_0 in Ha, Hhi0.
    rewrite Q2R_mult in Hhi. split.
    + destruct Hlo as [Hlo | Hlo]; apply Qle_Rle in Hlo.
      * rewrite Q2R_0 in Hlo. pose proof (sqrt_pos (Q2R a)). lra.
      * rewrite Q2R_mult in Hlo.
        destruct (Rle_lt_dec (Q2R lo) 0) as [Hn | Hp].
        -- pose proof (sqrt_pos (Q2R a)). lra.
        -- rewrite <- (sqrt_square (Q2R lo)) by lra.
           apply sqrt_le_1_alt. exact Hlo.
    + rewrite <- (sqrt_square (Q2R hi)) by lra.
      apply sqrt_le_1_alt. exact Hhi.
  - intros [Ha [Hlo Hhi]]. pose proof (Qle_Rle _ _ Ha) as Ha'.
    rewrite Q2R_0 in Ha'.
    pose proof (sqrt_pos (Q2R a)) as Hs.
    pose proof (sqrt_sqrt (Q2R a) Ha') as Hq.
    split; [split; [exact Ha|] | split].
    + destruct (Qlt_le_dec 0 lo) as [Hp | Hn]; [right | left; exact Hn].
      apply Rle_Qle. rewrite Q2R_mult.
      apply Qlt_Rlt in Hp. rewrite Q2R_0 in Hp. nra.
    + apply Rle_Qle. rewrite Q2R_0. lra.
    + apply Rle_Qle. rewrite Q2R_mult. nra.
Qed.

Lemma gt_area_lt (a b : bbox) :
  (gt_area a < gt_area b)%R -> (area_sq a < area_sq b)%Q.
Proof.
  unfold gt_area. intros H. apply sqrt_lt_0_alt in H.
  apply Rlt_Qlt; exact H.
Qed.

(** ** Overwrite order *)

Lemma target_level_index (sigma : Q) (boxes : list bbox) (labels : list Z)
    (off : Z) (uninit : nat -> nat -> nat -> Q) (lv : level_args)
    (out : tensor2 Z * tensor3 R * tensor2 Z) :
  target_level sigma boxes labels off uninit lv = Some out ->
  exists gl, index_list labels (map fst (level_hits boxes lv)) = Some gl.
Proof.
  unfold target_level. destruct (lv_points lv) as [y x].
  destruct (Nat.eqb _ 0) eqn:E.
  - apply Nat.eqb_eq in E. rewrite (level_hits_nil _ _ E).
    intros _. exists []. reflexivity.
  - fold (level_hits boxes lv). intros H. inv_bind H. eauto.
Qed.

(** Among the selected boxes whose region holds a cell, a box strictly
    smaller than all the others is the one that the cell ends up with. *)
Lemma smallest_cover_wins (sigma : Q) (boxes : list bbox) (labels : list Z)
    (off : Z) (uninit : nat -> nat -> nat -> Q) (lv : level_args)
    (L : tensor2 Z) (B : tensor3 R) (G : tensor2 Z) (j : nat) (bj : bbox)
    (r c : nat) :
  target_level sigma boxes labels off uninit lv = Some (L, B, G) ->
  nth_error boxes j = Some bj ->
  hit (fst (lv_range lv)) (snd (lv_range lv)) bj = true ->
  covers (pos_region sigma (lv_stride lv) (lv_featmap_size lv) bj) r c = true ->
  (forall k bk, k <> j -> nth_error boxes k = Some bk ->
     hit (fst (lv_range lv)) (snd (lv_range lv)) bk = true ->
     covers (pos_region sigma (lv_stride lv) (lv_featmap_size lv) bk) r c = true ->
     (area_sq bj < area_sq bk)%Q) ->
  exists it, last_painter (lv_featmap_size lv)
               (level_items sigma boxes labels lv) r c = Some it
             /\ item_id it = j /\ item_box it = bj
             /\ nth_error labels j = Some (item_label it).
Proof.
  intros Ht Hj Hh Hc Hothers.
  destruct (target_level_index _ _ _ _ _ _ _ Ht) as [gl Hgl].
  destruct (level_items_complete sigma _ _ _ _ _ _ Hgl Hj Hh)
    as (itj & Hin & Hid & Hbox).
  destruct (level_items_In _ _ _ _ _ Hin) as (Hreg & Hlab & _ & _).
  assert (Hp : painted (lv_featmap_size lv) itj r c = true).
  { rewrite (painted_covers sigma (lv_stride lv)) by exact Hreg.
    rewrite Hreg, Hbox. exact Hc. }
  destruct (find_rev_exists (fun it => painted (lv_featmap_size lv) it r c)
              _ _ Hin Hp) as [k Hk].
  assert (E : itj = k).
  { destruct (find_last_sorted _ _ _ _ _
                (level_items_sorted sigma boxes labels lv) Hk Hin Hp)
      as [E | Hle]; [exact E|].
    apply find_some in Hk. destruct Hk as [Hkin Hkp].
    apply in_rev in Hkin.
    destruct (Nat.eq_dec (item_id k) j) as [Ej | Nj].
    - symmetry. apply (level_items_inj sigma boxes labels lv); congruence.
    - exfalso.
      destruct (level_items_In _ _ _ _ _ Hkin) as (Hkr & _ & Hkb & Hkh).
      rewrite (painted_covers sigma (lv_stride lv)) in Hkp by exact Hkr.
      rewrite Hkr in Hkp.
      pose proof (Hothers _ _ Nj Hkb Hkh Hkp) as Hlt.
      rewrite Hbox in Hle. apply (Qlt_not_le _ _ Hlt). exact Hle. }
  subst k. exists itj. split; [exact Hk|]. split; [exact Hid|].
  split; [exact Hbox|]. rewrite <- Hid. exact Hlab.
Qed.

(** C3, amended.  For two boxes of different area score selected by the
    same level, every cell in the intersection of their positive regions
    holds the class label and the instance id of the smaller one, provided
    every further selected box whose region holds the cell is larger than
    that smaller box. *)
Theorem smaller_box_wins (self : PPDetHead) (boxes : list bbox)
    (labels : list Z) (off : Z) (sizes : list (nat * nat))
    (points : list (tensor2 Q * tensor2 Q)) (mem : nat -> nat -> nat -> nat -> Q)
    (LL : list (tensor2 Z)) (BL : list (tensor3 R)) (GL : list (tensor2 Z))
    (lvl : nat) (lv : level_args) (L : tensor2 Z) (B : tensor3 R) (G : tensor2 Z)
    (i j : nat) (bi bj : bbox) (r c : nat) :
  ppdet_target_single self boxes labels off sizes points mem = Some (LL, BL, GL) ->
  nth_error (levels_of self sizes points) lvl = Some lv ->
  nth_error LL lvl = Some L -> nth_error BL lvl = Some B ->
  nth_error GL lvl = Some G ->
  nth_error boxes i = Some bi -> nth_error boxes j = Some bj ->
  hit (fst (lv_range lv)) (snd (lv_range lv)) bi = true ->
  hit (fst (lv_range lv)) (snd (lv_range lv)) bj = true ->
  (gt_area bj < gt_area bi)%R ->
  covers (pos_region (sigma self) (lv_stride lv) (lv_featmap_size lv) bi) r c = true ->
  covers (pos_region (sigma self) (lv_stride lv) (lv_featmap_size lv) bj) r c = true ->
  (forall k bk, k <> i -> k <> j -> nth_error boxes k = Some bk ->
     hit (fst (lv_range lv)) (snd (lv_range lv)) bk = true ->
     covers (pos_region (sigma self) (lv_stride lv) (lv_featmap_size lv) bk) r c = true ->
     (gt_area bj < gt_area bk)%R) ->
  exists lab, nth_error labels j = Some lab
              /\ at2 L r c = lab /\ at2 G r c = Z.of_nat j + off.
Proof.
  intros Hs Hlv HL HB HG Hi Hj Hhi Hhj Hlt Hci Hcj Hthird.
  destruct (ppdet_target_single_nth _ _ _ _ _ _ _ _ _ _ lvl Hs L B G HL HB HG)
    as (lv' & Hlv' & Ht).
  assert (lv' = lv) by congruence. subst lv'.
  destruct (smallest_cover_wins _ _ _ _ _ _ _ _ _ j bj r c Ht Hj Hhj Hcj)
    as (it & Hlast & Hid & _ & Hlab).
  { intros k bk Nk Hk Hhk Hck. apply gt_area_lt.
    destruct (Nat.eq_dec k i) as [Ei | Ni].
    - subst k. assert (bk = bi) by congruence. subst bk. exact Hlt.
    - eapply Hthird; eauto. }
  destruct (target_level_cells _ _ _ _ _ _ _ _ _ Ht) as (_ & _ & Hc).
  destruct (Hc r c) as [H1 H2]. rewrite Hlast in H1, H2.
  exists (item_label it). rewrite H1, H2, Hid. auto.
Qed.

(** ** A small batch *)

Lemma is_some_true {A} (o : option A) : is_some o = true -> exists a, o = Some a.
Proof. destruct o; [eauto | discriminate]. Qed.

Ltac Qcmp := vm_compute; (reflexivity || discriminate).

Lemma gt_area_lt_intro (a b : bbox) :
  (0 <= area_sq a)%Q -> (area_sq a < area_sq b)%Q -> (gt_area a < gt_area b)%R.
Proof.
  intros H0 Hlt. unfold gt_area. apply sqrt_lt_1_alt. split.
  - rewrite <- Q2R_0. apply Qle_Rle; exact H0.
  - apply Qlt_Rlt; exact Hlt.
Qed.

(** C3, as claimed, fails.  The level of stride 4 selects the three boxes
    [box24], [box20] and [box16]; the cell (2, 2) lies in the positive
    regions of all of them.  For the pair [box24], [box20] the claim gives
    the cell to [box20] (label 2, instance id 1), but [box16], painted last,
    leaves label 3 and instance id 2 there. *)
Lemma third_box_overwrites :
  hit 8 32 box24 = true /\ hit 8 32 box20 = true /\ hit 8 32 box16 = true
  /\ (gt_area box20 < gt_area box24)%R
  /\ covers (pos_region (sigma head2) 4 (8, 8)%nat box24) 2 2 = true
  /\ covers (pos_region (sigma head2) 4 (8, 8)%nat box20) 2 2 = true
  /\ nth_error [1; 2; 3] 1 = Some 2
  /\ cell_of (ppdet_target_single head2 [box24; box20; box16] [1; 2; 3] 0
                sizes2 (get_points sizes2) zero_mem) 0 2 2
     = Some (3, 2)
  /\ (3, 2) <> (2, Z.of_nat 1 + 0).
Proof.
  repeat split; try (vm_compute; reflexivity); try discriminate.
  apply gt_area_lt_intro; Qcmp.
Qed.

Lemma ppdet_target_single_level (self : PPDetHead) (boxes : list bbox)
    (labels : list Z) (off : Z) (sizes : list (nat * nat))
    (points : list (tensor2 Q * tensor2 Q)) (mem : nat -> nat -> nat -> nat -> Q)
    (LL : list (tensor2 Z)) (BL : list (tensor3 R)) (GL : list (tensor2 Z))
    (l : nat) (lv : level_args) :
  ppdet_target_single self boxes labels off sizes points mem = Some (LL, BL, GL) ->
  nth_error (levels_of self sizes points) l = Some lv ->
  exists L B G, nth_error LL l = Some L /\ nth_error BL l = Some B
                /\ nth_error GL l = Some G.
Proof.
  unfold ppdet_target_single. fold (levels_of self sizes points).
  intros H Hl. inv_bind H. inversion H; subst; clear H.
  apply mapM_length in E. rewrite length_combine, length_seq, Nat.min_id in E.
  assert (Hlt : (l < length a)%nat).
  { rewrite E. apply nth_error_Some. congruence. }
  apply nth_error_Some in Hlt.
  destruct (nth_error a l) as [[[L B] G]|] eqn:En; [|congruence].
  exists L, B, G. rewrite !nth_error_map, En. auto.
Qed.

(** Two boxes on the first level of [head2]: the cell (2, 2) lies in both
    regions and ends up with the smaller one. *)
Lemma smaller_box_wins_witness :
  exists LL BL GL L B G,
    ppdet_target_single head2 [box24; box16] [1; 2] 0 sizes2 (get_points sizes2)
                        zero_mem = Some (LL, BL, GL)
    /\ nth_error LL 0 = Some L /\ nth_error BL 0 = Some B
    /\ nth_error GL 0 = Some G
    /\ exists lab, nth_error [1; 2] 1 = Some lab
                   /\ at2 L 2 2 = lab /\ at2 G 2 2 = Z.of_nat 1 + 0.
Proof.
  destruct (is_some_true
              (ppdet_target_single head2 [box24; box16] [1; 2] 0 sizes2
                 (get_points sizes2) zero_mem))
    as [[[LL BL] GL] E]; [vm_compute; reflexivity|].
  destruct (ppdet_target_single_level _ _ _ _ _ _ _ _ _ _ 0%nat level0 E)
    as (L & B & G & EL & EB & EG); [reflexivity|].
  exists LL, BL, GL, L, B, G.
  split; [exact E|]. split; [exact EL|]. split; [exact EB|]. split; [exact EG|].
  apply (smaller_box_wins head2 [box24; box16] [1; 2] 0 sizes2
           (get_points sizes2) zero_mem LL BL GL 0%nat level0 L B G
           0%nat 1%nat box24 box16 2%nat 2%nat E);
    try reflexivity; try assumption.
  - apply gt_area_lt_intro; Qcmp.
  - intros [|[|k]] bk H0 H1 Hk; try congruence.
    destruct k; discriminate.
Defined.

(** The invariant on a batch of one image with two boxes. *)
Lemma instance_invariant_witness :
  exists label_list bbox_target_list gt_ids_list,
    multi_apply_targets head2 [[box24; box16]] [[1; 2]] sizes2
                        (get_points sizes2) (fun _ => zero_mem)
    = Some (label_list, bbox_target_list, gt_ids_list)
    /\ forall img lvl LL BL GL L B G,
        nth_error label_list img = Some LL ->
        nth_error bbox_target_list img = Some BL ->
        nth_error gt_ids_list img = Some GL ->
        nth_error LL lvl = Some L ->
        nth_error BL lvl = Some B ->
        nth_error GL lvl = Some G ->
        forall y x, at2 L y x = 0 <-> at2 G y x = -1.
Proof.
  destruct (is_some_true
              (multi_apply_targets head2 [[box24; box16]] [[1; 2]] sizes2
                 (get_points sizes2) (fun _ => zero_mem)))
    as [[[ll bl] gl] E]; [vm_compute; reflexivity|].
  exists ll, bl, gl. split; [exact E|].
  apply (instance_invariant head2 [[box24; box16]] [[1; 2]] sizes2
           (get_points sizes2) (fun _ => zero_mem) ll bl gl); [|exact E].
  intros labels lab [<- | []] [<- | [<- | []]]; lia.
Defined.

(** ** Regression targets *)

Lemma levels_of_points (self : PPDetHead) (sizes : list (nat * nat)) (l : nat)
    (lv : level_args) :
  nth_error (levels_of self sizes (get_points sizes)) l = Some lv ->
  lv_points lv =
  (mk_tensor2 (lv_featmap_size lv) (fun r _ => inject_Z (Z.of_nat r) + half)%Q,
   mk_tensor2 (lv_featmap_size lv) (fun _ c => inject_Z (Z.of_nat c) + half)%Q).
Proof.
  unfold levels_of.
  generalize (base_edge_list self) (scale_ranges self) (strides self).
  revert l. induction sizes as [|f sizes IH]; intros l bs rs ss.
  - destruct bs, rs, ss; simpl; destruct l; discriminate.
  - destruct bs as [|b bs], rs as [|r rs], ss as [|s ss]; simpl;
      try (destruct l; discriminate).
    destruct l as [|l]; simpl.
    + intros H; inversion H; subst. reflexivity.
    + apply IH.
Qed.

Lemma clampQ_pos (v lo hi : Q) : (0 < lo)%Q -> (0 < hi)%Q -> (0 < clampQ v lo hi)%Q.
Proof.
  intros Hlo Hhi. unfold clampQ, Qmin', Qmax'.
  destruct (Qle_bool v lo) eqn:E1.
  - destruct (Qle_bool lo hi); assumption.
  - apply Qle_bool_false in E1.
    destruct (Qle_bool v hi); [|assumption].
    apply (Qlt_trans _ lo); assumption.
Qed.

Lemma exp_torch_log_clamp (v : Q) :
  exp (torch_log (clampQ v sixteenth 16)) = Q2R (clampQ v sixteenth 16).
Proof.
  unfold torch_log. apply exp_ln.
  rewrite <- Q2R_0. apply Qlt_Rlt. apply clampQ_pos; reflexivity.
Qed.

(** The round trip on painted cells: the exponential of a stored target is
    the clamped side distance from the box that the cell ends up with. *)
Lemma painted_target_roundtrip (self : PPDetHead) (boxes : list bbox)
    (labels : list Z) (off : Z) (sizes : list (nat * nat))
    (mem : nat -> nat -> nat -> nat -> Q)
    (LL : list (tensor2 Z)) (BL : list (tensor3 R)) (GL : list (tensor2 Z))
    (lvl : nat) (lv : level_args) (L : tensor2 Z) (B : tensor3 R) (G : tensor2 Z)
    (y x : nat) (it : paint_item) :
  ppdet_target_single self boxes labels off sizes (get_points sizes) mem
  = Some (LL, BL, GL) ->
  nth_error (levels_of self sizes (get_points sizes)) lvl = Some lv ->
  nth_error LL lvl = Some L -> nth_error BL lvl = Some B ->
  nth_error GL lvl = Some G ->
  last_painter (lv_featmap_size lv) (level_items (sigma self) boxes labels lv) y x
  = Some it ->
  at2 G y x = Z.of_nat (item_id it) + off
  /\ nth_error boxes (item_id it) = Some (item_box it)
  /\ forall k, (k < 4)%nat ->
       exp (at3 B y x k)
       = Q2R (clampQ (spec_dist (lv_stride lv) (lv_base_len lv) (item_box it) y x k)
                     sixteenth 16).
Proof.
  intros Hs Hlv HL HB HG Hlast.
  destruct (ppdet_target_single_nth _ _ _ _ _ _ _ _ _ _ lvl Hs L B G HL HB HG)
    as (lv' & Hlv' & Ht).
  assert (lv' = lv) by congruence. subst lv'.
  destruct (target_level_cells _ _ _ _ _ _ _ _ _ Ht) as (_ & _ & Hc).
  destruct (Hc y x) as [_ Hid]. rewrite Hlast in Hid.
  pose proof Hlast as Hin. apply find_some in Hin. destruct Hin as [Hin _].
  apply in_rev in Hin.
  destruct (level_items_In _ _ _ _ _ Hin) as (_ & _ & Hbox & _).
  split; [exact Hid|]. split; [exact Hbox|].
  intros k Hk.
  assert (Hne : level_hits boxes lv <> []).
  { intros Hnil. unfold level_items in Hin. rewrite Hnil in Hin.
    simpl in Hin. exact Hin. }
  rewrite (target_level_bbox _ _ _ _ _ _ _ _ _ Ht Hne y x k Hk), Hlast.
  rewrite exp_torch_log_clamp.
  rewrite (levels_of_points _ _ _ _ Hlv). simpl.
  destruct k as [|[|[|[|k]]]]; reflexivity.
Qed.

(** C5 on the code.  With the single box [box16], selected by the level of
    stride 4 and painted on the cells (1..2, 1..2), the cell (0, 0) is covered
    by no box: its label is 0 and its instance id -1.  When the buffer
    returned by [gt_bboxes_raw.new(H, W, 4)] holds 3, the stored target of
    that cell exponentiates to 4 in every channel, not to 1. *)
Theorem unpainted_target_reads_buffer :
  exists LL BL GL B,
    ppdet_target_single head2 [box16] [1] 0 sizes2 (get_points sizes2) stale_mem
    = Some (LL, BL, GL)
    /\ nth_error BL 0 = Some B
    /\ cell_of (Some (LL, BL, GL)) 0 0 0 = Some (0, -1)
    /\ forall k, (k < 4)%nat -> exp (at3 B 0 0 k) = 4%R /\ exp (at3 B 0 0 k) <> 1%R.
Proof.
  destruct (is_some_true
              (ppdet_target_single head2 [box16] [1] 0 sizes2 (get_points sizes2)
                 stale_mem))
    as [[[LL BL] GL] E]; [vm_compute; reflexivity|].
  destruct (ppdet_target_single_level _ _ _ _ _ _ _ _ _ _ 0%nat level0 E)
    as (L & B & G & EL & EB & EG); [reflexivity|].
  destruct (ppdet_target_single_nth _ _ _ _ _ _ _ _ _ _ 0%nat E L B G EL EB EG)
    as (lv & Hlv & Ht).
  assert (Hl0 : nth_error (levels_of head2 sizes2 (get_points sizes2)) 0
                = Some level0) by reflexivity.
  assert (lv = level0) by congruence. subst lv.
  exists LL, BL, GL, B. split; [exact E|]. split; [exact EB|]. split.
  - rewrite <- E. vm_compute. reflexivity.
  - intros k Hk.
    assert (Hne : level_hits [box16] level0 <> []) by (vm_compute; discriminate).
    rewrite (target_level_bbox _ _ _ _ _ _ _ _ _ Ht Hne 0%nat 0%nat k Hk).
    replace (last_painter (lv_featmap_size level0)
               (level_items (sigma head2) [box16] [1] level0) 0 0)
      with (@None paint_item) by (vm_compute; reflexivity).
    rewrite exp_torch_log_clamp.
    replace (clampQ (stale_mem 0%nat 0%nat 0%nat k + 1) sixteenth 16) with (4 # 1)%Q
      by (vm_compute; reflexivity).
    unfold Q2R; simpl. split; lra.
Qed.

(** ** The classification sample set *)

Lemma nonzero_from_In {A} (cond : A -> bool) (l : list A) (s j : nat) :
  In j (nonzero_from cond s l) <->
  (s <= j)%nat /\ exists a, nth_error l (j - s) = Some a /\ cond a = true.
Proof.
  revert s; induction l as [|a l IH]; intros s; simpl.
  - split; [tauto|]. intros [_ [a [H _]]]. destruct (j - s)%nat; discriminate.
  - assert (Hrec : In j (nonzero_from cond (S s) l) <->
                   (S s <= j)%nat /\ exists a0, nth_error l (j - S s) = Some a0
                                                /\ cond a0 = true) by apply IH.
    destruct (cond a) eqn:E; simpl; rewrite Hrec; split.
    + intros [<- | [Hs [b Hb]]].
      * split; [lia|]. exists a. rewrite Nat.sub_diag. auto.
      * split; [lia|]. exists b. replace (j - s)%nat with (S (j - S s)) by lia.
        exact Hb.
    + intros [Hs [b [Hb Hc]]]. destruct (j - s)%nat as [|n] eqn:En.
      * left. lia.
      * right. split; [lia|]. exists b. replace (j - S s)%nat with n by lia. auto.
    + intros [Hs [b Hb]]. split; [lia|]. exists b.
      replace (j - s)%nat with (S (j - S s)) by lia. exact Hb.
    + intros [Hs [b [Hb Hc]]]. destruct (j - s)%nat as [|n] eqn:En.
      * simpl in Hb. inversion Hb; subst. congruence.
      * split; [lia|]. exists b. replace (j - S s)%nat with n by lia. auto.
Qed.

Lemma nonzero_In {A} (cond : A -> bool) (l : list A) (j : nat) :
  In j (nonzero cond l) <-> exists a, nth_error l j = Some a /\ cond a = true.
Proof.
  unfold nonzero. rewrite nonzero_from_In, Nat.sub_0_r.
  split; [tauto | intros H; split; [lia | exact H]].
Qed.

Lemma index_list_map {A} (t : list A) (idx : list nat) (vs : list A) (d : A) :
  index_list t idx = Some vs -> vs = map (fun j => nth j t d) idx.
Proof.
  unfold index_list. intros H. apply mapM_Forall2 in H.
  induction H as [|j v idx vs Hv _ IH]; simpl; [reflexivity|].
  f_equal; [|exact IH]. symmetry. apply nth_error_nth. exact Hv.
Qed.

Lemma index_list_total {A} (t : list A) (idx : list nat) :
  Forall (fun j => (j < length t)%nat) idx -> exists vs, index_list t idx = Some vs.
Proof.
  intros H. apply mapM_total. eapply Forall_impl; [|exact H].
  intros j Hj. simpl in Hj. destruct (nth_error t j) eqn:E; [eauto|].
  apply nth_error_None in E. lia.
Qed.

Lemma agg_fold_None (ids : list Z) (scores : list (list Q)) (l : list (nat * Z)) :
  fold_left (agg_step ids scores) l None = None.
Proof. induction l as [|a l IH]; simpl; auto. Qed.

Lemma agg_fold (fb : flat_batch) (l : list (nat * Z))
    (al : list Z) (asc : list (list Q)) (n : Z)
    (al' : list Z) (asc' : list (list Q)) (n' : Z) :
  fold_left (agg_step (flatten_ids fb) (flatten_cls_scores fb)) l
            (Some (al, asc, n)) = Some (al', asc', n') ->
  let hits := filter (fun ic => negb (Nat.eqb (length (instance_cells fb (fst ic))) 0))
                     l in
  al' = rev (map snd hits) ++ al
  /\ asc' = rev (map (fun ic => mean_dim0 (map (cell_scores fb)
                                             (instance_cells fb (fst ic)))) hits)
            ++ asc
  /\ n' = n + Z.of_nat (length hits).
Proof.
  revert al asc n. induction l as [|ic l IH]; intros al asc n.
  - simpl. intros H; inversion H; subst. repeat split; lia.
  - assert (Es : agg_step (flatten_ids fb) (flatten_cls_scores fb)
                          (Some (al, asc, n)) ic
                 = if negb (Nat.eqb (length (instance_cells fb (fst ic))) 0)
                   then rows <- index_list (flatten_cls_scores fb)
                                           (instance_cells fb (fst ic)) ;;
                        Some (snd ic :: al, mean_dim0 rows :: asc, n + 1)
                   else Some (al, asc, n)) by reflexivity.
    cbn [fold_left]. rewrite Es. clear Es. cbv zeta. cbn [filter].
    destruct (negb (Nat.eqb (length (instance_cells fb (fst ic))) 0)) eqn:E.
    + destruct (index_list (flatten_cls_scores fb) (instance_cells fb (fst ic)))
        as [rows|] eqn:Er; simpl.
      * intros H. apply IH in H. destruct H as (H1 & H2 & H3).
        rewrite (index_list_map _ _ _ [] Er) in H2. fold (cell_scores fb) in H2.
        simpl. rewrite <- !app_assoc. simpl.
        split; [exact H1|]. split; [exact H2|]. lia.
      * rewrite agg_fold_None. discriminate.
    + intros H. apply IH in H. exact H.
Qed.

Lemma combine_app {A B} (la la' : list A) (lb lb' : list B) :
  length la = length lb ->
  combine (la ++ la') (lb ++ lb') = combine la lb ++ combine la' lb'.
Proof.
  revert lb; induction la as [|a la IH]; intros [|b lb] H; simpl in *;
    try discriminate; auto.
  f_equal. apply IH. lia.
Qed.

Lemma combine_rev {A B} (la : list A) (lb : list B) :
  length la = length lb -> combine (rev la) (rev lb) = rev (combine la lb).
Proof.
  revert lb; induction la as [|a la IH]; intros [|b lb] H; simpl in *;
    try discriminate; auto.
  rewrite combine_app by (rewrite !length_rev; lia).
  rewrite IH by lia. reflexivity.
Qed.

Lemma combine_map_map {A B C} (f : A -> B) (g : A -> C) (l : list A) :
  combine (map f l) (map g l) = map (fun a => (f a, g a)) l.
Proof. induction l as [|a l IH]; simpl; congruence. Qed.

(** The sample set built by the aggregation loop, as a multiset. *)
Lemma aggregate_samples (fb : flat_batch)
    (agg_labels : list Z) (agg_cls_scores : list (list Q)) (num_agg_pos : Z) :
  Forall (fun l => 0 <= l) (flatten_labels fb) ->
  aggregate fb = Some (agg_labels, agg_cls_scores, num_agg_pos) ->
  length agg_cls_scores = length agg_labels
  /\ Permutation (combine agg_cls_scores agg_labels) (neg_rows fb ++ hit_rows fb)
  /\ num_agg_pos = Z.of_nat (length (hit_instances fb)).
Proof.
  intros Hnn H. unfold aggregate in H. inv_bind H.
  apply agg_fold in H. destruct H as (H1 & H2 & H3). fold (hit_instances fb) in *.
  rewrite (index_list_map _ _ _ [] E0) in H2. fold (cell_scores fb) in H2.
  assert (Ha : a = map (fun _ => 0) (nonzero (fun l => l <=? 0) (flatten_labels fb))).
  { rewrite (index_list_map _ _ _ 0 E). apply map_ext_in.
    intros j Hj. apply nonzero_In in Hj. destruct Hj as [v [Hv Hc]].
    rewrite (nth_error_nth _ _ _ Hv).
    rewrite Forall_forall in Hnn. apply nth_error_In in Hv. apply Hnn in Hv.
    apply Z.leb_le in Hc. lia. }
  subst agg_labels agg_cls_scores num_agg_pos. rewrite Ha.
  split; [|split; [|lia]].
  - rewrite !length_app, !length_rev, !length_map. reflexivity.
  - rewrite combine_app by (rewrite !length_rev, !length_map; reflexivity).
    rewrite combine_rev by (rewrite !length_map; reflexivity).
    rewrite !combine_map_map. fold (neg_rows fb). fold (hit_rows fb).
    rewrite <- Permutation_rev. apply Permutation_app_comm.
Qed.

(** ** Labels and instance ids of the flattened batch, cell by cell *)

Lemma mapM_Forall_out {A B} (f : A -> option B) (l : list A) (bs : list B) :
  mapM f l = Some bs -> Forall (fun b => exists a, In a l /\ f a = Some b) bs.
Proof.
  intros H. apply mapM_Forall2 in H.
  induction H as [|a b l bs Hab _ IH]; constructor.
  - exists a. simpl. auto.
  - eapply Forall_impl; [|exact IH].
    intros b' [a' [Hin Hf]]. exists a'. simpl. auto.
Qed.

Lemma Forall2_map_same {A B C} (R : B -> C -> Prop) (f : A -> B) (g : A -> C)
    (l : list A) :
  Forall (fun a => R (f a) (g a)) l -> Forall2 R (map f l) (map g l).
Proof. induction 1; simpl; constructor; auto. Qed.

Lemma Forall2_flat_map_same {A B C} (R : B -> C -> Prop) (f : A -> list B)
    (g : A -> list C) (l : list A) :
  Forall (fun a => Forall2 R (f a) (g a)) l ->
  Forall2 R (flat_map f l) (flat_map g l).
Proof. induction 1; simpl; [constructor | apply Forall2_app; auto]. Qed.

Lemma Forall2_concat {A B} (R : A -> B -> Prop) (la : list (list A))
    (lb : list (list B)) :
  Forall2 (Forall2 R) la lb -> Forall2 R (concat la) (concat lb).
Proof. induction 1; simpl; [constructor | apply Forall2_app; auto]. Qed.

Lemma flatten2_Forall2 {A B} (R : A -> B -> Prop) (L : tensor2 A) (G : tensor2 B) :
  shape2 L = shape2 G -> (forall r c, R (at2 L r c) (at2 G r c)) ->
  Forall2 R (flatten2 L) (flatten2 G).
Proof.
  intros Hs Hc. unfold flatten2. rewrite Hs.
  apply Forall2_flat_map_same. apply Forall_forall. intros r _.
  apply Forall2_map_same. apply Forall_forall. intros c _. apply Hc.
Qed.

Lemma column_Forall2 {A B} (R : A -> B -> Prop) (i : nat) (la : list (list A))
    (lb : list (list B)) :
  Forall2 (Forall2 R) la lb -> Forall2 R (column i la) (column i lb).
Proof.
  unfold column. induction 1 as [|a b la lb Hab _ IH]; simpl; [constructor|].
  apply Forall2_app; [|exact IH]. clear IH.
  revert i; induction Hab as [|x y a b Hxy _ IH]; intros [|i]; simpl;
    try constructor; auto.
Qed.

Lemma zip_star_Forall2 {A B} (R : A -> B -> Prop) (la : list (list A))
    (lb : list (list B)) :
  Forall2 (Forall2 R) la lb -> Forall2 (Forall2 R) (zip_star la) (zip_star lb).
Proof.
  intros H. pose proof H as H'.
  destruct H' as [|a b la lb Hab Hrest]; simpl; [constructor|].
  assert (Hlen : map (@length A) la = map (@length B) lb).
  { clear - Hrest. induction Hrest as [|x y la lb Hxy _ IH]; simpl; [reflexivity|].
    rewrite IH, (Forall2_length Hxy). reflexivity. }
  rewrite Hlen, (Forall2_length Hab).
  apply Forall2_map_same. apply Forall_forall. intros i _.
  apply (column_Forall2 R i (a :: la) (b :: lb)). exact H.
Qed.

Lemma torch_cat_Some {A} (l : list (list A)) (x : list A) :
  torch_cat l = Some x -> x = concat l.
Proof. destruct l; simpl; congruence. Qed.

Lemma flatten_levels_Forall2 {T U A B} (R : A -> B -> Prop) (f : T -> list A)
    (g : U -> list B) (la : list (list T)) (lb : list (list U))
    (x : list A) (y : list B) :
  Forall2 (Forall2 (fun t u => Forall2 R (f t) (g u))) la lb ->
  flatten_levels f la = Some x -> flatten_levels g lb = Some y ->
  Forall2 R x y.
Proof.
  intros H Hx Hy. unfold flatten_levels in *. inv_bind Hx. inv_bind Hy.
  apply torch_cat_Some in Hx, Hy. subst x y. apply Forall2_concat.
  apply zip_star_Forall2 in H. apply mapM_Forall2 in E, E0.
  revert a a0 E E0. induction H as [|ta tb la' lb' Hab _ IH]; intros pa pb Ea Eb.
  - inversion Ea; inversion Eb; constructor.
  - inversion Ea as [|? xa ? pa' Hxa Hpa]; subst.
    inversion Eb as [|? xb ? pb' Hxb Hpb]; subst.
    constructor; [|apply IH; assumption].
    apply torch_cat_Some in Hxa, Hxb. subst xa xb.
    apply Forall2_concat.
    clear - Hab. induction Hab; simpl; constructor; auto.
Qed.

Lemma target_level_cell_ok (sigma : Q) (boxes : list bbox) (labels : list Z)
    (off : Z) (uninit : nat -> nat -> nat -> Q) (lv : level_args)
    (L : tensor2 Z) (B : tensor3 R) (G : tensor2 Z)
    (gt_label_list : list (list Z)) :
  In labels gt_label_list -> 0 <= off ->
  target_level sigma boxes labels off uninit lv = Some (L, B, G) ->
  shape2 L = shape2 G
  /\ forall r c, cell_ok gt_label_list (at2 L r c) (at2 G r c).
Proof.
  intros Hin Hoff H.
  destruct (target_level_cells _ _ _ _ _ _ _ _ _ H) as (HsL & HsG & Hc).
  split; [congruence|]. intros r c.
  destruct (Hc r c) as [Hl Hg]. rewrite Hl, Hg.
  destruct (last_painter _ _ r c) as [it|] eqn:E; [right | left; auto].
  apply find_some in E. destruct E as [Hit _]. apply in_rev in Hit.
  apply level_items_In in Hit. destruct Hit as (_ & Hn & _).
  apply nth_error_In in Hn. split; [lia|]. exists labels. auto.
Qed.

Lemma multi_apply_targets_cells (self : PPDetHead)
    (gt_bbox_list : list (list bbox)) (gt_label_list : list (list Z))
    (sizes : list (nat * nat)) (points : list (tensor2 Q * tensor2 Q))
    (mem : nat -> nat -> nat -> nat -> nat -> Q)
    (label_list : list (list (tensor2 Z)))
    (bbox_target_list : list (list (tensor3 R)))
    (gt_ids_list : list (list (tensor2 Z))) :
  multi_apply_targets self gt_bbox_list gt_label_list sizes points mem
  = Some (label_list, bbox_target_list, gt_ids_list) ->
  Forall2 (Forall2 (fun L G => Forall2 (cell_ok gt_label_list)
                                       (flatten2 L) (flatten2 G)))
          label_list gt_ids_list.
Proof.
  unfold multi_apply_targets. intros H. inv_bind H.
  inversion H; subst; clear H.
  apply Forall2_map_same. apply mapM_Forall_out in E.
  eapply Forall_impl; [|exact E].
  intros [[LL BL] GL] [[i [[boxes labels] off]] [Hin Hs]]. simpl in *.
  apply in_combine_r in Hin.
  destruct (In_nth_error _ _ Hin) as [n Hn].
  apply zip3_nth_error in Hn. destruct Hn as (_ & Hlab & Hoff).
  apply nth_error_In in Hlab, Hoff.
  pose proof (label_sizes_nonneg 0 gt_label_list (Z.le_refl 0)) as Hnn.
  rewrite Forall_forall in Hnn. apply Hnn in Hoff.
  unfold ppdet_target_single in Hs. inv_bind Hs. inversion Hs; subst; clear Hs.
  apply Forall2_map_same. apply mapM_Forall_out in E1.
  eapply Forall_impl; [|exact E1].
  intros [[L B] G] [[l lv] [_ Ht]]. simpl in *.
  destruct (target_level_cell_ok _ _ _ _ _ _ _ _ _ gt_label_list Hlab Hoff Ht)
    as [Hshape Hcell].
  apply flatten2_Forall2; assumption.
Qed.

Lemma loss_flatten_cells (self : PPDetHead)
    (cls_scores bbox_preds : list (tensor4 Q))
    (gt_bbox_list : list (list bbox)) (gt_label_list : list (list Z))
    (mem : nat -> nat -> nat -> nat -> nat -> Q) (fb : flat_batch) :
  loss_flatten self cls_scores bbox_preds gt_bbox_list gt_label_list mem = Some fb ->
  Forall2 (cell_ok gt_label_list) (flatten_labels fb) (flatten_ids fb).
Proof.
  unfold loss_flatten. intros H. inv_bind H.
  destruct a2 as [[label_list bbox_target_list] gt_ids_list].
  inv_bind H. inversion H; subst; clear H. simpl.
  eapply flatten_levels_Forall2; [|eassumption|eassumption].
  eapply multi_apply_targets_cells; eassumption.
Qed.

Lemma cell_ok_nonneg (gt_label_list : list (list Z)) (ls gs : list Z) :
  (forall labels lab, In labels gt_label_list -> In lab labels -> 0 <= lab) ->
  Forall2 (cell_ok gt_label_list) ls gs -> Forall (fun l => 0 <= l) ls.
Proof.
  intros Hlab H. induction H as [|l g ls gs Hc _ IH]; constructor; auto.
  destruct Hc as [[-> _] | [_ [labels [H1 H2]]]]; [lia | eauto].
Qed.

(** The global id of a ground-truth box indexes its class label in
    [all_gt_label_list]. *)
Lemma all_gt_label_global (gt_label_list : list (list Z)) (temp : Z)
    (m k : nat) (off : Z) (labels : list Z) (lab : Z) :
  nth_error (label_sizes temp gt_label_list) m = Some off ->
  nth_error gt_label_list m = Some labels ->
  nth_error labels k = Some lab ->
  nth_error (concat gt_label_list) (Z.to_nat (off - temp) + k) = Some lab.
Proof.
  revert temp m. induction gt_label_list as [|x rest IH]; intros temp m Ho Hl Hk.
  - destruct m; discriminate.
  - destruct m as [|m]; simpl in *.
    + inversion Ho; inversion Hl; subst.
      rewrite Z.sub_diag. simpl.
      rewrite nth_error_app1; [exact Hk|]. apply nth_error_Some. congruence.
    + pose proof (IH _ _ Ho Hl Hk) as H.
      assert (Hoff : Z.of_nat (length x) + temp <= off).
      { clear - Ho. revert m Ho. generalize (Z.of_nat (length x) + temp).
        induction rest as [|y rest IHr]; intros t [|m] Ho; simpl in *;
          try discriminate.
        - inversion Ho; lia.
        - apply IHr in Ho. lia. }
      rewrite nth_error_app2 by lia.
      replace (Z.to_nat (off - temp) + k - length x)%nat
        with (Z.to_nat (off - (Z.of_nat (length x) + temp)) + k)%nat by lia.
      exact H.
Qed.

Lemma loss_flatten_meta (self : PPDetHead)
    (cls_scores bbox_preds : list (tensor4 Q))
    (gt_bbox_list : list (list bbox)) (gt_label_list : list (list Z))
    (mem : nat -> nat -> nat -> nat -> nat -> Q) (fb : flat_batch) :
  loss_flatten self cls_scores bbox_preds gt_bbox_list gt_label_list mem = Some fb ->
  exists first,
    nth_error cls_scores 0 = Some first
    /\ num_imgs fb = Z.of_nat (fst (fst (fst (shape4 first))))
    /\ all_gt_label_list fb = concat gt_label_list.
Proof.
  unfold loss_flatten. intros H. inv_bind H.
  destruct a2 as [[label_list bbox_target_list] gt_ids_list].
  inv_bind H. inversion H; subst fb; clear H. simpl.
  match goal with
  | Hf : nth_error cls_scores 0 = Some ?t |- _ => exists t
  end.
  split; [assumption|]. split; [reflexivity|].
  apply torch_cat_Some. assumption.
Qed.

Section LossProperties.

Variable loss_cls_fn : list (list Q) -> list Z -> Z -> R.
Variable loss_bbox_fn : list (list Q) -> list (list R) -> list (list R) -> Z -> R.

Lemma loss_Some (self : PPDetHead) (cls_scores bbox_preds : list (tensor4 Q))
    (gt_bbox_list : list (list bbox)) (gt_label_list : list (list Z))
    (mem : nat -> nat -> nat -> nat -> nat -> Q) (out : losses) :
  loss loss_cls_fn loss_bbox_fn self cls_scores bbox_preds gt_bbox_list
       gt_label_list mem = Some out ->
  exists fb agg_labels agg_cls_scores num_agg_pos,
    loss_flatten self cls_scores bbox_preds gt_bbox_list gt_label_list mem
    = Some fb
    /\ aggregate fb = Some (agg_labels, agg_cls_scores, num_agg_pos)
    /\ loss_cls out
       = loss_cls_fn agg_cls_scores agg_labels (num_agg_pos + num_imgs fb)
    /\ regression_loss loss_bbox_fn fb = Some (loss_bbox out).
Proof.
  unfold loss. intros H. inv_bind H.
  destruct a0 as [[agg_labels agg_cls_scores] num_agg_pos].
  inv_bind H. inversion H; subst; clear H. simpl.
  exists a, agg_labels, agg_cls_scores, num_agg_pos. auto.
Qed.

(** C2.  The samples handed to the classification loss are, as a
    multiset, the raw score rows of all cells with label at most 0, each
    labelled 0, and for every ground-truth instance with at least one cell
    carrying its global id one row: the elementwise mean of the score rows
    of those cells, with the class label of the instance.  The
    [avg_factor] is the number of those instances plus the number of
    images, the batch size of the first score tensor.  Class labels are
    taken to be nonnegative. *)
Theorem cls_sample_set (self : PPDetHead)
    (cls_scores bbox_preds : list (tensor4 Q))
    (gt_bbox_list : list (list bbox)) (gt_label_list : list (list Z))
    (mem : nat -> nat -> nat -> nat -> nat -> Q) (out : losses) :
  (forall labels lab, In labels gt_label_list -> In lab labels -> 0 <= lab) ->
  loss loss_cls_fn loss_bbox_fn self cls_scores bbox_preds gt_bbox_list
       gt_label_list mem = Some out ->
  exists fb agg_cls_scores agg_labels first,
    loss_flatten self cls_scores bbox_preds gt_bbox_list gt_label_list mem
    = Some fb
    /\ nth_error cls_scores 0 = Some first
    /\ all_gt_label_list fb = concat gt_label_list
    /\ length agg_cls_scores = length agg_labels
    /\ Permutation (combine agg_cls_scores agg_labels)
                   (neg_rows fb ++ hit_rows fb)
    /\ loss_cls out
       = loss_cls_fn agg_cls_scores agg_labels
           (Z.of_nat (length (hit_instances fb))
            + Z.of_nat (fst (fst (fst (shape4 first))))).
Proof.
  intros Hlab H. apply loss_Some in H.
  destruct H as (fb & al & asc & n & Hfb & Hagg & Hcls & _).
  pose proof (loss_flatten_cells _ _ _ _ _ _ _ Hfb) as Hcells.
  pose proof (cell_ok_nonneg _ _ _ Hlab Hcells) as Hnn.
  destruct (aggregate_samples fb al asc n Hnn Hagg) as (Hlen & Hperm & Hn).
  destruct (loss_flatten_meta _ _ _ _ _ _ _ Hfb) as (first & Hfirst & Hnum & Hall).
  exists fb, asc, al, first.
  split; [exact Hfb|]. split; [exact Hfirst|]. split; [exact Hall|].
  split; [exact Hlen|]. split; [exact Hperm|].
  rewrite Hcls, Hn, Hnum. reflexivity.
Qed.

End LossProperties.

(** The sample set of a batch of one image with two boxes. *)
Lemma cls_sample_set_witness :
  exists out fb agg_cls_scores agg_labels first,
    loss count_loss_cls count_loss_bbox head2 cls_scores2 bbox_preds2
         [[box24; box16]] [[1; 2]] (fun _ => zero_mem) = Some out
    /\ loss_flatten head2 cls_scores2 bbox_preds2 [[box24; box16]] [[1; 2]]
                    (fun _ => zero_mem) = Some fb
    /\ nth_error cls_scores2 0 = Some first
    /\ all_gt_label_list fb = concat [[1; 2]]
    /\ length agg_cls_scores = length agg_labels
    /\ Permutation (combine agg_cls_scores agg_labels)
                   (neg_rows fb ++ hit_rows fb)
    /\ loss_cls out
       = count_loss_cls agg_cls_scores agg_labels
           (Z.of_nat (length (hit_instances fb))
            + Z.of_nat (fst (fst (fst (shape4 first))))).
Proof.
  destruct (is_some_true
              (loss count_loss_cls count_loss_bbox head2 cls_scores2 bbox_preds2
                    [[box24; box16]] [[1; 2]] (fun _ => zero_mem)))
    as [out E]; [vm_compute; reflexivity|].
  destruct (cls_sample_set count_loss_cls count_loss_bbox head2 cls_scores2
              bbox_preds2 [[box24; box16]] [[1; 2]] (fun _ => zero_mem) out)
    as (fb & asc & al & first & H); [|exact E|].
  - intros labels lab [<- | []] [<- | [<- | []]]; lia.
  - exists out, fb, asc, al, first. split; [exact E | exact H].
Defined.

(** ** Decoder: shapes *)

Lemma permute_reshape3_rows {A} (t : tensor3 A) (cols : Z) (rows : list (list A)) :
  permute_reshape3 t cols = Some rows ->
  0 < cols
  /\ Forall (fun row => length row = Z.to_nat cols) rows
  /\ length rows
     = ((snd (fst (shape3 t)) * snd (shape3 t) * fst (fst (shape3 t)))
        / Z.to_nat cols)%nat.
Proof.
  unfold permute_reshape3. intros H. inv_bind H.
  apply assert_Some, andb_true_iff in E. destruct E as [Hc _].
  apply Z.ltb_lt in Hc. inversion H; subst; clear H.
  split; [exact Hc|]. split.
  - apply Forall_forall. intros row Hin. apply in_map_iff in Hin.
    destruct Hin as [r [<- _]]. rewrite length_map, length_seq. reflexivity.
  - rewrite length_map, length_seq. reflexivity.
Qed.

Lemma index_list_In {A} (t : list A) (idx : list nat) (vs : list A) :
  index_list t idx = Some vs -> Forall (fun v => In v t) vs.
Proof.
  intros H. apply mapM_Forall_out in H.
  eapply Forall_impl; [|exact H].
  intros v [j [_ Hj]]. eapply nth_error_In; exact Hj.
Qed.

Lemma index_list_length {A} (t : list A) (idx : list nat) (vs : list A) :
  index_list t idx = Some vs -> length vs = length idx.
Proof. apply mapM_length. Qed.

Lemma Forall_In_sub {A} (P : A -> Prop) (t vs : list A) :
  Forall P t -> Forall (fun v => In v t) vs -> Forall P vs.
Proof.
  intros Ht Hv. rewrite Forall_forall in *. auto.
Qed.

Lemma exp_rows_nonneg (rows : list (list R)) :
  Forall (Forall (fun v => (0 <= v)%R)) (map (map exp) rows).
Proof.
  apply Forall_forall. intros row Hin. apply in_map_iff in Hin.
  destruct Hin as [r [<- _]]. apply Forall_forall. intros v Hv.
  apply in_map_iff in Hv. destruct Hv as [u [<- _]].
  left. apply exp_pos.
Qed.

Lemma decoded_rows (img_shape : Z * Z) (stride : Z) (base_len : Q)
    (y x : list R) (bbox_pred : list (list R)) :
  Forall (Forall (fun v => (0 <= v)%R)) bbox_pred ->
  Forall (fun row => exists yv xv pred,
              Forall (fun v => (0 <= v)%R) pred
              /\ row = clamp_box img_shape (decode_point stride base_len yv xv pred))
         (map (fun yxp : R * R * list R =>
                 clamp_box img_shape
                   (decode_point stride base_len (fst (fst yxp)) (snd (fst yxp))
                                 (snd yxp)))
              (combine (combine y x) bbox_pred)).
Proof.
  intros Hp. apply Forall_forall. intros row Hin. apply in_map_iff in Hin.
  destruct Hin as [[[yv xv] pred] [<- Hin]]. simpl.
  exists yv, xv, pred. split; [|reflexivity].
  apply in_combine_r in Hin. rewrite Forall_forall in Hp. auto.
Qed.

Lemma same_length3_true {A B C} (a : list A) (b : list B) (c : list C) :
  same_length3 a b c = true -> length a = length b /\ length b = length c.
Proof.
  unfold same_length3. rewrite andb_true_iff, !Nat.eqb_eq. tauto.
Qed.

Lemma decode_level_decoded (NmsCfg : Type) (self : PPDetHead)
    (cfg : test_cfg NmsCfg) (img_shape : Z * Z) (a : decode_args)
    (out : list (list R) * list (list R)) :
  decode_level NmsCfg self cfg img_shape a = Some out ->
  @level_decoded NmsCfg self img_shape a out.
Proof.
  destruct a as [[[[[cls_score bbox_pred] fs] stride] base_len] [y x]].
  unfold decode_level, level_decoded. simpl. intros H. inv_bind H.
  apply assert_Some, andb_true_iff in E. destruct E as [Eh Ew].
  apply Nat.eqb_eq in Eh, Ew. simpl in Eh, Ew.
  destruct (permute_reshape3_rows _ _ _ E0) as (Hc & Hrows & Hlen).
  destruct (permute_reshape3_rows _ _ _ E1) as (_ & _ & Hlenb).
  assert (Hsc : Forall (fun row => length row = Z.to_nat (cls_out_channels self))
                       (map (map sigmoid) a0)).
  { apply Forall_forall. intros row Hin. apply in_map_iff in Hin.
    destruct Hin as [r [<- Hr]]. rewrite length_map.
    rewrite Forall_forall in Hrows. auto. }
  pose proof (exp_rows_nonneg a1) as Hex.
  destruct a2 as [[[bp sc] y'] x']. cbv beta iota in H. inv_bind H.
  match goal with
  | Hs : assert (same_length3 _ _ _) = Some _ |- _ =>
      apply assert_Some, same_length3_true in Hs; destruct Hs as [Hyx Hxb]
  end.
  match goal with
  | Hif : (if _ then _ else _) = Some _ |- _ => rename Hif into Hsel
  end.
  inversion H; subst out; clear H. cbn [fst snd].
  assert (Hout : Forall (fun row => length row = Z.to_nat (cls_out_channels self)) sc
                 /\ Forall (Forall (fun v => (0 <= v)%R)) bp
                 /\ (fst (fst (shape3 cls_score)) = Z.to_nat (cls_out_channels self) ->
                     fst (fst (shape3 bbox_pred)) = 4%nat ->
                     length bp = length sc)).
  { destruct ((0 <? get_nms_pre cfg)
              && (get_nms_pre cfg <? Z.of_nat (length (map (map sigmoid) a0)))).
    - inv_bind Hsel. inversion Hsel; subst; clear Hsel.
      split; [eapply Forall_In_sub; [exact Hsc | eapply index_list_In; eassumption]|].
      split; [eapply Forall_In_sub; [exact Hex | eapply index_list_In; eassumption]|].
      intros _ _.
      erewrite (index_list_length _ _ bp), (index_list_length _ _ sc) by eassumption.
      reflexivity.
    - inversion Hsel; subst; clear Hsel.
      split; [exact Hsc|]. split; [exact Hex|].
      intros Hcc Hcb. rewrite !length_map, Hlen, Hlenb, Hcc, Hcb, Eh, Ew.
      change (Z.to_nat 4) with 4%nat.
      rewrite !Nat.div_mul by lia. reflexivity. }
  destruct Hout as (H1 & H2 & H3).
  split; [exact Hc|]. split; [exact H1|]. split.
  - apply decoded_rows. exact H2.
  - intros Hcc Hcb. rewrite length_map, !length_combine.
    rewrite <- (H3 Hcc Hcb). lia.
Qed.

Lemma zip_decode_In (cls_scores bbox_preds : list (tensor3 R))
    (featmap_sizes : list (nat * nat)) (strs : list Z) (bases : list Q)
    (point_list : list (list R * list R)) (a : decode_args) :
  In a (zip_decode cls_scores bbox_preds featmap_sizes strs bases point_list) ->
  In (fst (fst (fst (fst (fst a))))) cls_scores
  /\ In (snd (fst (fst (fst (fst a))))) bbox_preds
  /\ In (snd (fst a)) bases.
Proof.
  revert bbox_preds featmap_sizes strs bases point_list.
  induction cls_scores as [|c cs IH];
    intros [|b bs] [|f fs] [|s ss] [|e es] [|p ps]; simpl; try tauto.
  intros [<- | Hin]; simpl; [tauto|].
  apply IH in Hin. tauto.
Qed.

Lemma nms_inputs_levels (NmsCfg : Type) (self : PPDetHead)
    (cls_scores bbox_preds : list (tensor3 R))
    (featmap_sizes : list (nat * nat)) (point_list : list (list R * list R))
    (img_shape : Z * Z) (scale_factor : R) (cfg : test_cfg NmsCfg)
    (rescale : bool) (det_bboxes det_scores : list (list R)) :
  nms_inputs NmsCfg self cls_scores bbox_preds featmap_sizes point_list
             img_shape scale_factor cfg rescale = Some (det_bboxes, det_scores) ->
  exists per_level,
    Forall (fun out => exists a,
                In a (zip_decode cls_scores bbox_preds featmap_sizes
                                 (strides self) (base_edge_list self) point_list)
                /\ @level_decoded NmsCfg self img_shape a out) per_level
    /\ det_bboxes
       = (if rescale
          then map (map (fun v => (v / scale_factor)%R)) (concat (map fst per_level))
          else concat (map fst per_level))
    /\ det_scores = map (fun row => 0%R :: row) (concat (map snd per_level)).
Proof.
  unfold nms_inputs. intros H. inv_bind H. inversion H; subst; clear H.
  match goal with
  | Hm : mapM _ _ = Some ?pl |- _ => exists pl; apply mapM_Forall_out in Hm;
                                     rename Hm into Hpl
  end.
  repeat match goal with
         | Hc : torch_cat _ = Some _ |- _ => apply torch_cat_Some in Hc; subst
         end.
  split; [|split; reflexivity].
  eapply Forall_impl; [|exact Hpl].
  intros out [arg [Hin Hd]]. exists arg. split; [exact Hin|].
  apply decode_level_decoded with (cfg := cfg). exact Hd.
Qed.

Lemma length_concat_eq {A B} (la : list (list A)) (lb : list (list B)) :
  Forall2 (fun a b => length a = length b) la lb ->
  length (concat la) = length (concat lb).
Proof.
  induction 1 as [|a b la lb Hab _ IH]; simpl; [reflexivity|].
  rewrite !length_app. congruence.
Qed.

(** C8, amended.  When the score tensors have [cls_out_channels] channels and
    the regression tensors 4, the box matrix handed to the suppression
    primitive has shape [N, 4], and the score matrix has shape
    [N, num_classes], that is [N, cls_out_channels + 1]: it is the sigmoid
    score rows of the levels, concatenated, with one zero column put in
    front. *)
Theorem nms_input_shapes (NmsCfg : Type) (self : PPDetHead)
    (cls_scores bbox_preds : list (tensor3 R))
    (featmap_sizes : list (nat * nat)) (point_list : list (list R * list R))
    (img_shape : Z * Z) (scale_factor : R) (cfg : test_cfg NmsCfg)
    (rescale : bool) (det_bboxes det_scores : list (list R)) :
  Forall (fun t => fst (fst (shape3 t)) = Z.to_nat (cls_out_channels self))
         cls_scores ->
  Forall (fun t => fst (fst (shape3 t)) = 4%nat) bbox_preds ->
  nms_inputs NmsCfg self cls_scores bbox_preds featmap_sizes point_list
             img_shape scale_factor cfg rescale = Some (det_bboxes, det_scores) ->
  length det_bboxes = length det_scores
  /\ Forall (fun row => length row = 4%nat) det_bboxes
  /\ Forall (fun row => Z.of_nat (length row) = num_classes self
                        /\ Z.of_nat (length row) = cls_out_channels self + 1
                        /\ exists scores, row = 0%R :: scores)
            det_scores.
Proof.
  intros Hcs Hbp H. apply nms_inputs_levels in H.
  destruct H as (per_level & Hpl & Hb & Hs).
  assert (Hlen : length (concat (map fst per_level))
                 = length (concat (map snd per_level))).
  { apply length_concat_eq. apply Forall2_map_same.
    eapply Forall_impl; [|exact Hpl].
    intros out [a [Hin (_ & _ & _ & Hl)]].
    apply zip_decode_In in Hin. destruct Hin as (H1 & H2 & _).
    rewrite Forall_forall in Hcs, Hbp. auto. }
  assert (Hrows4 : Forall (fun row : list R => length row = 4%nat)
                          (concat (map fst per_level))).
  { apply Forall_concat. apply Forall_map.
    eapply Forall_impl; [|exact Hpl].
    intros out [a [_ (_ & _ & Hbx & _)]].
    eapply Forall_impl; [|exact Hbx].
    intros row (yv & xv & pred & _ & ->). reflexivity. }
  subst det_bboxes det_scores. split; [|split].
  - destruct rescale; rewrite ?length_map; exact Hlen.
  - destruct rescale; [|exact Hrows4].
    apply Forall_map. eapply Forall_impl; [|exact Hrows4].
    intros row Hr. simpl. rewrite length_map. exact Hr.
  - apply Forall_map. apply Forall_concat. apply Forall_map.
    eapply Forall_impl; [|exact Hpl].
    intros out [a [_ (Hc & Hsc & _ & _)]].
    eapply Forall_impl; [|exact Hsc].
    intros row Hr. simpl. rewrite Hr. unfold cls_out_channels in *.
    split; [lia|]. split; [lia|]. eauto.
Qed.

Lemma clampR_range (v lo hi : R) :
  (lo <= hi)%R -> (lo <= clampR v lo hi <= hi)%R.
Proof.
  intros H. unfold clampR. split.
  - apply Rmin_glb; [apply Rmax_r | exact H].
  - apply Rmin_r.
Qed.

Lemma clampR_mono (u v lo hi : R) :
  (u <= v)%R -> (clampR u lo hi <= clampR v lo hi)%R.
Proof.
  intros H. unfold clampR.
  apply Rle_min_compat_r. apply Rle_max_compat_r. exact H.
Qed.

(** C10.  With rescaling disabled, nonnegative base edge lengths and an
    image of at least one pixel in each direction, every box that the
    decoder produces satisfies [0 <= x1 <= x2 <= img_width - 1] and
    [0 <= y1 <= y2 <= img_height - 1], whatever the raw predictions. *)
Theorem decoded_boxes_in_bounds (NmsCfg : Type) (self : PPDetHead)
    (cls_scores bbox_preds : list (tensor3 R))
    (featmap_sizes : list (nat * nat)) (point_list : list (list R * list R))
    (img_shape : Z * Z) (scale_factor : R) (cfg : test_cfg NmsCfg)
    (det_bboxes det_scores : list (list R)) :
  Forall (fun base_len => (0 <= base_len)%Q) (base_edge_list self) ->
  1 <= fst img_shape -> 1 <= snd img_shape ->
  nms_inputs NmsCfg self cls_scores bbox_preds featmap_sizes point_list
             img_shape scale_factor cfg false = Some (det_bboxes, det_scores) ->
  Forall (fun row => exists x1 y1 x2 y2,
              row = [x1; y1; x2; y2]
              /\ (0 <= x1 <= x2)%R /\ (x2 <= IZR (snd img_shape - 1))%R
              /\ (0 <= y1 <= y2)%R /\ (y2 <= IZR (fst img_shape - 1))%R)
         det_bboxes.
Proof.
  intros Hbase Hh Hw H. apply nms_inputs_levels in H.
  destruct H as (per_level & Hpl & Hb & _). subst det_bboxes.
  apply Forall_concat. apply Forall_map.
  eapply Forall_impl; [|exact Hpl].
  intros out [a [Hin (_ & _ & Hbx & _)]].
  apply zip_decode_In in Hin. destruct Hin as (_ & _ & Hbl).
  rewrite Forall_forall in Hbase. apply Hbase in Hbl.
  apply Qle_Rle in Hbl. rewrite Q2R_0 in Hbl.
  apply IZR_le in Hh, Hw.
  assert (Hh' : (0 <= IZR (fst img_shape - 1))%R)
    by (rewrite minus_IZR; simpl in *; lra).
  assert (Hw' : (0 <= IZR (snd img_shape - 1))%R)
    by (rewrite minus_IZR; simpl in *; lra).
  eapply Forall_impl; [|exact Hbx].
  intros row (yv & xv & pred & Hp & ->).
  assert (Hn : forall k, (0 <= nth k pred 0)%R).
  { intros k. destruct (nth_in_or_default k pred 0%R) as [Hi | ->]; [|lra].
    rewrite Forall_forall in Hp. auto. }
  pose proof (Hn 0%nat) as H0. pose proof (Hn 1%nat) as H1.
  pose proof (Hn 2%nat) as H2. pose proof (Hn 3%nat) as H3.
  pose proof (Rmult_le_pos _ _ Hbl H0) as P0.
  pose proof (Rmult_le_pos _ _ Hbl H1) as P1.
  pose proof (Rmult_le_pos _ _ Hbl H2) as P2.
  pose proof (Rmult_le_pos _ _ Hbl H3) as P3.
  unfold clamp_box, decode_point.
  do 4 eexists. split; [reflexivity|].
  repeat split;
    try (apply clampR_range; assumption);
    try (apply clampR_mono; lra).
Qed.

(** ** Decoder: the two decode paths *)

(** C9.  On the same inputs [get_bboxes_single_aug] returns the pair
    [(det_bboxes, det_scores)] that [get_bboxes_single] hands to
    [multiclass_nms]. *)
Theorem aug_returns_nms_inputs (NmsCfg Detections : Type)
    (multiclass_nms : list (list R) -> list (list R) -> R -> R -> R -> NmsCfg
                      -> Z -> Detections)
    (self : PPDetHead) (cls_scores bbox_preds : list (tensor3 R))
    (featmap_sizes : list (nat * nat)) (point_list : list (list R * list R))
    (img_shape : Z * Z) (scale_factor : R) (cfg : test_cfg NmsCfg)
    (rescale debug : bool) :
  get_bboxes_single_aug self cls_scores bbox_preds featmap_sizes point_list
                        img_shape scale_factor cfg rescale
  = nms_inputs NmsCfg self cls_scores bbox_preds featmap_sizes point_list
               img_shape scale_factor cfg rescale
  /\ get_bboxes_single NmsCfg Detections multiclass_nms self cls_scores
       bbox_preds featmap_sizes point_list img_shape scale_factor cfg rescale debug
     = match get_bboxes_single_aug self cls_scores bbox_preds featmap_sizes
               point_list img_shape scale_factor cfg rescale with
       | Some (det_bboxes, det_scores) =>
           Some (if debug
                 then multiclass_nms det_bboxes det_scores (cfg_k cfg)
                        (cfg_agg_thr cfg) (cfg_score_thr cfg) (cfg_nms cfg)
                        (cfg_max_per_img cfg)
                 else multiclass_nms det_bboxes det_scores (cfg_score_thr cfg)
                        (cfg_k cfg) (cfg_agg_thr cfg) (cfg_nms cfg)
                        (cfg_max_per_img cfg))
       | None => None
       end.
Proof.
  assert (Hlevel : forall a, decode_level_aug self cfg img_shape a
                             = decode_level NmsCfg self cfg img_shape a).
  { intros [[[[[cls_score bbox_pred] fs] stride] base_len] [y x]]. reflexivity. }
  assert (Hloop : forall l, mapM (decode_level_aug self cfg img_shape) l
                            = mapM (decode_level NmsCfg self cfg img_shape) l).
  { induction l as [|a l IH]; simpl; [reflexivity|]. rewrite Hlevel, IH. reflexivity. }
  assert (Heq : get_bboxes_single_aug self cls_scores bbox_preds featmap_sizes
                  point_list img_shape scale_factor cfg rescale
                = nms_inputs NmsCfg self cls_scores bbox_preds featmap_sizes
                    point_list img_shape scale_factor cfg rescale).
  { unfold get_bboxes_single_aug, nms_inputs. rewrite Hloop. reflexivity. }
  split; [exact Heq|].
  unfold get_bboxes_single. rewrite Heq.
  destruct (nms_inputs _ _ _ _ _ _ _ _ _ _) as [[b s]|]; simpl; [|reflexivity].
  destruct debug; reflexivity.
Qed.

(** ** Decoder: one cell *)

Lemma Q2R_16 : Q2R 16 = 16%R.
Proof. unfold Q2R; simpl; lra. Qed.

Lemma clampR_id (v lo hi : R) : (lo <= v <= hi)%R -> clampR v lo hi = v.
Proof.
  intros [H1 H2]. unfold clampR.
  rewrite Rmax_left by exact H1. apply Rmin_left. exact H2.
Qed.

(** C4, as claimed, fails: with raw predictions 0 the offsets after the
    exponential are 1 and the box is not degenerate; and even with offsets
    0 the box would sit at [x = 8 * 20.5 = 164], not 168. *)
Lemma decode_scenario_differs :
  decode_point 8 16 (21 / 2) (41 / 2) (map exp [0; 0; 0; 0]%R)
    <> (168, 84, 168, 84)%R
  /\ decode_point 8 16 (21 / 2) (41 / 2) [0; 0; 0; 0]%R <> (168, 84, 168, 84)%R.
Proof.
  unfold decode_point; simpl; rewrite Q2R_16, exp_0.
  split; intros H; inversion H; lra.
Qed.

(** C4, amended.  For the level of stride 8 and base edge 16, the cell at
    [(y, x) = (10.5, 20.5)] with raw regression prediction 0 in every
    channel, which the exponential turns into 1, decodes before the clamp
    to the box (148, 68, 180, 100); this is also the box that the decoder
    returns for an image large enough to hold it. *)
Theorem decode_scenario :
  decode_point 8 16 (21 / 2) (41 / 2) (map exp [0; 0; 0; 0]%R)
  = (148, 68, 180, 100)%R
  /\ exists det_scores,
      nms_inputs unit head8 [cell_cls] [cell_reg] [(1, 1)%nat] cell_points
                 (1000, 1000) 1 cfg0 false
      = Some ([[148; 68; 180; 100]%R], det_scores).
Proof.
  split.
  - unfold decode_point; simpl; rewrite Q2R_16, exp_0.
    f_equal; [f_equal; [f_equal|]|]; lra.
  - eexists. cbn. 
    unfold clamp_box, decode_point. simpl. rewrite Q2R_16, exp_0.
    rewrite !clampR_id by lra. 
    repeat f_equal; lra.
Qed.

(** C8, as claimed, fails: for a head with [num_classes = 3] the rows of the
    score matrix have 3 entries, not [num_classes + 1 = 4]. *)
Lemma score_matrix_width_differs :
  exists det_bboxes det_scores,
    nms_inputs unit head8 [cell_cls] [cell_reg] [(1, 1)%nat] cell_points
               (1000, 1000) 1 cfg0 false = Some (det_bboxes, det_scores)
    /\ map (@length R) det_scores = [3%nat]
    /\ num_classes head8 + 1 = 4.
Proof.
  do 2 eexists. split; [cbn; reflexivity|]. split; reflexivity.
Qed.

(** The shapes for the single cell of [head8]. *)
Lemma nms_input_shapes_witness :
  exists det_bboxes det_scores,
    nms_inputs unit head8 [cell_cls] [cell_reg] [(1, 1)%nat] cell_points
               (1000, 1000) 1 cfg0 false = Some (det_bboxes, det_scores)
    /\ length det_bboxes = length det_scores
    /\ Forall (fun row => length row = 4%nat) det_bboxes
    /\ Forall (fun row => Z.of_nat (length row) = num_classes head8
                          /\ Z.of_nat (length row) = cls_out_channels head8 + 1
                          /\ exists scores, row = 0%R :: scores)
              det_scores.
Proof.
  destruct (is_some_true
              (nms_inputs unit head8 [cell_cls] [cell_reg] [(1, 1)%nat] cell_points
                          (1000, 1000) 1 cfg0 false))
    as [[b s] E]; [cbn; reflexivity|].
  exists b, s. split; [exact E|].
  apply (nms_input_shapes unit head8 [cell_cls] [cell_reg] [(1, 1)%nat]
           cell_points (1000, 1000) 1%R cfg0 false b s); [| |exact E].
  - repeat constructor.
  - repeat constructor.
Defined.

(** The bounds for the single cell of [head8] in a 1000 x 1000 image. *)
Lemma decoded_boxes_in_bounds_witness :
  exists det_bboxes det_scores,
    nms_inputs unit head8 [cell_cls] [cell_reg] [(1, 1)%nat] cell_points
               (1000, 1000) 1 cfg0 false = Some (det_bboxes, det_scores)
    /\ Forall (fun row => exists x1 y1 x2 y2,
                   row = [x1; y1; x2; y2]
                   /\ (0 <= x1 <= x2)%R /\ (x2 <= IZR (1000 - 1))%R
                   /\ (0 <= y1 <= y2)%R /\ (y2 <= IZR (1000 - 1))%R)
              det_bboxes.
Proof.
  destruct (is_some_true
              (nms_inputs unit head8 [cell_cls] [cell_reg] [(1, 1)%nat] cell_points
                          (1000, 1000) 1 cfg0 false))
    as [[b s] E]; [cbn; reflexivity|].
  exists b, s. split; [exact E|].
  apply (decoded_boxes_in_bounds unit head8 [cell_cls] [cell_reg] [(1, 1)%nat]
           cell_points (1000, 1000) 1%R cfg0 b s); [| | |exact E].
  - repeat constructor. discriminate.
  - simpl; lia.
  - simpl; lia.
Defined.

(** ** The loss returns *)

Lemma target_level_total (sigma : Q) (boxes : list bbox) (labels : list Z)
    (off : Z) (uninit : nat -> nat -> nat -> Q) (lv : level_args) :
  (length boxes <= length labels)%nat ->
  shape2 (fst (lv_points lv)) = lv_featmap_size lv ->
  shape2 (snd (lv_points lv)) = lv_featmap_size lv ->
  exists out, target_level sigma boxes labels off uninit lv = Some out.
Proof.
  intros Hlen Hy Hx. unfold target_level.
  destruct (lv_points lv) as [y x]. simpl in Hy, Hx.
  destruct (Nat.eqb _ 0); [eexists; reflexivity|].
  fold (level_hits boxes lv).
  destruct (index_list_total labels (map fst (level_hits boxes lv))) as [gl Hgl].
  { apply Forall_forall. intros i Hi. apply in_map_iff in Hi.
    destruct Hi as [[i' b] [<- Hin]]. apply level_hits_In in Hin.
    destruct Hin as [Hn _]. simpl.
    assert (i' < length boxes)%nat by (apply nth_error_Some; congruence). lia. }
  rewrite Hgl. simpl.
  assert (Hs : shape_eqb (shape2 x) (lv_featmap_size lv)
               && shape_eqb (shape2 y) (lv_featmap_size lv) = true).
  { rewrite Hx, Hy. unfold shape_eqb. rewrite !Nat.eqb_refl. reflexivity. }
  rewrite Hs. simpl. eexists; reflexivity.
Qed.

Lemma levels_of_points_In (self : PPDetHead) (sizes : list (nat * nat))
    (lv : level_args) :
  In lv (levels_of self sizes (get_points sizes)) ->
  shape2 (fst (lv_points lv)) = lv_featmap_size lv
  /\ shape2 (snd (lv_points lv)) = lv_featmap_size lv.
Proof.
  intros Hin. destruct (In_nth_error _ _ Hin) as [l Hl].
  rewrite (levels_of_points _ _ _ _ Hl). simpl. auto.
Qed.

Lemma levels_of_sizes (self : PPDetHead) (sizes : list (nat * nat)) :
  (length sizes <= length (base_edge_list self))%nat ->
  (length sizes <= length (scale_ranges self))%nat ->
  (length sizes <= length (strides self))%nat ->
  map lv_featmap_size (levels_of self sizes (get_points sizes)) = sizes.
Proof.
  unfold levels_of.
  generalize (base_edge_list self) (scale_ranges self) (strides self).
  induction sizes as [|f sizes IH]; intros bs rs ss Hb Hr Hs.
  - destruct bs, rs, ss; reflexivity.
  - destruct bs as [|b bs], rs as [|r rs], ss as [|s ss]; simpl in *; try lia.
    f_equal. apply IH; lia.
Qed.

Lemma ppdet_target_single_total (self : PPDetHead) (boxes : list bbox)
    (labels : list Z) (off : Z) (sizes : list (nat * nat))
    (mem : nat -> nat -> nat -> nat -> Q) :
  (length boxes <= length labels)%nat ->
  exists LL BL GL,
    ppdet_target_single self boxes labels off sizes (get_points sizes) mem
    = Some (LL, BL, GL)
    /\ Forall2 (fun lv L => shape2 L = lv_featmap_size lv)
               (levels_of self sizes (get_points sizes)) LL
    /\ length BL = length LL /\ length GL = length LL.
Proof.
  intros Hlen. unfold ppdet_target_single.
  fold (levels_of self sizes (get_points sizes)).
  pose proof (levels_of_points_In self sizes) as Hpts.
  set (levels := levels_of self sizes (get_points sizes)) in *.
  assert (Ht : exists per_level,
             mapM (fun il : nat * level_args =>
                     target_level (sigma self) boxes labels off (mem (fst il))
                                  (snd il))
                  (combine (seq 0 (length levels)) levels) = Some per_level).
  { apply mapM_total. apply Forall_forall. intros [i lv] Hin.
    apply in_combine_r in Hin. destruct (Hpts lv Hin) as [Hy Hx].
    apply target_level_total; assumption. }
  destruct Ht as [per_level Hpl]. rewrite Hpl. simpl.
  do 3 eexists. split; [reflexivity|].
  rewrite !length_map. split; [|split; reflexivity].
  apply mapM_Forall2 in Hpl.
  assert (Hgen : forall s,
             Forall2 (fun (il : nat * level_args) b =>
                        target_level (sigma self) boxes labels off (mem (fst il))
                                     (snd il) = Some b)
                     (combine (seq s (length levels)) levels) per_level ->
             Forall2 (fun lv L => shape2 L = lv_featmap_size lv) levels
                     (map (fun t => fst (fst t)) per_level)).
  { clear Hpl Hpts. revert per_level.
    induction levels as [|lv levels IH]; intros per_level s H; simpl in *.
    - inversion H; constructor.
    - inversion H as [|? [[L B] G] ? pl Hlv Hrest]; subst. simpl in *.
      constructor; [|eapply IH; exact Hrest].
      destruct (target_level_cells _ _ _ _ _ _ _ _ _ Hlv) as (HsL & _). exact HsL. }
  eapply Hgen. exact Hpl.
Qed.

(** The transposition of a list of rows that all have [m] entries. *)
Lemma fold_min_same {A} (m : nat) (rest : list (list A)) :
  Forall (fun l => length l = m) rest ->
  fold_left Nat.min (map (@length A) rest) m = m.
Proof.
  induction 1 as [|l rest Hl _ IH]; simpl; [reflexivity|].
  rewrite Hl, Nat.min_id. exact IH.
Qed.

Lemma zip_star_regular {A} (m : nat) (ll : list (list A)) :
  ll <> [] -> Forall (fun l => length l = m) ll ->
  zip_star ll = map (fun i => column i ll) (seq 0 m).
Proof.
  intros Hne H. destruct ll as [|l0 rest]; [congruence|].
  inversion H as [|? ? H0 Hrest]; subst. unfold zip_star.
  rewrite (fold_min_same _ rest Hrest). reflexivity.
Qed.

Lemma column_concat_length {A B} (f : A -> list B) (i k : nat) (ll : list (list A)) :
  Forall (fun l => exists t, nth_error l i = Some t /\ length (f t) = k) ll ->
  length (concat (map f (column i ll))) = (length ll * k)%nat.
Proof.
  unfold column. induction 1 as [|l ll [t [Ht Hk]] _ IH]; simpl; [reflexivity|].
  rewrite Ht. simpl. rewrite length_app, IH, Hk. reflexivity.
Qed.

Lemma column_nonempty {A} (i : nat) (ll : list (list A)) :
  ll <> [] -> Forall (fun l => (i < length l)%nat) ll -> column i ll <> [].
Proof.
  intros Hne H. destruct ll as [|l ll]; [congruence|].
  inversion H as [|? ? Hl _]; subst. unfold column. simpl.
  destruct (nth_error l i) eqn:E; [discriminate|].
  apply nth_error_None in E. lia.
Qed.

Lemma mapM_map_Some {A B} (g : A -> option B) (h : A -> B) (l : list A) :
  (forall a, In a l -> g a = Some (h a)) -> mapM g l = Some (map h l).
Proof.
  induction l as [|a l IH]; intros H; simpl; [reflexivity|].
  rewrite (H a) by (left; reflexivity). simpl.
  rewrite IH by (intros; apply H; right; assumption). reflexivity.
Qed.

Lemma torch_cat_nonempty {A} (l : list (list A)) :
  l <> [] -> torch_cat l = Some (concat l).
Proof. destruct l; [congruence | reflexivity]. Qed.

Lemma flatten_levels_regular {T A} (f : T -> list A) (m : nat) (ll : list (list T)) :
  ll <> [] -> (1 <= m)%nat -> Forall (fun l => length l = m) ll ->
  flatten_levels f ll
  = Some (concat (map (fun i => concat (map f (column i ll))) (seq 0 m))).
Proof.
  intros Hne Hm Hreg. unfold flatten_levels.
  rewrite (zip_star_regular m ll Hne Hreg).
  rewrite (mapM_map_Some _ (fun level => concat (map f level))).
  - simpl. rewrite map_map. apply torch_cat_nonempty.
    destruct m; [lia|]. simpl. discriminate.
  - intros level Hin. apply in_map_iff in Hin. destruct Hin as [i [<- Hi]].
    apply in_seq in Hi. apply torch_cat_nonempty.
    intros Hnil. apply map_eq_nil in Hnil. revert Hnil.
    apply column_nonempty; [exact Hne|].
    eapply Forall_impl; [|exact Hreg]. intros l Hl. simpl in Hl. lia.
Qed.

Lemma length_concat_seq {A} (h : nat -> list A) (c : nat) (lens : list nat) :
  (forall i k, nth_error lens i = Some k -> length (h i) = (c * k)%nat) ->
  length (concat (map h (seq 0 (length lens)))) = (c * list_sum lens)%nat.
Proof.
  induction lens as [|k lens IH] using rev_ind; intros H; [simpl; lia|].
  rewrite length_app. cbn [length]. rewrite Nat.add_1_r, seq_S, map_app, concat_app.
  rewrite length_app. cbn [map concat Nat.add]. rewrite app_nil_r.
  rewrite IH.
  - rewrite (H (length lens) k).
    + rewrite list_sum_app. simpl. lia.
    + rewrite nth_error_app2 by lia. rewrite Nat.sub_diag. reflexivity.
  - intros i k' Hi. apply H. rewrite nth_error_app1; [exact Hi|].
    apply nth_error_Some. congruence.
Qed.

Lemma flatten_levels_length {T A} (f : T -> list A) (lens : list nat)
    (ll : list (list T)) :
  ll <> [] -> (1 <= length lens)%nat ->
  Forall (fun l => Forall2 (fun k t => length (f t) = k) lens l) ll ->
  exists x, flatten_levels f ll = Some x
            /\ length x = (length ll * list_sum lens)%nat.
Proof.
  intros Hne Hm H.
  assert (Hreg : Forall (fun l => length l = length lens) ll).
  { eapply Forall_impl; [|exact H]. intros l Hl. simpl in Hl.
    symmetry. eapply Forall2_length; exact Hl. }
  rewrite (flatten_levels_regular f (length lens) ll Hne Hm Hreg).
  eexists. split; [reflexivity|].
  apply length_concat_seq. intros i k Hk.
  apply column_concat_length.
  eapply Forall_impl; [|exact H]. intros l Hl. simpl in Hl.
  clear - Hl Hk. revert i Hk. induction Hl as [|k' t lens l Hkt _ IH]; intros [|i] Hk;
    simpl in *; try discriminate.
  - inversion Hk; subst. eauto.
  - apply IH; exact Hk.
Qed.

Lemma length_flat_map_const {A B} (f : A -> list B) (l : list A) (w : nat) :
  (forall a, length (f a) = w) -> length (flat_map f l) = (length l * w)%nat.
Proof.
  intros H. induction l as [|a l IH]; simpl; [reflexivity|].
  rewrite length_app, H, IH. reflexivity.
Qed.

Lemma flatten2_length {A} (t : tensor2 A) :
  length (flatten2 t) = (fst (shape2 t) * snd (shape2 t))%nat.
Proof.
  unfold flatten2. rewrite (length_flat_map_const _ _ (snd (shape2 t))).
  - rewrite length_seq. reflexivity.
  - intros r. rewrite length_map, length_seq. reflexivity.
Qed.

Lemma zip3_length {A B C} (la : list A) (lb : list B) (lc : list C) :
  length lb = length la -> length lc = length la ->
  length (zip3 la lb lc) = length la.
Proof.
  revert lb lc; induction la as [|a la IH]; intros [|b lb] [|c lc] Hb Hc;
    simpl in *; try discriminate; [reflexivity|].
  f_equal. apply IH; lia.
Qed.

Lemma label_sizes_length (temp : Z) (l : list (list Z)) :
  length (label_sizes temp l) = length l.
Proof.
  revert temp; induction l as [|x l IH]; intros temp; simpl; [reflexivity|].
  rewrite IH; reflexivity.
Qed.

Lemma Forall2_nth_error {A B} (R : A -> B -> Prop) (la : list A) (lb : list B)
    (i : nat) (a : A) (b : B) :
  Forall2 R la lb -> nth_error la i = Some a -> nth_error lb i = Some b -> R a b.
Proof.
  intros H. revert i. induction H as [|x y la lb Hxy _ IH]; intros [|i] Ha Hb;
    simpl in *; try discriminate.
  - inversion Ha; inversion Hb; subst. exact Hxy.
  - eapply IH; eassumption.
Qed.

Lemma multi_apply_targets_total (self : PPDetHead)
    (gt_bbox_list : list (list bbox)) (gt_label_list : list (list Z))
    (sizes : list (nat * nat)) (mem : nat -> nat -> nat -> nat -> nat -> Q) :
  (1 <= length gt_bbox_list)%nat ->
  Forall2 (fun boxes labels => (length boxes <= length labels)%nat)
          gt_bbox_list gt_label_list ->
  (length sizes <= length (base_edge_list self))%nat ->
  (length sizes <= length (scale_ranges self))%nat ->
  (length sizes <= length (strides self))%nat ->
  exists label_list bbox_target_list gt_ids_list,
    multi_apply_targets self gt_bbox_list gt_label_list sizes (get_points sizes) mem
    = Some (label_list, bbox_target_list, gt_ids_list)
    /\ length label_list = length gt_bbox_list
    /\ length bbox_target_list = length gt_bbox_list
    /\ length gt_ids_list = length gt_bbox_list
    /\ Forall (fun LL => Forall2 (fun k L => length (flatten2 L) = k)
                                 (level_cells sizes) LL) label_list
    /\ Forall (fun BL => length BL = length sizes) bbox_target_list
    /\ Forall (fun GL => length GL = length sizes) gt_ids_list.
Proof.
  intros Hn Hbl Hb Hr Hs. unfold multi_apply_targets.
  assert (Hll : length (levels_of self sizes (get_points sizes)) = length sizes).
  { rewrite <- (length_map lv_featmap_size), levels_of_sizes by assumption.
    reflexivity. }
  set (args := zip3 gt_bbox_list gt_label_list (label_sizes 0 gt_label_list)).
  assert (Hlen : length args = length gt_bbox_list).
  { unfold args. apply zip3_length.
    - symmetry. eapply Forall2_length; exact Hbl.
    - rewrite label_sizes_length. symmetry. eapply Forall2_length; exact Hbl. }
  assert (Hargs : forall ia, In ia (combine (seq 0 (length args)) args) ->
                    (length (fst (fst (snd ia))) <= length (snd (fst (snd ia))))%nat).
  { intros [i [[boxes labels] off]] Hin. simpl. apply in_combine_r in Hin.
    destruct (In_nth_error _ _ Hin) as [k Hk]. apply zip3_nth_error in Hk.
    destruct Hk as (H1 & H2 & _).
    exact (Forall2_nth_error _ _ _ _ _ _ Hbl H1 H2). }
  assert (Hres : exists results,
             mapM (fun ia : nat * (list bbox * list Z * Z) =>
                     ppdet_target_single self (fst (fst (snd ia)))
                       (snd (fst (snd ia))) (snd (snd ia)) sizes (get_points sizes)
                       (mem (fst ia)))
                  (combine (seq 0 (length args)) args) = Some results).
  { apply mapM_total. apply Forall_forall. intros ia Hin.
    destruct (ppdet_target_single_total self (fst (fst (snd ia)))
                (snd (fst (snd ia))) (snd (snd ia)) sizes (mem (fst ia))
                (Hargs ia Hin)) as (LL & BL & GL & H & _).
    eauto. }
  destruct Hres as [results Hres]. rewrite Hres. simpl.
  pose proof (mapM_length _ _ _ Hres) as Hrl.
  rewrite length_combine, length_seq, Nat.min_id, Hlen in Hrl.
  assert (Hne : Nat.eqb (length results) 0 = false) by (apply Nat.eqb_neq; lia).
  rewrite Hne. simpl. do 3 eexists. split; [reflexivity|].
  rewrite !length_map. repeat split; try exact Hrl.
  - apply Forall_map. apply mapM_Forall_out in Hres.
    eapply Forall_impl; [|exact Hres].
    intros [[LL BL] GL] [ia [Hin Hf]]. simpl.
    destruct (ppdet_target_single_total self (fst (fst (snd ia)))
                (snd (fst (snd ia))) (snd (snd ia)) sizes (mem (fst ia))
                (Hargs ia Hin)) as (LL' & BL' & GL' & H & Hsh & _).
    rewrite H in Hf. inversion Hf; subst.
    unfold level_cells. rewrite <- (levels_of_sizes self sizes Hb Hr Hs) at 1.
    rewrite map_map.
    clear - Hsh. induction Hsh as [|lv L lvs LL Hl _ IH]; simpl; constructor; auto.
    rewrite flatten2_length, Hl. reflexivity.
  - apply Forall_map. apply mapM_Forall_out in Hres.
    eapply Forall_impl; [|exact Hres].
    intros [[LL BL] GL] [ia [Hin Hf]]. simpl.
    destruct (ppdet_target_single_total self (fst (fst (snd ia)))
                (snd (fst (snd ia))) (snd (snd ia)) sizes (mem (fst ia))
                (Hargs ia Hin)) as (LL' & BL' & GL' & H & Hsh & HB & _).
    rewrite H in Hf. inversion Hf; subst.
    rewrite HB, <- (Forall2_length Hsh). exact Hll.
  - apply Forall_map. apply mapM_Forall_out in Hres.
    eapply Forall_impl; [|exact Hres].
    intros [[LL BL] GL] [ia [Hin Hf]]. simpl.
    destruct (ppdet_target_single_total self (fst (fst (snd ia)))
                (snd (fst (snd ia))) (snd (snd ia)) sizes (mem (fst ia))
                (Hargs ia Hin)) as (LL' & BL' & GL' & H & Hsh & _ & HG).
    rewrite H in Hf. inversion Hf; subst.
    rewrite HG, <- (Forall2_length Hsh). exact Hll.
Qed.

Lemma permute_reshape_total {A} (t : tensor4 A) (cols : Z) :
  0 < cols -> snd (fst (fst (shape4 t))) = Z.to_nat cols ->
  exists rows, permute_reshape t cols = Some rows
               /\ length rows
                  = (fst (fst (fst (shape4 t)))
                     * (snd (fst (shape4 t)) * snd (shape4 t)))%nat.
Proof.
  intros Hc Hch. unfold permute_reshape. rewrite Hch.
  assert (Hk : Z.to_nat cols <> 0%nat) by lia.
  assert (Hlt : (0 <? cols) = true) by (apply Z.ltb_lt; exact Hc).
  rewrite Hlt, Nat.Div0.mod_mul. simpl.
  eexists. split; [reflexivity|].
  rewrite length_map, length_seq, Nat.div_mul by exact Hk. lia.
Qed.

Lemma permute_reshape_all (cols : Z) (n : nat) (ts : list (tensor4 Q)) :
  0 < cols ->
  Forall (fun t => fst (fst (fst (shape4 t))) = n
                   /\ snd (fst (fst (shape4 t))) = Z.to_nat cols) ts ->
  exists rows_l,
    mapM (fun t => permute_reshape t cols) ts = Some rows_l
    /\ length (concat rows_l)
       = (n * list_sum (level_cells
                          (map (fun t => (snd (fst (shape4 t)), snd (shape4 t))) ts)))%nat.
Proof.
  intros Hc. induction 1 as [|t ts [Hn Hch] _ IH]; simpl.
  - exists []. split; [reflexivity|]. simpl. lia.
  - destruct (permute_reshape_total t cols Hc Hch) as (rows & Hr & Hl).
    destruct IH as (rows_l & Hrl & Hll).
    rewrite Hr, Hrl. simpl. eexists. split; [reflexivity|].
    simpl. rewrite length_app, Hl, Hll, Hn. lia.
Qed.

Lemma nonempty_length {A} (l : list A) : (1 <= length l)%nat -> l <> [].
Proof. destruct l; simpl; [lia | discriminate]. Qed.

Lemma nth_error_0_total {A} (l : list A) :
  (1 <= length l)%nat -> exists a, nth_error l 0 = Some a /\ In a l.
Proof. destruct l as [|a l]; simpl; [lia | eexists; eauto]. Qed.

(** On a well-formed batch the flattening stage of [loss] returns, and
    there is one score row per label cell. *)
Lemma loss_flatten_total (self : PPDetHead)
    (cls_scores bbox_preds : list (tensor4 Q))
    (gt_bbox_list : list (list bbox)) (gt_label_list : list (list Z))
    (mem : nat -> nat -> nat -> nat -> nat -> Q) :
  wf_batch self cls_scores bbox_preds gt_bbox_list gt_label_list ->
  exists fb,
    loss_flatten self cls_scores bbox_preds gt_bbox_list gt_label_list mem = Some fb
    /\ length (flatten_labels fb) = length (flatten_cls_scores fb)
    /\ num_imgs fb = Z.of_nat (length gt_bbox_list).
Proof.
  intros (Hn & Hlv & Hbl & Hb & Hr & Hs & Hc & Hsh).
  unfold loss_flatten.
  set (sizes := map (fun featmap : tensor4 Q =>
                       (snd (fst (shape4 featmap)), snd (shape4 featmap)))
                    cls_scores).
  assert (Hsz : length sizes = length cls_scores) by (unfold sizes; apply length_map).
  rewrite (Forall2_length Hsh), Nat.eqb_refl. cbn [assert obind].
  destruct (nth_error_0_total bbox_preds) as (b0 & Hb0 & _);
    [rewrite <- (Forall2_length Hsh); exact Hlv|].
  rewrite Hb0. cbn [obind].
  rewrite (torch_cat_nonempty gt_label_list)
    by (apply nonempty_length; rewrite <- (Forall2_length Hbl); exact Hn).
  cbn [obind].
  destruct (multi_apply_targets_total self gt_bbox_list gt_label_list sizes mem)
    as (label_list & bbox_target_list & gt_ids_list & Hm & Hl1 & Hl2 & Hl3
        & Hlab & Hbt & Hid); try lia; try assumption.
  rewrite Hm. cbn [obind].
  destruct (flatten_levels_length flatten2 (level_cells sizes) label_list)
    as (labels & Hlabels & Hlablen).
  { apply nonempty_length; lia. }
  { unfold level_cells. rewrite length_map. lia. }
  { exact Hlab. }
  rewrite Hlabels. cbn [obind].
  rewrite (flatten_levels_regular reshape_rows4 (length sizes) bbox_target_list)
    by (try (apply nonempty_length); try lia; assumption).
  cbn [obind].
  rewrite (flatten_levels_regular flatten2 (length sizes) gt_ids_list)
    by (try (apply nonempty_length); try lia; assumption).
  cbn [obind].
  destruct (nth_error_0_total cls_scores Hlv) as (c0 & Hc0 & Hin0).
  rewrite Hc0. cbn [obind].
  destruct (permute_reshape_all (cls_out_channels self) (length gt_bbox_list)
              cls_scores Hc) as (scores_l & Hsc & Hscl).
  { clear - Hsh. induction Hsh as [|c b cs bs (H1 & H2 & _) _ IH]; constructor; auto. }
  rewrite Hsc. cbn [obind].
  destruct (permute_reshape_all 4 (length gt_bbox_list) bbox_preds) as (preds_l & Hpr & _);
    [lia| |].
  { clear - Hsh. induction Hsh as [|c b cs bs (_ & _ & H3 & H4 & _) _ IH];
      constructor; auto. }
  rewrite Hpr. cbn [obind].
  rewrite (torch_cat_nonempty scores_l)
    by (apply nonempty_length; rewrite (mapM_length _ _ _ Hsc); exact Hlv).
  cbn [obind].
  rewrite (torch_cat_nonempty preds_l)
    by (apply nonempty_length; rewrite (mapM_length _ _ _ Hpr),
          <- (Forall2_length Hsh); exact Hlv).
  cbn [obind].
  eexists. split; [reflexivity|]. simpl.
  split.
  - rewrite Hlablen, Hscl, Hl1. reflexivity.
  - f_equal.
    assert (Hall : Forall (fun c => fst (fst (fst (shape4 c))) = length gt_bbox_list)
                          cls_scores).
    { clear - Hsh. induction Hsh as [|c b cs bs (H1 & _) _ IH]; constructor; auto. }
    rewrite Forall_forall in Hall. apply Hall. exact Hin0.
Qed.

(** ** A batch without positive cells *)

Lemma nonzero_from_nil {A} (cond : A -> bool) (l : list A) (s : nat) :
  Forall (fun a => cond a = false) l -> nonzero_from cond s l = [].
Proof.
  intros H. revert s. induction H as [|a l Ha _ IH]; intros s; simpl; [reflexivity|].
  rewrite Ha. apply IH.
Qed.

Lemma nonzero_in_range {A} (cond : A -> bool) (l : list A) :
  Forall (fun j => (j < length l)%nat) (nonzero cond l).
Proof.
  apply Forall_forall. intros j Hj. apply nonzero_In in Hj.
  destruct Hj as [a [Ha _]]. apply nth_error_Some. congruence.
Qed.

Lemma agg_fold_no_hit (ids : list Z) (scores : list (list Q)) (l : list (nat * Z))
    (st : list Z * list (list Q) * Z) :
  Forall (fun g => g = -1) ids ->
  fold_left (agg_step ids scores) l (Some st) = Some st.
Proof.
  intros Hids. induction l as [|ic l IH]; [reflexivity|].
  cbn [fold_left]. destruct st as [[al asc] n].
  assert (Hstep : agg_step ids scores (Some (al, asc, n)) ic = Some (al, asc, n)).
  { unfold agg_step. cbn [obind]. unfold nonzero.
    rewrite nonzero_from_nil; [reflexivity|].
    eapply Forall_impl; [|exact Hids].
    intros g Hg. simpl in Hg. subst g. apply Z.eqb_neq. lia. }
  rewrite Hstep. exact IH.
Qed.

Lemma filter_all_false {A} (f : A -> bool) (l : list A) :
  (forall a, In a l -> f a = false) -> filter f l = [].
Proof.
  induction l as [|a l IH]; intros H; simpl; [reflexivity|].
  rewrite (H a) by (left; reflexivity). apply IH. intros; apply H; right; assumption.
Qed.

Section ZeroPositives.

Variable loss_cls_fn : list (list Q) -> list Z -> Z -> R.
Variable loss_bbox_fn : list (list Q) -> list (list R) -> list (list R) -> Z -> R.

(** C7.  On a well-formed batch whose ground-truth labels are foreground
    class ids and in which no cell has a label above 0, [loss] returns;
    its regression loss is 0, and its classification loss is computed
    from the negative cells alone, which are all the cells, with the
    number of images as [avg_factor]. *)
Theorem zero_positive_loss (self : PPDetHead)
    (cls_scores bbox_preds : list (tensor4 Q))
    (gt_bbox_list : list (list bbox)) (gt_label_list : list (list Z))
    (mem : nat -> nat -> nat -> nat -> nat -> Q) :
  wf_batch self cls_scores bbox_preds gt_bbox_list gt_label_list ->
  (forall labels lab, In labels gt_label_list -> In lab labels -> 1 <= lab) ->
  (forall fb,
      loss_flatten self cls_scores bbox_preds gt_bbox_list gt_label_list mem
      = Some fb ->
      Forall (fun l => ~ 0 < l) (flatten_labels fb)) ->
  exists fb,
    loss_flatten self cls_scores bbox_preds gt_bbox_list gt_label_list mem
    = Some fb
    /\ loss loss_cls_fn loss_bbox_fn self cls_scores bbox_preds gt_bbox_list
            gt_label_list mem
       = Some (mk_losses
                 (loss_cls_fn (map fst (neg_rows fb)) (map snd (neg_rows fb))
                              (0 + Z.of_nat (length gt_bbox_list)))
                 0%R)
    /\ hit_rows fb = []
    /\ length (neg_rows fb) = length (flatten_labels fb).
Proof.
  intros Hwf Hlab Hzero.
  destruct (loss_flatten_total self cls_scores bbox_preds gt_bbox_list
              gt_label_list mem Hwf) as (fb & Hfb & Hlen & Hnum).
  specialize (Hzero fb Hfb).
  pose proof (loss_flatten_cells _ _ _ _ _ _ _ Hfb) as Hcells.
  assert (Hboth : Forall (fun l => l = 0) (flatten_labels fb)
                  /\ Forall (fun g => g = -1) (flatten_ids fb)).
  { clear - Hcells Hzero Hlab.
    induction Hcells as [|l g ls gs Hc _ IH].
    - split; constructor.
    - inversion Hzero as [|? ? Hl Hrest]; subst.
      destruct (IH Hrest) as [IH1 IH2].
      destruct Hc as [[-> ->] | [_ [labels [H1 H2]]]].
      + split; constructor; auto.
      + exfalso. apply Hl. pose proof (Hlab _ _ H1 H2). lia. }
  destruct Hboth as [Hl0 Hg].
  set (neg_inds := nonzero (fun l => l <=? 0) (flatten_labels fb)).
  destruct (index_list_total (flatten_labels fb) neg_inds) as [nl Hnl];
    [apply nonzero_in_range|].
  destruct (index_list_total (flatten_cls_scores fb) neg_inds) as [ns Hns].
  { rewrite <- Hlen. apply nonzero_in_range. }
  assert (Enl : nl = map snd (neg_rows fb)).
  { rewrite (index_list_map _ _ _ 0 Hnl). unfold neg_rows. rewrite map_map.
    apply map_ext_in. intros j Hj. simpl.
    apply nonzero_In in Hj. destruct Hj as [v [Hv _]].
    rewrite (nth_error_nth _ _ _ Hv).
    rewrite Forall_forall in Hl0. apply Hl0. eapply nth_error_In; exact Hv. }
  assert (Ens : ns = map fst (neg_rows fb)).
  { rewrite (index_list_map _ _ _ [] Hns). unfold neg_rows. rewrite map_map.
    reflexivity. }
  assert (Hagg : aggregate fb = Some (nl, ns, 0)).
  { unfold aggregate. fold neg_inds. rewrite Hnl, Hns. cbn [obind].
    apply agg_fold_no_hit. exact Hg. }
  assert (Hreg : regression_loss loss_bbox_fn fb = Some 0%R).
  { unfold regression_loss. unfold nonzero. rewrite nonzero_from_nil; [reflexivity|].
    eapply Forall_impl; [|exact Hl0]. intros l Hl. simpl in Hl. subst l. reflexivity. }
  exists fb. split; [exact Hfb|]. split; [|split].
  - unfold loss. rewrite Hfb. cbn [obind]. rewrite Hagg. cbn [obind].
    rewrite Hreg. cbn [obind]. rewrite Hnum, Enl, Ens. reflexivity.
  - unfold hit_rows, hit_instances.
    rewrite filter_all_false; [reflexivity|].
    intros ic _. unfold instance_cells, nonzero.
    rewrite nonzero_from_nil; [reflexivity|].
    eapply Forall_impl; [|exact Hg].
    intros g Hg'. simpl in Hg'. subst g. apply Z.eqb_neq. lia.
  - unfold neg_rows. rewrite length_map.
    clear - Hl0. unfold nonzero. generalize 0%nat.
    induction Hl0 as [|l ls Hl _ IH]; intros s; simpl; [reflexivity|].
    subst l. simpl. rewrite IH. reflexivity.
Qed.

End ZeroPositives.

(** A batch whose only box is selected by no level. *)
Lemma zero_positive_loss_witness :
  exists fb,
    loss_flatten head2 cls_scores2 bbox_preds2 [[box2]] [[1]] (fun _ => zero_mem)
    = Some fb
    /\ loss count_loss_cls count_loss_bbox head2 cls_scores2 bbox_preds2
            [[box2]] [[1]] (fun _ => zero_mem)
       = Some (mk_losses
                 (count_loss_cls (map fst (neg_rows fb)) (map snd (neg_rows fb))
                                 (0 + Z.of_nat (length [[box2]])))
                 0%R)
    /\ hit_rows fb = []
    /\ length (neg_rows fb) = length (flatten_labels fb).
Proof.
  apply (zero_positive_loss count_loss_cls count_loss_bbox head2 cls_scores2
           bbox_preds2 [[box2]] [[1]] (fun _ => zero_mem)).
  - unfold wf_batch. simpl. repeat split; try lia; repeat constructor.
  - intros labels lab [<- | []] [<- | []]. lia.
  - intros fb Hfb.
    assert (H : option_map flatten_labels
                  (loss_flatten head2 cls_scores2 bbox_preds2 [[box2]] [[1]]
                                (fun _ => zero_mem))
                = Some (repeat 0 80)) by (vm_compute; reflexivity).
    rewrite Hfb in H. simpl in H. inversion H as [H'].
    apply Forall_forall. intros l Hl. rewrite H' in Hl.
    pose proof (repeat_spec 80 0 l Hl). lia.
Defined.

(** * Further properties *)

(** ** The target builder on its edge cases *)

Lemma mapM_None_In {A B} (f : A -> option B) (l : list A) (a : A) :
  In a l -> f a = None -> mapM f l = None.
Proof.
  induction l as [|x l IH]; intros Hin Hf; [destruct Hin|].
  simpl. destruct Hin as [-> | Hin].
  - rewrite Hf. reflexivity.
  - destruct (f x); [|reflexivity]. simpl. rewrite (IH Hin Hf). reflexivity.
Qed.

Lemma nth_error_combine_seq_intro {A} (l : list A) (s i : nat) (a : A) :
  nth_error l i = Some a ->
  nth_error (combine (seq s (length l)) l) i = Some ((s + i)%nat, a).
Proof.
  revert s i; induction l as [|b l IH]; intros s [|i] H; simpl in *;
    try discriminate.
  - inversion H; subst. rewrite Nat.add_0_r. reflexivity.
  - rewrite (IH (S s) i H). do 2 f_equal. lia.
Qed.

(** X1.  For an image without ground-truth boxes the target builder returns,
    whatever the labels, the offset and the point grids are: every level
    gets a grid of the size of its feature map with label 0 and instance id
    -1 in every cell. *)
Theorem no_boxes_all_background (self : PPDetHead) (labels : list Z) (off : Z)
    (sizes : list (nat * nat)) (points : list (tensor2 Q * tensor2 Q))
    (mem : nat -> nat -> nat -> nat -> Q) :
  exists LL BL GL,
    ppdet_target_single self [] labels off sizes points mem = Some (LL, BL, GL)
    /\ Forall2 (fun lv L => shape2 L = lv_featmap_size lv /\ forall r c, at2 L r c = 0)
               (levels_of self sizes points) LL
    /\ Forall2 (fun lv G => shape2 G = lv_featmap_size lv /\ forall r c, at2 G r c = -1)
               (levels_of self sizes points) GL
    /\ length BL = length LL.
Proof.
  unfold ppdet_target_single. fold (levels_of self sizes points).
  set (levels := levels_of self sizes points).
  set (res := fun il : nat * level_args =>
                (mk_tensor2 (lv_featmap_size (snd il)) (fun _ _ : nat => 0),
                 mk_tensor3 (fst (lv_featmap_size (snd il)),
                             snd (lv_featmap_size (snd il)), 4%nat)
                            (fun r c k => torch_log (mem (fst il) r c k + 1)),
                 mk_tensor2 (lv_featmap_size (snd il)) (fun _ _ : nat => 0 - 1))).
  rewrite (mapM_map_Some _ res).
  - cbn [obind]. do 3 eexists. split; [reflexivity|].
    rewrite !map_map, !length_map. split; [|split; [|reflexivity]].
    + generalize 0%nat. induction levels as [|lv levels IH]; intros s; simpl;
        constructor; auto.
    + generalize 0%nat. induction levels as [|lv levels IH]; intros s; simpl;
        constructor; auto.
  - intros [i lv] _. unfold target_level, res. simpl.
    destruct (lv_points lv) as [y x]. reflexivity.
Qed.

(** X2.  Every cell of every level is either background, with label 0 and
    instance id -1, and then no selected box has it in its positive region;
    or it carries the label and the id (index plus offset) of one box that
    the level selects and whose positive region holds the cell.  A box that
    no level selects therefore appears in no grid. *)
Theorem cell_assignment_sound (self : PPDetHead) (boxes : list bbox)
    (labels : list Z) (off : Z) (sizes : list (nat * nat))
    (points : list (tensor2 Q * tensor2 Q)) (mem : nat -> nat -> nat -> nat -> Q)
    (LL : list (tensor2 Z)) (BL : list (tensor3 R)) (GL : list (tensor2 Z))
    (lvl : nat) (lv : level_args) (L : tensor2 Z) (B : tensor3 R) (G : tensor2 Z)
    (r c : nat) :
  ppdet_target_single self boxes labels off sizes points mem = Some (LL, BL, GL) ->
  nth_error (levels_of self sizes points) lvl = Some lv ->
  nth_error LL lvl = Some L -> nth_error BL lvl = Some B ->
  nth_error GL lvl = Some G ->
  (at2 L r c = 0 /\ at2 G r c = -1
   /\ forall i b, nth_error boxes i = Some b ->
        hit (fst (lv_range lv)) (snd (lv_range lv)) b = true ->
        covers (pos_region (sigma self) (lv_stride lv) (lv_featmap_size lv) b) r c
        = false)
  \/ (exists i b,
        nth_error boxes i = Some b
        /\ hit (fst (lv_range lv)) (snd (lv_range lv)) b = true
        /\ covers (pos_region (sigma self) (lv_stride lv) (lv_featmap_size lv) b) r c
           = true
        /\ nth_error labels i = Some (at2 L r c)
        /\ at2 G r c = Z.of_nat i + off).
Proof.
  intros Hs Hlv HL HB HG.
  destruct (ppdet_target_single_nth _ _ _ _ _ _ _ _ _ _ lvl Hs L B G HL HB HG)
    as (lv' & Hlv' & Ht).
  assert (lv' = lv) by congruence. subst lv'.
  destruct (target_level_cells _ _ _ _ _ _ _ _ _ Ht) as (_ & _ & Hc).
  destruct (Hc r c) as [Hl Hg]. rewrite Hl, Hg.
  destruct (last_painter _ _ r c) as [it|] eqn:E.
  - right. apply find_some in E. destruct E as [Hin Hp]. apply in_rev in Hin.
    destruct (level_items_In _ _ _ _ _ Hin) as (Hreg & Hlab & Hbox & Hhit).
    rewrite (painted_covers (sigma self) (lv_stride lv)) in Hp by exact Hreg.
    rewrite Hreg in Hp.
    exists (item_id it), (item_box it). auto.
  - left. split; [reflexivity|]. split; [reflexivity|].
    intros i b Hb Hh.
    destruct (target_level_index _ _ _ _ _ _ _ Ht) as [gl Hgl].
    destruct (level_items_complete (sigma self) _ _ _ _ _ _ Hgl Hb Hh)
      as (it & Hin & Hid & Hbox).
    destruct (level_items_In _ _ _ _ _ Hin) as (Hreg & _).
    apply in_rev in Hin.
    pose proof (find_none _ _ E _ Hin) as Hp. simpl in Hp.
    rewrite (painted_covers (sigma self) (lv_stride lv)) in Hp by exact Hreg.
    rewrite Hreg, Hbox in Hp. exact Hp.
Qed.

(** The cell (2, 2) of the first level of [head2] with [box24] and [box16]. *)
Lemma cell_assignment_sound_witness :
  exists LL BL GL L B G,
    ppdet_target_single head2 [box24; box16] [1; 2] 0 sizes2 (get_points sizes2)
                        zero_mem = Some (LL, BL, GL)
    /\ nth_error LL 0 = Some L /\ nth_error BL 0 = Some B
    /\ nth_error GL 0 = Some G
    /\ ((at2 L 2 2 = 0 /\ at2 G 2 2 = -1
         /\ forall i b, nth_error [box24; box16] i = Some b ->
              hit (fst (lv_range level0)) (snd (lv_range level0)) b = true ->
              covers (pos_region (sigma head2) (lv_stride level0)
                                 (lv_featmap_size level0) b) 2 2 = false)
        \/ (exists i b,
              nth_error [box24; box16] i = Some b
              /\ hit (fst (lv_range level0)) (snd (lv_range level0)) b = true
              /\ covers (pos_region (sigma head2) (lv_stride level0)
                                    (lv_featmap_size level0) b) 2 2 = true
              /\ nth_error [1; 2] i = Some (at2 L 2 2)
              /\ at2 G 2 2 = Z.of_nat i + 0)).
Proof.
  destruct (is_some_true
              (ppdet_target_single head2 [box24; box16] [1; 2] 0 sizes2
                 (get_points sizes2) zero_mem))
    as [[[LL BL] GL] E]; [vm_compute; reflexivity|].
  destruct (ppdet_target_single_level _ _ _ _ _ _ _ _ _ _ 0%nat level0 E)
    as (L & B & G & EL & EB & EG); [reflexivity|].
  exists LL, BL, GL, L, B, G.
  split; [exact E|]. split; [exact EL|]. split; [exact EB|]. split; [exact EG|].
  apply (cell_assignment_sound head2 [box24; box16] [1; 2] 0 sizes2
           (get_points sizes2) zero_mem LL BL GL 0%nat level0 L B G 2%nat 2%nat E);
    try reflexivity; assumption.
Defined.

Lemma index_list_None_In {A} (t : list A) (idx : list nat) (i : nat) :
  In i idx -> nth_error t i = None -> index_list t idx = None.
Proof. intros Hin Hn. unfold index_list. eapply mapM_None_In; eassumption. Qed.

(** X3.  A selected box without a label raises: when a level selects the
    box of index [i] and [gt_labels_raw] has at most [i] entries, the target
    builder does not return. *)
Theorem selected_box_without_label (self : PPDetHead) (boxes : list bbox)
    (labels : list Z) (off : Z) (sizes : list (nat * nat))
    (points : list (tensor2 Q * tensor2 Q)) (mem : nat -> nat -> nat -> nat -> Q)
    (lvl : nat) (lv : level_args) (i : nat) (b : bbox) :
  nth_error (levels_of self sizes points) lvl = Some lv ->
  nth_error boxes i = Some b ->
  hit (fst (lv_range lv)) (snd (lv_range lv)) b = true ->
  (length labels <= i)%nat ->
  ppdet_target_single self boxes labels off sizes points mem = None.
Proof.
  intros Hlv Hb Hh Hlen. unfold ppdet_target_single.
  fold (levels_of self sizes points).
  rewrite (mapM_None_In _ _ (lvl, lv)); [reflexivity| |].
  - apply nth_error_In with (n := lvl).
    apply (nth_error_combine_seq_intro _ 0 lvl lv Hlv).
  - simpl. unfold target_level. destruct (lv_points lv) as [y x].
    assert (Hin : In (i, b) (hit_indices (fst (lv_range lv)) (snd (lv_range lv)) boxes))
      by (apply hit_indices_In; auto).
    destruct (Nat.eqb _ 0) eqn:E.
    + apply Nat.eqb_eq in E.
      destruct (hit_indices _ _ boxes); [destruct Hin | discriminate].
    + fold (level_hits boxes lv).
      rewrite (index_list_None_In labels _ i); [reflexivity| |].
      * apply in_map_iff. exists (i, b). split; [reflexivity|].
        apply level_hits_In. auto.
      * apply nth_error_None. exact Hlen.
Qed.

Lemma selected_box_without_label_witness :
  ppdet_target_single head2 [box24; box16] [1] 0 sizes2 (get_points sizes2)
                      zero_mem = None.
Proof.
  apply (selected_box_without_label head2 [box24; box16] [1] 0 sizes2
           (get_points sizes2) zero_mem 0%nat level0 1%nat box16);
    try reflexivity; simpl; lia.
Defined.

(** ** Where the positive region lies *)

Lemma ceil_bound_interior (x : Q) (n c : nat) :
  clampZ (Qceiling x) 0 (Z.of_nat n - 1) <= Z.of_nat c ->
  Z.of_nat c < Z.of_nat n - 1 ->
  (x <= inject_Z (Z.of_nat c))%Q.
Proof.
  unfold clampZ. intros H1 H2.
  assert (H : Qceiling x <= Z.of_nat c) by lia.
  rewrite Zle_Qle in H. eapply Qle_trans; [apply Qle_ceiling | exact H].
Qed.

Lemma floor_bound_interior (x : Q) (n c : nat) :
  Z.of_nat c <= clampZ (Qfloor x) 0 (Z.of_nat n - 1) ->
  0 < Z.of_nat c ->
  (inject_Z (Z.of_nat c) <= x)%Q.
Proof.
  unfold clampZ. intros H1 H2.
  assert (H : Z.of_nat c <= Qfloor x) by lia.
  rewrite Zle_Qle in H. eapply Qle_trans; [exact H | apply Qfloor_le].
Qed.

(** One axis: a cell between the clamped bounds, not on the border, has its
    centre within the box. *)
Lemma axis_inside (sigma s g1 g2 : Q) (n c : nat) :
  (0 < s)%Q -> (0 <= sigma)%Q -> (sigma <= 1)%Q -> (g1 <= g2)%Q ->
  clampZ (Qceiling (g1 / s + (1 - sigma) * (half * (g2 / s - g1 / s)) - half))
         0 (Z.of_nat n - 1) <= Z.of_nat c ->
  Z.of_nat c <= clampZ (Qfloor (g1 / s + (1 + sigma) * (half * (g2 / s - g1 / s))
                                - half))
                       0 (Z.of_nat n - 1) ->
  0 < Z.of_nat c < Z.of_nat n - 1 ->
  (g1 <= s * cell_center c)%Q /\ (s * cell_center c <= g2)%Q.
Proof.
  intros Hs Hs0 Hs1 Hg Hl Hr [Hc0 Hc1].
  apply ceil_bound_interior in Hl; [|exact Hc1].
  apply floor_bound_interior in Hr; [|exact Hc0].
  assert (Hne : ~ (s == 0)%Q) by (intros E; rewrite E in Hs; discriminate).
  pose proof (Qmult_div_r g1 s Hne) as E1.
  pose proof (Qmult_div_r g2 s Hne) as E2.
  unfold cell_center.
  set (u1 := (g1 / s)%Q) in *. set (u2 := (g2 / s)%Q) in *.
  set (cc := inject_Z (Z.of_nat c)) in *. unfold half in *.
  clearbody u1 u2 cc.
  assert (Hu : (u1 <= u2)%Q).
  { apply (Qmult_le_l _ _ s Hs). rewrite E1, E2. exact Hg. }
  assert (Hp : (0 <= sigma * (u2 - u1))%Q) by (apply Qmult_le_0_compat; Lqa.lra).
  assert (Hq : (0 <= (1 - sigma) * (u2 - u1))%Q) by (apply Qmult_le_0_compat; Lqa.lra).
  assert (A : (u1 <= cc + (1 # 2))%Q) by Lqa.lra.
  assert (B : (cc + (1 # 2) <= u2)%Q) by Lqa.lra.
  split.
  - rewrite <- E1. apply (Qmult_le_l _ _ s Hs). exact A.
  - rewrite <- E2. apply (Qmult_le_l _ _ s Hs). exact B.
Qed.

(** X4.  For a positive stride, a shrink factor between 0 and 1 and a box
    with [x1 <= x2] and [y1 <= y2], every cell of the positive region that is
    not on the border of the feature map has its centre, in image
    coordinates, inside the box; the four side distances written for it are
    therefore nonnegative when the base edge length is positive. *)
Theorem interior_cell_inside_box (sigma : Q) (stride : Z) (fs : nat * nat)
    (b : bbox) (r c : nat) (base_len : Q) :
  0 < stride -> (0 <= sigma)%Q -> (sigma <= 1)%Q ->
  (bx1 b <= bx2 b)%Q -> (by1 b <= by2 b)%Q -> (0 < base_len)%Q ->
  covers (pos_region sigma stride fs b) r c = true ->
  0 < Z.of_nat c < Z.of_nat (snd fs) - 1 ->
  0 < Z.of_nat r < Z.of_nat (fst fs) - 1 ->
  (bx1 b <= inject_Z stride * cell_center c)%Q
  /\ (inject_Z stride * cell_center c <= bx2 b)%Q
  /\ (by1 b <= inject_Z stride * cell_center r)%Q
  /\ (inject_Z stride * cell_center r <= by2 b)%Q
  /\ forall k, (0 <= spec_dist stride base_len b r c k)%Q.
Proof.
  intros Hst Hs0 Hs1 Hx Hy Hb Hcov Hc Hr.
  assert (Hs : (0 < inject_Z stride)%Q)
    by (change 0%Q with (inject_Z 0); rewrite <- Zlt_Qlt; exact Hst).
  unfold pos_region, covers in Hcov.
  rewrite !andb_true_iff, !Z.leb_le in Hcov.
  destruct Hcov as [[[Ht Hd] Hl] Hrr].
  destruct (axis_inside sigma _ _ _ _ _ Hs Hs0 Hs1 Hx Hl Hrr Hc) as [X1 X2].
  destruct (axis_inside sigma _ _ _ _ _ Hs Hs0 Hs1 Hy Ht Hd Hr) as [Y1 Y2].
  repeat split; try assumption.
  intros k. unfold spec_dist. fold (cell_center c). fold (cell_center r).
  destruct k as [|[|[|k]]]; apply Qle_shift_div_l; try exact Hb; Lqa.lra.
Qed.

Lemma interior_cell_inside_box_witness :
  (bx1 box24 <= inject_Z 4 * cell_center 2)%Q
  /\ (inject_Z 4 * cell_center 2 <= bx2 box24)%Q
  /\ (by1 box24 <= inject_Z 4 * cell_center 3)%Q
  /\ (inject_Z 4 * cell_center 3 <= by2 box24)%Q
  /\ forall k, (0 <= spec_dist 4 16 box24 3 2 k)%Q.
Proof.
  apply (interior_cell_inside_box (2 # 5) 4 (8, 8)%nat box24 3 2 16);
    try reflexivity; try (simpl; lia); try discriminate.
Defined.

Lemma int_above_half (m n : Z) (x : Q) :
  (x <= inject_Z m)%Q -> (inject_Z n - half <= x)%Q -> n <= m.
Proof.
  intros H1 H2. destruct (Z.le_gt_cases n m) as [H | H]; [exact H|].
  exfalso. assert (Hm : m + 1 <= n) by lia.
  rewrite Zle_Qle, inject_Z_plus in Hm. unfold half in *.
  change (inject_Z 1) with 1%Q in Hm. Lqa.lra.
Qed.

Lemma int_below_half (m n : Z) (x : Q) :
  (inject_Z m <= x)%Q -> (x <= inject_Z n - half)%Q -> m <= n - 1.
Proof.
  intros H1 H2. destruct (Z.le_gt_cases m (n - 1)) as [H | H]; [exact H|].
  exfalso. assert (Hm : n <= m) by lia.
  rewrite Zle_Qle in Hm. unfold half in *. Lqa.lra.
Qed.

(** One axis: a box that starts at or beyond the far edge of the map, or
    ends at or before its near edge, gets both clamped bounds on the border
    cell. *)
Lemma axis_border (sigma s g1 g2 : Q) (n : nat) :
  (1 <= n)%nat -> (0 < s)%Q -> (0 <= sigma)%Q -> (sigma <= 1)%Q -> (g1 <= g2)%Q ->
  let lo := clampZ (Qceiling (g1 / s + (1 - sigma) * (half * (g2 / s - g1 / s))
                              - half)) 0 (Z.of_nat n - 1) in
  let hi := clampZ (Qfloor (g1 / s + (1 + sigma) * (half * (g2 / s - g1 / s))
                            - half)) 0 (Z.of_nat n - 1) in
  ((inject_Z (Z.of_nat n) * s <= g1)%Q -> lo = Z.of_nat n - 1 /\ hi = Z.of_nat n - 1)
  /\ ((g2 <= 0)%Q -> lo = 0 /\ hi = 0).
Proof.
  intros Hn Hs Hs0 Hs1 Hg lo hi.
  assert (Hne : ~ (s == 0)%Q) by (intros E; rewrite E in Hs; discriminate).
  pose proof (Qmult_div_r g1 s Hne) as E1.
  pose proof (Qmult_div_r g2 s Hne) as E2.
  subst lo hi.
  set (u1 := (g1 / s)%Q) in *. set (u2 := (g2 / s)%Q) in *. clearbody u1 u2.
  assert (Hu : (u1 <= u2)%Q).
  { apply (Qmult_le_l _ _ s Hs). rewrite E1, E2. exact Hg. }
  assert (Hp : (0 <= sigma * (u2 - u1))%Q) by (apply Qmult_le_0_compat; Lqa.lra).
  assert (Hq : (0 <= (1 - sigma) * (u2 - u1))%Q)
    by (apply Qmult_le_0_compat; Lqa.lra).
  set (a := (u1 + (1 - sigma) * (half * (u2 - u1)) - half)%Q).
  set (b := (u1 + (1 + sigma) * (half * (u2 - u1)) - half)%Q).
  assert (Ha : (u1 - half <= a)%Q /\ (a <= u2 - half)%Q)
    by (unfold a, half in *; split; Lqa.lra).
  assert (Hb : (u1 - half <= b)%Q /\ (b <= u2 - half)%Q)
    by (unfold b, half in *; split; Lqa.lra).
  clearbody a b.
  pose proof (Qle_ceiling a) as Ca. pose proof (Qceiling_lt a) as Ca'.
  pose proof (Qfloor_le b) as Fb. pose proof (Qlt_floor b) as Fb'.
  split.
  - intros Hfar.
    assert (Hw : (inject_Z (Z.of_nat n) <= u1)%Q).
    { apply (Qmult_le_l _ _ s Hs). rewrite E1, Qmult_comm. exact Hfar. }
    assert (H1 : Z.of_nat n <= Qceiling a)
      by (apply (int_above_half _ _ a); [exact Ca | Lqa.lra]).
    assert (H2 : Z.of_nat n <= Qfloor b + 1).
    { apply (int_above_half _ _ b); [apply Qlt_le_weak; exact Fb' | Lqa.lra]. }
    unfold clampZ. lia.
  - intros Hnear.
    assert (Hw : (u2 <= 0)%Q).
    { apply (Qmult_le_l _ _ s Hs). rewrite E2, Qmult_0_r. exact Hnear. }
    assert (H1 : Qceiling a - 1 <= 0 - 1).
    { apply (int_below_half _ _ a); [apply Qlt_le_weak; exact Ca'|].
      change (inject_Z 0) with 0%Q. Lqa.lra. }
    assert (H2 : Qfloor b <= 0 - 1).
    { apply (int_below_half _ _ b); [exact Fb|].
      change (inject_Z 0) with 0%Q. Lqa.lra. }
    unfold clampZ. lia.
Qed.



(** ** Regression targets: bounds and round trips *)

Lemma cell_of_Some (out : option (list (tensor2 Z) * list (tensor3 R) * list (tensor2 Z)))
    (LL : list (tensor2 Z)) (BL : list (tensor3 R)) (GL : list (tensor2 Z))
    (L G : tensor2 Z) (lvl r c : nat) :
  out = Some (LL, BL, GL) -> nth_error LL lvl = Some L ->
  nth_error GL lvl = Some G ->
  cell_of out lvl r c = Some (at2 L r c, at2 G r c).
Proof.
  intros -> HL HG. unfold cell_of. cbn [obind]. rewrite HL. cbn [obind].
  rewrite HG. reflexivity.
Qed.

Lemma clampQ_range (v lo hi : Q) :
  (lo <= hi)%Q -> (lo <= clampQ v lo hi)%Q /\ (clampQ v lo hi <= hi)%Q.
Proof.
  intros H. unfold clampQ, Qmin', Qmax'.
  destruct (Qle_bool v lo) eqn:E1.
  - apply Qle_bool_iff in H. rewrite H. split; [apply Qle_refl|].
    apply Qle_bool_iff; exact H.
  - apply Qle_bool_false in E1. destruct (Qle_bool v hi) eqn:E2.
    + apply Qle_bool_iff in E2. split; [apply Qlt_le_weak; exact E1 | exact E2].
    + split; [exact H | apply Qle_refl].
Qed.

Lemma clampQ_inside (v lo hi : Q) :
  (lo <= v)%Q -> (v <= hi)%Q -> (clampQ v lo hi == v)%Q.
Proof.
  intros H1 H2. unfold clampQ, Qmin', Qmax'.
  destruct (Qle_bool v lo) eqn:E1.
  - apply Qle_bool_iff in E1. assert (E : (lo == v)%Q) by (apply Qle_antisym; assumption).
    assert (H3 : (lo <= hi)%Q) by (rewrite E; exact H2).
    apply Qle_bool_iff in H3. rewrite H3. exact E.
  - apply Qle_bool_iff in H2. rewrite H2. reflexivity.
Qed.

Lemma ln_le (x y : R) : (0 < x)%R -> (x <= y)%R -> (ln x <= ln y)%R.
Proof.
  intros Hx [Hlt | ->]; [|apply Rle_refl].
  left. apply ln_increasing; assumption.
Qed.

Lemma Q2R_sixteenth : Q2R sixteenth = (1 / 16)%R.
Proof. unfold Q2R, sixteenth; simpl; lra. Qed.

(** X6.  In a level that selects at least one box every stored regression
    target, of painted and of unpainted cells alike and whatever the fresh
    buffer held, lies between [log(1/16)] and [log(16)]. *)
Theorem hit_level_targets_bounded (self : PPDetHead) (boxes : list bbox)
    (labels : list Z) (off : Z) (sizes : list (nat * nat))
    (points : list (tensor2 Q * tensor2 Q)) (mem : nat -> nat -> nat -> nat -> Q)
    (LL : list (tensor2 Z)) (BL : list (tensor3 R)) (GL : list (tensor2 Z))
    (lvl : nat) (lv : level_args) (L : tensor2 Z) (B : tensor3 R) (G : tensor2 Z)
    (i : nat) (b : bbox) :
  ppdet_target_single self boxes labels off sizes points mem = Some (LL, BL, GL) ->
  nth_error (levels_of self sizes points) lvl = Some lv ->
  nth_error LL lvl = Some L -> nth_error BL lvl = Some B ->
  nth_error GL lvl = Some G ->
  nth_error boxes i = Some b ->
  hit (fst (lv_range lv)) (snd (lv_range lv)) b = true ->
  forall r c k, (k < 4)%nat ->
    (ln (1 / 16) <= at3 B r c k <= ln 16)%R.
Proof.
  intros Hs Hlv HL HB HG Hb Hh r c k Hk.
  destruct (ppdet_target_single_nth _ _ _ _ _ _ _ _ _ _ lvl Hs L B G HL HB HG)
    as (lv' & Hlv' & Ht).
  assert (lv' = lv) by congruence. subst lv'.
  assert (Hne : level_hits boxes lv <> []).
  { intros Hnil. assert (Hin : In (i, b) (level_hits boxes lv))
      by (apply level_hits_In; auto).
    rewrite Hnil in Hin. exact Hin. }
  rewrite (target_level_bbox _ _ _ _ _ _ _ _ _ Ht Hne r c k Hk).
  unfold torch_log.
  match goal with
  | |- (_ <= ln (Q2R (clampQ ?v _ _)) <= _)%R => set (q := v)
  end.
  destruct (clampQ_range q sixteenth 16) as [H1 H2]; [discriminate|].
  apply Qle_Rle in H1, H2. rewrite Q2R_sixteenth in H1. rewrite Q2R_16 in H2.
  split; apply ln_le; lra.
Qed.

Lemma hit_level_targets_bounded_witness :
  exists LL BL GL L B G,
    ppdet_target_single head2 [box16] [1] 0 sizes2 (get_points sizes2) stale_mem
    = Some (LL, BL, GL)
    /\ nth_error LL 0 = Some L /\ nth_error BL 0 = Some B
    /\ nth_error GL 0 = Some G
    /\ forall r c k, (k < 4)%nat -> (ln (1 / 16) <= at3 B r c k <= ln 16)%R.
Proof.
  destruct (is_some_true
              (ppdet_target_single head2 [box16] [1] 0 sizes2 (get_points sizes2)
                 stale_mem))
    as [[[LL BL] GL] E]; [vm_compute; reflexivity|].
  destruct (ppdet_target_single_level _ _ _ _ _ _ _ _ _ _ 0%nat level0 E)
    as (L & B & G & EL & EB & EG); [reflexivity|].
  exists LL, BL, GL, L, B, G.
  split; [exact E|]. split; [exact EL|]. split; [exact EB|]. split; [exact EG|].
  apply (hit_level_targets_bounded head2 [box16] [1] 0 sizes2 (get_points sizes2)
           stale_mem LL BL GL 0%nat level0 L B G 0%nat box16 E);
    try reflexivity; assumption.
Defined.

(** The exponential of the stored targets of a cell that carries a box. *)
Lemma cell_of_box_exp (self : PPDetHead) (boxes : list bbox)
    (labels : list Z) (off : Z) (sizes : list (nat * nat))
    (mem : nat -> nat -> nat -> nat -> Q)
    (LL : list (tensor2 Z)) (BL : list (tensor3 R)) (GL : list (tensor2 Z))
    (lvl : nat) (lv : level_args) (L : tensor2 Z) (B : tensor3 R) (G : tensor2 Z)
    (y x i : nat) (b : bbox) :
  0 <= off ->
  ppdet_target_single self boxes labels off sizes (get_points sizes) mem
  = Some (LL, BL, GL) ->
  nth_error (levels_of self sizes (get_points sizes)) lvl = Some lv ->
  nth_error LL lvl = Some L -> nth_error BL lvl = Some B ->
  nth_error GL lvl = Some G ->
  nth_error boxes i = Some b ->
  at2 G y x = Z.of_nat i + off ->
  forall k, (k < 4)%nat ->
    exp (at3 B y x k)
    = Q2R (clampQ (spec_dist (lv_stride lv) (lv_base_len lv) b y x k) sixteenth 16).
Proof.
  intros Hoff Hs Hlv HL HB HG Hb Hid k Hk.
  destruct (ppdet_target_single_nth _ _ _ _ _ _ _ _ _ _ lvl Hs L B G HL HB HG)
    as (lv' & Hlv' & Ht).
  assert (lv' = lv) by congruence. subst lv'.
  destruct (target_level_cells _ _ _ _ _ _ _ _ _ Ht) as (_ & _ & Hc).
  destruct (Hc y x) as [_ Hg].
  destruct (last_painter (lv_featmap_size lv)
              (level_items (sigma self) boxes labels lv) y x) as [it|] eqn:E;
    [|lia].
  destruct (painted_target_roundtrip _ _ _ _ _ _ _ _ _ _ _ _ _ _ _ _ _
              Hs Hlv HL HB HG E) as (_ & Hbox & Hexp).
  assert (Ei : item_id it = i) by lia.
  rewrite Ei in Hbox. assert (Eb : item_box it = b) by congruence.
  rewrite <- Eb. apply Hexp. exact Hk.
Qed.


(** X7.  The round trip of the encoding on painted cells: when a cell
    carries the instance id of the box of index [i] (with a nonnegative
    offset), the exponential of each stored regression channel is the
    normalised distance of the cell centre from the corresponding side of
    that box, clamped to [1/16, 16]. *)
Theorem painted_cell_roundtrip (self : PPDetHead) (boxes : list bbox)
    (labels : list Z) (off : Z) (sizes : list (nat * nat))
    (mem : nat -> nat -> nat -> nat -> Q)
    (LL : list (tensor2 Z)) (BL : list (tensor3 R)) (GL : list (tensor2 Z))
    (lvl : nat) (lv : level_args) (L : tensor2 Z) (B : tensor3 R) (G : tensor2 Z)
    (y x i : nat) (b : bbox) :
  0 <= off ->
  ppdet_target_single self boxes labels off sizes (get_points sizes) mem
  = Some (LL, BL, GL) ->
  nth_error (levels_of self sizes (get_points sizes)) lvl = Some lv ->
  nth_error LL lvl = Some L -> nth_error BL lvl = Some B ->
  nth_error GL lvl = Some G ->
  nth_error boxes i = Some b ->
  at2 G y x = Z.of_nat i + off ->
  forall k, (k < 4)%nat ->
    exp (at3 B y x k)
    = Q2R (clampQ (spec_dist (lv_stride lv) (lv_base_len lv) b y x k) sixteenth 16).
Proof.
  intros Hoff Hs Hlv HL HB HG Hb Hid k Hk.
  eapply cell_of_box_exp; eassumption.
Qed.

Lemma painted_cell_roundtrip_witness :
  exists LL BL GL L B G,
    ppdet_target_single head2 [box24; box16] [1; 2] 0 sizes2 (get_points sizes2)
                        zero_mem = Some (LL, BL, GL)
    /\ nth_error LL 0 = Some L /\ nth_error BL 0 = Some B
    /\ nth_error GL 0 = Some G
    /\ forall k, (k < 4)%nat ->
         exp (at3 B 2 2 k)
         = Q2R (clampQ (spec_dist 4 16 box16 2 2 k) sixteenth 16).
Proof.
  destruct (is_some_true
              (ppdet_target_single head2 [box24; box16] [1; 2] 0 sizes2
                 (get_points sizes2) zero_mem))
    as [[[LL BL] GL] E]; [vm_compute; reflexivity|].
  destruct (ppdet_target_single_level _ _ _ _ _ _ _ _ _ _ 0%nat level0 E)
    as (L & B & G & EL & EB & EG); [reflexivity|].
  exists LL, BL, GL, L, B, G.
  split; [exact E|]. split; [exact EL|]. split; [exact EB|]. split; [exact EG|].
  apply (painted_cell_roundtrip head2 [box24; box16] [1; 2] 0 sizes2 zero_mem
           LL BL GL 0%nat level0 L B G 2%nat 2%nat 1%nat box16);
    try reflexivity; try assumption; try lia.
  assert (H : cell_of (ppdet_target_single head2 [box24; box16] [1; 2] 0 sizes2
                         (get_points sizes2) zero_mem) 0 2 2 = Some (2, 1))
    by (vm_compute; reflexivity).
  rewrite (cell_of_Some _ _ _ _ _ _ _ _ _ E EL EG) in H.
  inversion H as [[H1 H2]]. rewrite H2. reflexivity.
Defined.

Lemma Q2R_inject_Z (z : Z) : Q2R (inject_Z z) = IZR z.
Proof. unfold Q2R, inject_Z; simpl. field. Qed.

(** X8.  Decoding inverts the encoding: when a cell carries the instance id
    of a box and its four normalised side distances lie within [1/16, 16],
    so that the clamp leaves them alone, then feeding the stored targets of
    the cell to the decoder as raw predictions (at the cell centre, with the
    stride and a nonzero base edge length of the level) gives back the
    corners of the box. *)
Theorem decode_inverts_encode (self : PPDetHead) (boxes : list bbox)
    (labels : list Z) (off : Z) (sizes : list (nat * nat))
    (mem : nat -> nat -> nat -> nat -> Q)
    (LL : list (tensor2 Z)) (BL : list (tensor3 R)) (GL : list (tensor2 Z))
    (lvl : nat) (lv : level_args) (L : tensor2 Z) (B : tensor3 R) (G : tensor2 Z)
    (y x i : nat) (b : bbox) :
  0 <= off ->
  ppdet_target_single self boxes labels off sizes (get_points sizes) mem
  = Some (LL, BL, GL) ->
  nth_error (levels_of self sizes (get_points sizes)) lvl = Some lv ->
  nth_error LL lvl = Some L -> nth_error BL lvl = Some B ->
  nth_error GL lvl = Some G ->
  nth_error boxes i = Some b ->
  at2 G y x = Z.of_nat i + off ->
  ~ (lv_base_len lv == 0)%Q ->
  (forall k, (k < 4)%nat ->
     (sixteenth <= spec_dist (lv_stride lv) (lv_base_len lv) b y x k)%Q
     /\ (spec_dist (lv_stride lv) (lv_base_len lv) b y x k <= 16)%Q) ->
  decode_point (lv_stride lv) (lv_base_len lv)
               (Q2R (cell_center y)) (Q2R (cell_center x))
               (map exp [at3 B y x 0; at3 B y x 1; at3 B y x 2; at3 B y x 3])
  = (Q2R (bx1 b), Q2R (by1 b), Q2R (bx2 b), Q2R (by2 b)).
Proof.
  intros Hoff Hs Hlv HL HB HG Hb Hid Hne Hin.
  pose proof (cell_of_box_exp _ _ _ _ _ _ _ _ _ _ _ _ _ _ _ _ _ _
                Hoff Hs Hlv HL HB HG Hb Hid) as Hexp.
  assert (Hk : forall k, (k < 4)%nat ->
             exp (at3 B y x k)
             = Q2R (spec_dist (lv_stride lv) (lv_base_len lv) b y x k)).
  { intros k Hk. rewrite (Hexp k Hk). apply Qeq_eqR.
    destruct (Hin k Hk) as [H1 H2]. apply clampQ_inside; assumption. }
  assert (Hb0 : Q2R (lv_base_len lv) <> 0%R).
  { intros E. apply Hne. apply eqR_Qeq. rewrite E, Q2R_0. reflexivity. }
  unfold decode_point. cbn [map nth].
  rewrite (Hk 0%nat), (Hk 1%nat), (Hk 2%nat), (Hk 3%nat) by lia.
  unfold spec_dist. fold (cell_center x). fold (cell_center y).
  rewrite !Q2R_div by exact Hne.
  rewrite !Q2R_minus, !Q2R_mult, !Q2R_inject_Z.
  f_equal; [f_equal; [f_equal|]|]; field; exact Hb0.
Qed.

Lemma decode_inverts_encode_witness :
  exists LL BL GL L B G,
    ppdet_target_single head2 [box24; box16] [1; 2] 0 sizes2 (get_points sizes2)
                        zero_mem = Some (LL, BL, GL)
    /\ nth_error LL 0 = Some L /\ nth_error BL 0 = Some B
    /\ nth_error GL 0 = Some G
    /\ decode_point 4 16 (Q2R (cell_center 2)) (Q2R (cell_center 2))
         (map exp [at3 B 2 2 0; at3 B 2 2 1; at3 B 2 2 2; at3 B 2 2 3])
       = (Q2R (bx1 box16), Q2R (by1 box16), Q2R (bx2 box16), Q2R (by2 box16)).
Proof.
  destruct (is_some_true
              (ppdet_target_single head2 [box24; box16] [1; 2] 0 sizes2
                 (get_points sizes2) zero_mem))
    as [[[LL BL] GL] E]; [vm_compute; reflexivity|].
  destruct (ppdet_target_single_level _ _ _ _ _ _ _ _ _ _ 0%nat level0 E)
    as (L & B & G & EL & EB & EG); [reflexivity|].
  exists LL, BL, GL, L, B, G.
  split; [exact E|]. split; [exact EL|]. split; [exact EB|]. split; [exact EG|].
  apply (decode_inverts_encode head2 [box24; box16] [1; 2] 0 sizes2 zero_mem
           LL BL GL 0%nat level0 L B G 2%nat 2%nat 1%nat box16);
    try reflexivity; try assumption; try lia; try discriminate.
  - assert (H : cell_of (ppdet_target_single head2 [box24; box16] [1; 2] 0 sizes2
                           (get_points sizes2) zero_mem) 0 2 2 = Some (2, 1))
      by (vm_compute; reflexivity).
    rewrite (cell_of_Some _ _ _ _ _ _ _ _ _ E EL EG) in H.
    inversion H as [[H1 H2]]. rewrite H2. reflexivity.
  - intros k Hk. destruct k as [|[|[|[|k]]]]; try lia; split; vm_compute;
      discriminate.
Defined.

(** ** Instance ids across the batch *)

Lemma target_level_cell_global (sigma : Q) (boxes : list bbox) (labels : list Z)
    (off : Z) (uninit : nat -> nat -> nat -> Q) (lv : level_args)
    (L : tensor2 Z) (B : tensor3 R) (G : tensor2 Z)
    (gt_label_list : list (list Z)) (m : nat) :
  nth_error gt_label_list m = Some labels ->
  nth_error (label_sizes 0 gt_label_list) m = Some off ->
  target_level sigma boxes labels off uninit lv = Some (L, B, G) ->
  shape2 L = shape2 G
  /\ forall r c, cell_global (concat gt_label_list) (at2 L r c) (at2 G r c).
Proof.
  intros Hl Ho H.
  assert (Hoff : 0 <= off).
  { pose proof (label_sizes_nonneg 0 gt_label_list (Z.le_refl 0)) as Hnn.
    rewrite Forall_forall in Hnn. apply Hnn. eapply nth_error_In; exact Ho. }
  destruct (target_level_cells _ _ _ _ _ _ _ _ _ H) as (HsL & HsG & Hc).
  split; [congruence|]. intros r c.
  destruct (Hc r c) as [HL HG]. rewrite HL, HG.
  destruct (last_painter _ _ r c) as [it|] eqn:E; [right | left; auto].
  apply find_some in E. destruct E as [Hit _]. apply in_rev in Hit.
  apply level_items_In in Hit. destruct Hit as (_ & Hn & _).
  split; [lia|].
  pose proof (all_gt_label_global gt_label_list 0 m (item_id it) off labels
                (item_label it) Ho Hl Hn) as Hg.
  replace (Z.to_nat (Z.of_nat (item_id it) + off))
    with (Z.to_nat (off - 0) + item_id it)%nat by lia.
  exact Hg.
Qed.

Lemma multi_apply_targets_global (self : PPDetHead)
    (gt_bbox_list : list (list bbox)) (gt_label_list : list (list Z))
    (sizes : list (nat * nat)) (points : list (tensor2 Q * tensor2 Q))
    (mem : nat -> nat -> nat -> nat -> nat -> Q)
    (label_list : list (list (tensor2 Z)))
    (bbox_target_list : list (list (tensor3 R)))
    (gt_ids_list : list (list (tensor2 Z))) :
  multi_apply_targets self gt_bbox_list gt_label_list sizes points mem
  = Some (label_list, bbox_target_list, gt_ids_list) ->
  Forall2 (Forall2 (fun L G => Forall2 (cell_global (concat gt_label_list))
                                       (flatten2 L) (flatten2 G)))
          label_list gt_ids_list.
Proof.
  unfold multi_apply_targets. intros H. inv_bind H.
  inversion H; subst; clear H.
  apply Forall2_map_same.
  match goal with
  | Hm : mapM _ _ = Some _ |- _ => apply mapM_Forall_out in Hm; rename Hm into Hres
  end.
  eapply Forall_impl; [|exact Hres].
  intros [[LL BL] GL] [[i [[boxes labels] off]] [Hin Hs]]. simpl in *.
  apply in_combine_r in Hin.
  destruct (In_nth_error _ _ Hin) as [n Hn].
  apply zip3_nth_error in Hn. destruct Hn as (_ & Hlab & Hoff).
  unfold ppdet_target_single in Hs. inv_bind Hs. inversion Hs; subst; clear Hs.
  apply Forall2_map_same.
  match goal with
  | Hm : mapM _ _ = Some _ |- _ => apply mapM_Forall_out in Hm; rename Hm into Hlv
  end.
  eapply Forall_impl; [|exact Hlv].
  intros [[L B] G] [[l lv] [_ Ht]]. simpl in *.
  destruct (target_level_cell_global _ _ _ _ _ _ _ _ _ gt_label_list n Hlab Hoff Ht)
    as [Hshape Hcell].
  apply flatten2_Forall2; assumption.
Qed.



Lemma Forall2_nth_error_l {A B} (R : A -> B -> Prop) (la : list A) (lb : list B)
    (j : nat) (a : A) :
  Forall2 R la lb -> nth_error la j = Some a ->
  exists b, nth_error lb j = Some b /\ R a b.
Proof.
  intros H. revert j. induction H as [|x y la lb Hxy _ IH]; intros [|j] Ha;
    simpl in *; try discriminate.
  - inversion Ha; subst. eauto.
  - apply IH; exact Ha.
Qed.

Lemma cell_global_positive (fb : flat_batch) (j : nat) (l : Z) :
  Forall2 (cell_global (all_gt_label_list fb)) (flatten_labels fb) (flatten_ids fb) ->
  nth_error (flatten_labels fb) j = Some l -> 0 < l ->
  exists i, In (i, l) (hit_instances fb) /\ In j (instance_cells fb i).
Proof.
  intros Hcells Hj Hl.
  destruct (Forall2_nth_error_l _ _ _ _ _ Hcells Hj) as (g & Hg & Hc).
  destruct Hc as [[-> _] | [Hg0 Hn]]; [lia|].
  exists (Z.to_nat g).
  assert (Hcell : In j (instance_cells fb (Z.to_nat g))).
  { unfold instance_cells. apply nonzero_In. exists g. split; [exact Hg|].
    apply Z.eqb_eq. lia. }
  split; [|exact Hcell].
  unfold hit_instances. apply filter_In. split.
  - apply In_combine_seq. rewrite Nat.sub_0_r. split; [lia | exact Hn].
  - simpl. destruct (instance_cells fb (Z.to_nat g)); [destruct Hcell | reflexivity].
Qed.



(** ** The loss returns on every well-formed batch *)

Lemma target_level_rows (sigma : Q) (boxes : list bbox) (labels : list Z)
    (off : Z) (uninit : nat -> nat -> nat -> Q) (lv : level_args)
    (L : tensor2 Z) (B : tensor3 R) (G : tensor2 Z) :
  target_level sigma boxes labels off uninit lv = Some (L, B, G) ->
  Forall2 (fun (_ : Z) (row : list R) => length row = 4%nat)
          (flatten2 L) (reshape_rows4 B).
Proof.
  intros H.
  assert (Hs : shape2 L = lv_featmap_size lv
               /\ shape3 B = (fst (lv_featmap_size lv), snd (lv_featmap_size lv), 4%nat)).
  { destruct (target_level_cells _ _ _ _ _ _ _ _ _ H) as (HsL & _). split; [exact HsL|].
    revert H. unfold target_level. destruct (lv_points lv) as [y x].
    destruct (Nat.eqb _ 0).
    - intros H; inversion H; subst. reflexivity.
    - intros H. inv_bind H. inversion H; subst; clear H. simpl.
      match goal with
      | |- shape3 (g_bbox (fold_left ?st ?its ?g0)) = _ =>
          pose proof (fold_paint (lv_stride lv) (lv_base_len lv) y x off
                        (lv_featmap_size lv) its g0) as Hf
      end.
      destruct Hf as [(_ & Hb & _) _]; [repeat split|]. exact Hb. }
  destruct Hs as [HsL HsB]. unfold flatten2, reshape_rows4. rewrite HsL, HsB. simpl.
  apply Forall2_flat_map_same. apply Forall_forall. intros r _.
  apply Forall2_map_same. apply Forall_forall. intros c _. reflexivity.
Qed.

Lemma multi_apply_targets_rows (self : PPDetHead)
    (gt_bbox_list : list (list bbox)) (gt_label_list : list (list Z))
    (sizes : list (nat * nat)) (points : list (tensor2 Q * tensor2 Q))
    (mem : nat -> nat -> nat -> nat -> nat -> Q)
    (label_list : list (list (tensor2 Z)))
    (bbox_target_list : list (list (tensor3 R)))
    (gt_ids_list : list (list (tensor2 Z))) :
  multi_apply_targets self gt_bbox_list gt_label_list sizes points mem
  = Some (label_list, bbox_target_list, gt_ids_list) ->
  Forall2 (Forall2 (fun L B => Forall2 (fun (_ : Z) (row : list R) => length row = 4%nat)
                                       (flatten2 L) (reshape_rows4 B)))
          label_list bbox_target_list.
Proof.
  unfold multi_apply_targets. intros H. inv_bind H.
  inversion H; subst; clear H.
  apply Forall2_map_same.
  match goal with
  | Hm : mapM _ _ = Some _ |- _ => apply mapM_Forall_out in Hm; rename Hm into Hres
  end.
  eapply Forall_impl; [|exact Hres].
  intros [[LL BL] GL] [ia [_ Hs]]. simpl in *.
  unfold ppdet_target_single in Hs. inv_bind Hs. inversion Hs; subst; clear Hs.
  apply Forall2_map_same.
  match goal with
  | Hm : mapM _ _ = Some _ |- _ => apply mapM_Forall_out in Hm; rename Hm into Hlv
  end.
  eapply Forall_impl; [|exact Hlv].
  intros [[L B] G] [[l lv] [_ Ht]]. simpl in *.
  eapply target_level_rows; exact Ht.
Qed.

(** The flattened tensors of [loss] are aligned: one instance id and one
    target row of four entries per label cell. *)
Lemma loss_flatten_aligned (self : PPDetHead)
    (cls_scores bbox_preds : list (tensor4 Q))
    (gt_bbox_list : list (list bbox)) (gt_label_list : list (list Z))
    (mem : nat -> nat -> nat -> nat -> nat -> Q) (fb : flat_batch) :
  loss_flatten self cls_scores bbox_preds gt_bbox_list gt_label_list mem = Some fb ->
  length (flatten_ids fb) = length (flatten_labels fb)
  /\ Forall2 (fun (_ : Z) (row : list R) => length row = 4%nat)
             (flatten_labels fb) (flatten_bbox_targets fb).
Proof.
  intros Hfb. unfold loss_flatten in Hfb. inv_bind Hfb.
  match goal with
  | Hm : multi_apply_targets _ _ _ _ _ _ = Some ?t |- _ =>
      destruct t as [[label_list bbox_target_list] gt_ids_list];
      pose proof (multi_apply_targets_rows _ _ _ _ _ _ _ _ _ Hm) as Hrows;
      apply multi_apply_targets_global in Hm; rename Hm into Hg
  end.
  inv_bind Hfb. inversion Hfb; subst; clear Hfb. simpl. split.
  - symmetry. eapply Forall2_length.
    eapply flatten_levels_Forall2; [exact Hg|eassumption|eassumption].
  - eapply flatten_levels_Forall2; [exact Hrows|eassumption|eassumption].
Qed.

Lemma wf_batch_sizes (self : PPDetHead) (cls_scores bbox_preds : list (tensor4 Q))
    (gt_bbox_list : list (list bbox)) (gt_label_list : list (list Z)) :
  wf_batch self cls_scores bbox_preds gt_bbox_list gt_label_list ->
  map (fun t : tensor4 Q => (snd (fst (shape4 t)), snd (shape4 t))) bbox_preds
  = map (fun t : tensor4 Q => (snd (fst (shape4 t)), snd (shape4 t))) cls_scores.
Proof.
  intros (_ & _ & _ & _ & _ & _ & _ & Hsh).
  induction Hsh as [|c b cs bs (_ & _ & _ & _ & H5 & H6) _ IH]; simpl; [reflexivity|].
  rewrite H5, H6, IH. reflexivity.
Qed.

Lemma loss_flatten_preds (self : PPDetHead)
    (cls_scores bbox_preds : list (tensor4 Q))
    (gt_bbox_list : list (list bbox)) (gt_label_list : list (list Z))
    (mem : nat -> nat -> nat -> nat -> nat -> Q) (fb : flat_batch) :
  wf_batch self cls_scores bbox_preds gt_bbox_list gt_label_list ->
  loss_flatten self cls_scores bbox_preds gt_bbox_list gt_label_list mem = Some fb ->
  length (flatten_cls_scores fb) = length (flatten_labels fb)
  /\ length (flatten_bbox_preds fb) = length (flatten_labels fb).
Proof.
  intros Hwf Hfb.
  destruct (loss_flatten_total self cls_scores bbox_preds gt_bbox_list
              gt_label_list mem Hwf) as (fb' & Hfb' & Hlen & _).
  rewrite Hfb in Hfb'. inversion Hfb'; subst fb'; clear Hfb'.
  split; [symmetry; exact Hlen|]. rewrite Hlen.
  pose proof (wf_batch_sizes _ _ _ _ _ Hwf) as Hsz.
  destruct Hwf as (_ & _ & _ & _ & _ & _ & Hc & Hsh).
  unfold loss_flatten in Hfb. inv_bind Hfb.
  match goal with
  | Hm : multi_apply_targets _ _ _ _ _ _ = Some ?t |- _ =>
      destruct t as [[label_list bbox_target_list] gt_ids_list]
  end.
  cbv beta iota in Hfb. inv_bind Hfb. inversion Hfb; subst; clear Hfb. simpl.
  match goal with
  | Hm : mapM (fun t => permute_reshape t (cls_out_channels self)) _ = Some _ |- _ =>
      rename Hm into Esc
  end.
  match goal with
  | Hm : mapM (fun t => permute_reshape t 4) _ = Some _ |- _ => rename Hm into Epr
  end.
  destruct (permute_reshape_all (cls_out_channels self) (length gt_bbox_list)
              cls_scores Hc) as (scores_l & Hsc & Hscl).
  { clear - Hsh. induction Hsh as [|c b cs bs (H1 & H2 & _) _ IH]; constructor; auto. }
  destruct (permute_reshape_all 4 (length gt_bbox_list) bbox_preds) as (preds_l & Hpr & Hprl);
    [lia| |].
  { clear - Hsh. induction Hsh as [|c b cs bs (_ & _ & H3 & H4 & _) _ IH];
      constructor; auto. }
  rewrite Esc in Hsc. rewrite Epr in Hpr.
  inversion Hsc; subst scores_l. inversion Hpr; subst preds_l.
  repeat match goal with
  | Hm : torch_cat _ = Some _ |- _ => apply torch_cat_Some in Hm; subst
  end.
  simpl in *. rewrite Hscl, Hprl, Hsz. reflexivity.
Qed.

Lemma agg_fold_total (ids : list Z) (scores : list (list Q)) (l : list (nat * Z))
    (st : list Z * list (list Q) * Z) :
  length ids = length scores ->
  exists st', fold_left (agg_step ids scores) l (Some st) = Some st'.
Proof.
  intros Hlen. revert st. induction l as [|ic l IH]; intros st; [eexists; reflexivity|].
  cbn [fold_left]. destruct st as [[al asc] n].
  assert (Hstep : exists st', agg_step ids scores (Some (al, asc, n)) ic = Some st').
  { unfold agg_step. cbn [obind].
    destruct (negb (Nat.eqb _ 0)); [|eexists; reflexivity].
    destruct (index_list_total scores (nonzero (fun id => id =? Z.of_nat (fst ic)) ids))
      as [rows Hrows]; [rewrite <- Hlen; apply nonzero_in_range|].
    rewrite Hrows. cbn [obind]. eexists; reflexivity. }
  destruct Hstep as [st' Hst']. rewrite Hst'. apply IH.
Qed.

Section LossReturns.

Variable loss_cls_fn : list (list Q) -> list Z -> Z -> R.
Variable loss_bbox_fn : list (list Q) -> list (list R) -> list (list R) -> Z -> R.

(** X11.  On a well-formed batch [loss] returns, whatever the boxes, the
    labels and the uninitialised buffers are: no index, reshape or
    concatenation of the flattening, of the aggregation loop or of the
    regression branch raises.  The flattened tensors are aligned, with one
    instance id, one score row, one prediction row and one target row of
    four entries per label cell. *)
Theorem loss_returns (self : PPDetHead)
    (cls_scores bbox_preds : list (tensor4 Q))
    (gt_bbox_list : list (list bbox)) (gt_label_list : list (list Z))
    (mem : nat -> nat -> nat -> nat -> nat -> Q) :
  wf_batch self cls_scores bbox_preds gt_bbox_list gt_label_list ->
  exists fb out,
    loss_flatten self cls_scores bbox_preds gt_bbox_list gt_label_list mem = Some fb
    /\ loss loss_cls_fn loss_bbox_fn self cls_scores bbox_preds gt_bbox_list
            gt_label_list mem = Some out
    /\ length (flatten_ids fb) = length (flatten_labels fb)
    /\ length (flatten_cls_scores fb) = length (flatten_labels fb)
    /\ length (flatten_bbox_preds fb) = length (flatten_labels fb)
    /\ Forall2 (fun (_ : Z) (row : list R) => length row = 4%nat)
               (flatten_labels fb) (flatten_bbox_targets fb).
Proof.
  intros Hwf.
  destruct (loss_flatten_total self cls_scores bbox_preds gt_bbox_list
              gt_label_list mem Hwf) as (fb & Hfb & _ & _).
  destruct (loss_flatten_aligned _ _ _ _ _ _ _ Hfb) as [Hids Hrows].
  destruct (loss_flatten_preds _ _ _ _ _ _ _ Hwf Hfb) as [Hsc Hpr].
  set (neg_inds := nonzero (fun l => l <=? 0) (flatten_labels fb)).
  destruct (index_list_total (flatten_labels fb) neg_inds) as [nl Hnl];
    [apply nonzero_in_range|].
  destruct (index_list_total (flatten_cls_scores fb) neg_inds) as [ns Hns];
    [rewrite Hsc; apply nonzero_in_range|].
  destruct (agg_fold_total (flatten_ids fb) (flatten_cls_scores fb)
              (combine (seq 0 (length (all_gt_label_list fb))) (all_gt_label_list fb))
              (nl, ns, 0)) as [[[al asc] n] Hagg]; [congruence|].
  assert (Hreg : exists v, regression_loss loss_bbox_fn fb = Some v).
  { unfold regression_loss. destruct (0 <? _); [|eexists; reflexivity].
    set (pos_inds := nonzero (fun l => 0 <? l) (flatten_labels fb)).
    destruct (index_list_total (flatten_bbox_preds fb) pos_inds) as [pp Hpp];
      [rewrite Hpr; apply nonzero_in_range|].
    destruct (index_list_total (flatten_bbox_targets fb) pos_inds) as [pt Hpt];
      [rewrite <- (Forall2_length Hrows); apply nonzero_in_range|].
    rewrite Hpp, Hpt. cbn [obind]. eexists; reflexivity. }
  destruct Hreg as [v Hv].
  exists fb. eexists. split; [exact Hfb|]. split.
  - unfold loss. rewrite Hfb. cbn [obind]. unfold aggregate. fold neg_inds.
    rewrite Hnl, Hns. cbn [obind]. rewrite Hagg. cbn [obind]. rewrite Hv.
    cbn [obind]. reflexivity.
  - auto.
Qed.

End LossReturns.

Lemma loss_returns_witness :
  exists fb out,
    loss_flatten head2 cls_scores2 bbox_preds2 [[box24; box16]] [[1; 2]]
                 (fun _ => zero_mem) = Some fb
    /\ loss count_loss_cls count_loss_bbox head2 cls_scores2 bbox_preds2
            [[box24; box16]] [[1; 2]] (fun _ => zero_mem) = Some out
    /\ length (flatten_ids fb) = length (flatten_labels fb)
    /\ length (flatten_cls_scores fb) = length (flatten_labels fb)
    /\ length (flatten_bbox_preds fb) = length (flatten_labels fb)
    /\ Forall2 (fun (_ : Z) (row : list R) => length row = 4%nat)
               (flatten_labels fb) (flatten_bbox_targets fb).
Proof.
  apply (loss_returns count_loss_cls count_loss_bbox head2 cls_scores2 bbox_preds2
           [[box24; box16]] [[1; 2]] (fun _ => zero_mem)).
  unfold wf_batch. simpl.
  repeat split; try lia; repeat constructor; simpl; lia.
Defined.

(** ** The mean row of an instance *)

Lemma Qsum_between (vs : list Q) (lo hi : Q) :
  Forall (fun v => (lo <= v)%Q /\ (v <= hi)%Q) vs ->
  (inject_Z (Z.of_nat (length vs)) * lo <= Qsum vs)%Q
  /\ (Qsum vs <= inject_Z (Z.of_nat (length vs)) * hi)%Q.
Proof.
  induction 1 as [|v vs [Hlo Hhi] _ [IHlo IHhi]].
  - cbn [length Qsum fold_right]. change (inject_Z (Z.of_nat 0)) with 0%Q.
    split; Lqa.lra.
  - cbn [length Qsum fold_right]. fold (Qsum vs).
    rewrite Nat2Z.inj_succ. unfold Z.succ. rewrite inject_Z_plus.
    change (inject_Z 1) with 1%Q. split; Lqa.lra.
Qed.

Lemma nth_map_seq {A} (f : nat -> A) (n k : nat) (d : A) :
  (k < n)%nat -> nth k (map f (seq 0 n)) d = f k.
Proof.
  intros Hk. rewrite (nth_indep _ d (f 0%nat)) by (rewrite length_map, length_seq; exact Hk).
  rewrite (map_nth f (seq 0 n) 0%nat k), seq_nth by exact Hk. reflexivity.
Qed.



(** ** Decoder: the scores *)

Lemma sigmoid_range (v : R) : (0 < sigmoid v < 1)%R.
Proof.
  unfold sigmoid. pose proof (exp_pos (- v)) as He.
  assert (Hd : (0 < 1 + exp (- v))%R) by lra.
  split.
  - apply Rdiv_lt_0_compat; lra.
  - apply (Rmult_lt_reg_r (1 + exp (- v))); [exact Hd|].
    unfold Rdiv. rewrite Rmult_assoc, Rinv_l by lra. lra.
Qed.

Lemma decode_level_scores (NmsCfg : Type) (self : PPDetHead)
    (cfg : test_cfg NmsCfg) (img_shape : Z * Z) (a : decode_args)
    (out : list (list R) * list (list R)) :
  decode_level NmsCfg self cfg img_shape a = Some out ->
  Forall (Forall (fun v => (0 < v < 1)%R)) (snd out).
Proof.
  destruct a as [[[[[cls_score bbox_pred] fs] stride] base_len] [y x]].
  unfold decode_level. intros H. inv_bind H.
  match goal with
  | Hs : permute_reshape3 cls_score _ = Some ?rows |- _ =>
      assert (Hsig : Forall (Forall (fun v => (0 < v < 1)%R)) (map (map sigmoid) rows))
  end.
  { apply Forall_forall. intros row Hin. apply in_map_iff in Hin.
    destruct Hin as [r [<- _]]. apply Forall_forall. intros v Hv.
    apply in_map_iff in Hv. destruct Hv as [u [<- _]]. apply sigmoid_range. }
  match goal with
  | Hsel : (if _ then _ else _) = Some ?t |- _ =>
      destruct t as [[[bp sc] y'] x']; cbv beta iota in H; inv_bind H;
      inversion H; subst out; clear H; cbn [snd];
      destruct (_ && _) in Hsel
  end.
  - match goal with Hsel : obind _ _ = Some _ |- _ => inv_bind Hsel; inversion Hsel; subst end.
    eapply Forall_In_sub; [exact Hsig | eapply index_list_In; eassumption].
  - match goal with Hsel : Some _ = Some _ |- _ => inversion Hsel; subst end.
    exact Hsig.
Qed.

(** X13.  Every row of the score matrix handed to [multiclass_nms] is a zero
    for the background class followed by sigmoid scores, each strictly
    between 0 and 1, whatever the raw scores and whether the top-k
    selection ran or not. *)
Theorem decoder_scores_are_probabilities (NmsCfg : Type) (self : PPDetHead)
    (cls_scores bbox_preds : list (tensor3 R))
    (featmap_sizes : list (nat * nat)) (point_list : list (list R * list R))
    (img_shape : Z * Z) (scale_factor : R) (cfg : test_cfg NmsCfg)
    (rescale : bool) (det_bboxes det_scores : list (list R)) :
  nms_inputs NmsCfg self cls_scores bbox_preds featmap_sizes point_list
             img_shape scale_factor cfg rescale = Some (det_bboxes, det_scores) ->
  Forall (fun row => exists probs,
              row = 0%R :: probs /\ Forall (fun v => (0 < v < 1)%R) probs)
         det_scores.
Proof.
  unfold nms_inputs. intros H. inv_bind H. inversion H; subst; clear H.
  match goal with
  | Hm : mapM _ _ = Some ?pl |- _ => apply mapM_Forall_out in Hm; rename Hm into Hpl
  end.
  repeat match goal with
         | Hc : torch_cat _ = Some _ |- _ => apply torch_cat_Some in Hc; subst
         end.
  apply Forall_map. apply Forall_concat. apply Forall_map.
  eapply Forall_impl; [|exact Hpl].
  intros out [arg [_ Hd]]. apply decode_level_scores in Hd.
  eapply Forall_impl; [|exact Hd].
  intros row Hrow. exists row. split; [reflexivity | exact Hrow].
Qed.

Lemma decoder_scores_are_probabilities_witness :
  exists det_bboxes det_scores,
    nms_inputs unit head8 [cell_cls] [cell_reg] [(1, 1)%nat] cell_points
               (200, 300) 1 cfg0 false = Some (det_bboxes, det_scores)
    /\ Forall (fun row => exists probs,
                   row = 0%R :: probs /\ Forall (fun v => (0 < v < 1)%R) probs)
              det_scores.
Proof.
  do 2 eexists. split; [reflexivity|].
  eapply (decoder_scores_are_probabilities unit head8 [cell_cls] [cell_reg]
            [(1, 1)%nat] cell_points (200, 300) 1 cfg0 false).
  reflexivity.
Defined.

(** ** Decoder: the top-k selection and the batch loop *)

Lemma insert_by_value_perm (vi : R * nat) (l : list (R * nat)) :
  Permutation (insert_by_value vi l) (vi :: l).
Proof.
  induction l as [|wj t IH]; simpl; [reflexivity|].
  destruct (Rle_dec (fst wj) (fst vi)); [reflexivity|].
  rewrite IH. apply perm_swap.
Qed.

Lemma sort_by_value_perm (l : list (R * nat)) :
  Permutation (fold_right insert_by_value [] l) l.
Proof.
  induction l as [|vi l IH]; simpl; [reflexivity|].
  rewrite insert_by_value_perm, IH. reflexivity.
Qed.

Lemma In_firstn {A} (k : nat) (l : list A) (a : A) : In a (firstn k l) -> In a l.
Proof.
  revert l. induction k as [|k IH]; intros [|b l]; simpl; try tauto.
  intros [H | H]; [left; exact H | right; apply IH; exact H].
Qed.

Lemma topk_length (values : list R) (k : nat) :
  length (topk values k) = Nat.min k (length values).
Proof.
  unfold topk. rewrite length_map, length_firstn.
  rewrite (Permutation_length (sort_by_value_perm _)).
  rewrite length_combine, length_seq, Nat.min_id. reflexivity.
Qed.

Lemma topk_in_range (values : list R) (k : nat) :
  Forall (fun j => (j < length values)%nat) (topk values k).
Proof.
  apply Forall_forall. intros j Hj. unfold topk in Hj.
  apply in_map_iff in Hj. destruct Hj as [[v i] [<- Hin]]. simpl.
  apply In_firstn in Hin.
  apply (Permutation_in _ (sort_by_value_perm _)) in Hin.
  apply in_combine_r in Hin. apply in_seq in Hin. lia.
Qed.

Lemma permute_reshape3_total {A} (t : tensor3 A) (cols : Z) (h w : nat) :
  0 < cols -> shape3 t = (Z.to_nat cols, h, w) ->
  exists rows, permute_reshape3 t cols = Some rows /\ length rows = (h * w)%nat.
Proof.
  intros Hc Hs. unfold permute_reshape3. rewrite Hs. cbn [fst snd].
  assert (Hk : Z.to_nat cols <> 0%nat) by lia.
  assert (Hlt : (0 <? cols) = true) by (apply Z.ltb_lt; exact Hc).
  rewrite Hlt, Nat.Div0.mod_mul. simpl.
  eexists. split; [reflexivity|].
  rewrite length_map, length_seq, Nat.div_mul by exact Hk. reflexivity.
Qed.

Lemma kept_cells_topk {NmsCfg} (cfg : test_cfg NmsCfg) (n : nat) :
  (0 <? get_nms_pre cfg) && (get_nms_pre cfg <? Z.of_nat n) = true ->
  Nat.min (Z.to_nat (get_nms_pre cfg)) n = kept_cells cfg n.
Proof.
  intros H. unfold kept_cells. rewrite H.
  apply andb_true_iff in H. destruct H as [H1 H2].
  apply Z.ltb_lt in H1, H2. lia.
Qed.

Lemma decode_level_total (NmsCfg : Type) (self : PPDetHead)
    (cfg : test_cfg NmsCfg) (img_shape : Z * Z) (a : decode_args) :
  0 < cls_out_channels self ->
  wf_decode_arg self a ->
  exists out,
    decode_level NmsCfg self cfg img_shape a = Some out
    /\ length (fst out) = kept_cells cfg (fst (arg_size a) * snd (arg_size a))
    /\ length (snd out) = kept_cells cfg (fst (arg_size a) * snd (arg_size a)).
Proof.
  destruct a as [[[[[cls_score bbox_pred] fs] stride] base_len] [y x]].
  unfold wf_decode_arg, arg_size. cbn [fst snd].
  intros Hc (Hsc & Hsb & Hy & Hx). unfold decode_level.
  rewrite Hsc, Hsb. cbn [fst snd]. unfold shape_eqb. cbn [fst snd].
  rewrite !Nat.eqb_refl. cbn [andb assert obind].
  destruct (permute_reshape3_total cls_score (cls_out_channels self) (fst fs) (snd fs)
              Hc Hsc) as (srows & Es & Ls).
  destruct (permute_reshape3_total bbox_pred 4 (fst fs) (snd fs)) as (brows & Eb & Lb);
    [lia | exact Hsb |].
  rewrite Es. cbn [obind]. rewrite Eb. cbn [obind].
  set (n := (fst fs * snd fs)%nat) in *.
  rewrite length_map, Ls.
  destruct ((0 <? get_nms_pre cfg) && (get_nms_pre cfg <? Z.of_nat n)) eqn:Ek.
  - set (inds := topk (map row_max (map (map sigmoid) srows))
                      (Z.to_nat (get_nms_pre cfg))).
    assert (Hr : Forall (fun j => (j < n)%nat) inds).
    { pose proof (topk_in_range (map row_max (map (map sigmoid) srows))
                                (Z.to_nat (get_nms_pre cfg))) as Hr.
      rewrite !length_map, Ls in Hr. exact Hr. }
    assert (Hl : length inds = kept_cells cfg n).
    { unfold inds. rewrite topk_length, !length_map, Ls.
      apply kept_cells_topk. exact Ek. }
    destruct (index_list_total (map (map exp) brows) inds) as [bp Ebp];
      [rewrite length_map, Lb; exact Hr|].
    destruct (index_list_total (map (map sigmoid) srows) inds) as [sc Esc];
      [rewrite length_map, Ls; exact Hr|].
    destruct (index_list_total y inds) as [y' Ey]; [rewrite Hy; exact Hr|].
    destruct (index_list_total x inds) as [x' Ex]; [rewrite Hx; exact Hr|].
    rewrite Ebp. cbn [obind]. rewrite Esc. cbn [obind].
    rewrite Ey. cbn [obind]. rewrite Ex. cbn [obind].
    pose proof (index_list_length _ _ _ Ebp) as L1.
    pose proof (index_list_length _ _ _ Esc) as L2.
    pose proof (index_list_length _ _ _ Ey) as L3.
    pose proof (index_list_length _ _ _ Ex) as L4.
    unfold same_length3. rewrite L1, L3, L4, !Nat.eqb_refl. cbn [andb assert obind].
    eexists. split; [reflexivity|]. cbn [fst snd].
    rewrite length_map, !length_combine, L1, L2, L3, L4. lia.
  - cbn [obind]. unfold same_length3.
    rewrite length_map, Hy, Hx, Lb, !Nat.eqb_refl. cbn [andb assert obind].
    eexists. split; [reflexivity|]. cbn [fst snd].
    rewrite length_map, !length_combine, !length_map, Hy, Hx, Lb, Ls.
    unfold kept_cells. rewrite Ek. fold n. lia.
Qed.

Lemma mapM_total_Forall2 {A B} (f : A -> option B) (P : A -> B -> Prop) (l : list A) :
  Forall (fun a => exists b, f a = Some b /\ P a b) l ->
  exists bs, mapM f l = Some bs /\ Forall2 P l bs.
Proof.
  induction 1 as [|a l [b [Hb Hp]] _ [bs [Hbs Hps]]]; simpl.
  - exists []. split; [reflexivity | constructor].
  - rewrite Hb, Hbs; simpl. eexists. split; [reflexivity|]. constructor; assumption.
Qed.

Lemma length_concat_Forall2 {A B} (f : B -> list A) (g : nat -> nat) (sizes : list nat)
    (outs : list B) :
  Forall2 (fun k out => length (f out) = g k) sizes outs ->
  length (concat (map f outs)) = list_sum (map g sizes).
Proof.
  induction 1 as [|k out sizes outs Hk _ IH]; simpl; [reflexivity|].
  rewrite length_app, Hk, IH. reflexivity.
Qed.

(** The argument tuples of the level loop on the slices of one image. *)
Lemma zip_decode_wf (self : PPDetHead) (cs bs : list (tensor3 R))
    (sizes : list (nat * nat)) (strs : list Z) (bases : list Q) :
  Forall2 (fun c s => shape3 c = (Z.to_nat (cls_out_channels self), fst s, snd s))
          cs sizes ->
  Forall2 (fun b s => shape3 b = (4%nat, fst s, snd s)) bs sizes ->
  (length sizes <= length strs)%nat -> (length sizes <= length bases)%nat ->
  Forall (wf_decode_arg self)
         (zip_decode cs bs sizes strs bases (decoder_points sizes))
  /\ map arg_size (zip_decode cs bs sizes strs bases (decoder_points sizes)) = sizes.
Proof.
  intros Hc. revert bs strs bases.
  induction Hc as [|c s cs sizes Hcs _ IH]; intros bs strs bases Hb Hs He.
  - inversion Hb; subst. simpl. split; [constructor | reflexivity].
  - inversion Hb as [|b ? bs' ? Hbs Hb']; subst.
    destruct strs as [|st strs]; [simpl in Hs; lia|].
    destruct bases as [|e bases]; [simpl in He; lia|].
    simpl in Hs, He.
    destruct (IH bs' strs bases Hb') as [IH1 IH2]; [lia | lia |].
    unfold decoder_points, get_points_flatten, get_points in *.
    simpl. rewrite !map_map in *. split.
    + constructor; [|exact IH1].
      unfold wf_decode_arg. cbn [fst snd].
      rewrite !length_map, !flatten2_length. simpl. auto.
    + unfold arg_size at 1. cbn [fst snd]. f_equal. exact IH2.
Qed.

Lemma select_img_total {A} (t : tensor4 A) (i : nat) :
  (i < fst (fst (fst (shape4 t))))%nat ->
  select_img t i
  = Some (mk_tensor3 (snd (fst (fst (shape4 t))), snd (fst (shape4 t)), snd (shape4 t))
                     (at4 t i)).
Proof.
  intros Hi. unfold select_img.
  apply Nat.ltb_lt in Hi. rewrite Hi. reflexivity.
Qed.

(** The decoding of one image of a well-formed batch. *)
Lemma nms_inputs_total (NmsCfg : Type) (self : PPDetHead)
    (cls_scores bbox_preds : list (tensor4 R)) (n i : nat)
    (img_shape : Z * Z) (scale_factor : R) (cfg : test_cfg NmsCfg) (rescale : bool) :
  wf_outputs self cls_scores bbox_preds n -> (i < n)%nat ->
  let sizes := map (fun t : tensor4 R => (snd (fst (shape4 t)), snd (shape4 t)))
                   cls_scores in
  exists cs bs det_bboxes det_scores,
    mapM (fun t => select_img t i) cls_scores = Some cs
    /\ mapM (fun t => select_img t i) bbox_preds = Some bs
    /\ nms_inputs NmsCfg self cs bs sizes (decoder_points sizes) img_shape
                  scale_factor cfg rescale = Some (det_bboxes, det_scores)
    /\ length det_bboxes = list_sum (map (kept_cells cfg) (level_cells sizes))
    /\ length det_scores = list_sum (map (kept_cells cfg) (level_cells sizes)).
Proof.
  intros (Hlv & Hs & He & Hc & Hsh) Hi sizes.
  set (sel := fun t : tensor4 R =>
                mk_tensor3 (snd (fst (fst (shape4 t))), snd (fst (shape4 t)),
                            snd (shape4 t)) (at4 t i)).
  assert (Ecs : mapM (fun t => select_img t i) cls_scores = Some (map sel cls_scores)).
  { apply mapM_map_Some. intros t Ht. apply select_img_total.
    clear - Hsh Ht Hi. induction Hsh as [|c b cs bs (H1 & _) _ IH]; [destruct Ht|].
    destruct Ht as [<- | Ht]; [lia | auto]. }
  assert (Ebs : mapM (fun t => select_img t i) bbox_preds = Some (map sel bbox_preds)).
  { apply mapM_map_Some. intros t Ht. apply select_img_total.
    clear - Hsh Ht Hi. induction Hsh as [|c b cs bs (_ & _ & H3 & _) _ IH]; [destruct Ht|].
    destruct Ht as [<- | Ht]; [lia | auto]. }
  assert (Hsz : length sizes = length cls_scores) by (unfold sizes; apply length_map).
  destruct (zip_decode_wf self (map sel cls_scores) (map sel bbox_preds) sizes
              (strides self) (base_edge_list self)) as [Hwf Hargs]; try lia.
  { unfold sizes. clear - Hsh.
    induction Hsh as [|c b cs bs (_ & H2 & _) _ IH]; simpl; constructor; auto.
    unfold sel. simpl. rewrite H2. reflexivity. }
  { unfold sizes. clear - Hsh.
    induction Hsh as [|c b cs bs (_ & _ & _ & H4 & H5 & H6) _ IH]; simpl;
      constructor; auto.
    unfold sel. simpl. rewrite H4, H5, H6. reflexivity. }
  set (args := zip_decode (map sel cls_scores) (map sel bbox_preds) sizes
                          (strides self) (base_edge_list self)
                          (decoder_points sizes)) in *.
  destruct (mapM_total_Forall2 (decode_level NmsCfg self cfg img_shape)
              (fun a out =>
                 length (fst out) = kept_cells cfg (fst (arg_size a) * snd (arg_size a))
                 /\ length (snd out)
                    = kept_cells cfg (fst (arg_size a) * snd (arg_size a)))
              args) as (per_level & Epl & Hpl).
  { eapply Forall_impl; [|exact Hwf]. intros a Ha.
    apply decode_level_total; assumption. }
  assert (Hne : per_level <> []).
  { intros ->. inversion Hpl as [Hargs0|]. 
    assert (Hl : length (map arg_size args) = 0%nat) by (rewrite <- Hargs0; reflexivity).
    rewrite Hargs, Hsz in Hl. lia. }
  assert (Hcount : Forall2 (fun k out => length (fst out) = kept_cells cfg k
                                          /\ length (snd out) = kept_cells cfg k)
                           (level_cells sizes) per_level).
  { unfold level_cells. rewrite <- Hargs at 1. rewrite map_map.
    clear - Hpl. induction Hpl as [|a out args pl Ha _ IH]; simpl; constructor; auto. }
  exists (map sel cls_scores), (map sel bbox_preds).
  exists (if rescale
          then map (map (fun v => (v / scale_factor)%R)) (concat (map fst per_level))
          else concat (map fst per_level)).
  exists (map (fun row => 0%R :: row) (concat (map snd per_level))).
  split; [exact Ecs|]. split; [exact Ebs|]. split; [|split].
  - unfold nms_inputs. rewrite !length_map.
    assert (Hlen : Nat.eqb (length cls_scores) (length bbox_preds)
                   && Nat.eqb (length bbox_preds) (length (decoder_points sizes)) = true).
    { unfold decoder_points, get_points_flatten, get_points.
      rewrite !length_map. fold sizes. rewrite Hsz, <- (Forall2_length Hsh), Nat.eqb_refl.
      reflexivity. }
    rewrite Hlen. cbn [assert obind]. fold args. rewrite Epl. cbn [obind].
    rewrite !torch_cat_nonempty
      by (intros Hn; apply map_eq_nil in Hn; exact (Hne Hn)).
    cbn [obind]. reflexivity.
  - transitivity (length (concat (map fst per_level))).
    + destruct rescale; [apply length_map | reflexivity].
    + apply length_concat_Forall2.
      eapply Forall2_impl; [|exact Hcount]. intros k out [H _]. exact H.
  - rewrite length_map. apply length_concat_Forall2.
    eapply Forall2_impl; [|exact Hcount]. intros k out [_ H]. exact H.
Qed.

Lemma single_aug_is_nms_inputs (NmsCfg : Type) (self : PPDetHead)
    (cls_scores bbox_preds : list (tensor3 R))
    (featmap_sizes : list (nat * nat)) (point_list : list (list R * list R))
    (img_shape : Z * Z) (scale_factor : R) (cfg : test_cfg NmsCfg) (rescale : bool) :
  get_bboxes_single_aug self cls_scores bbox_preds featmap_sizes point_list
                        img_shape scale_factor cfg rescale
  = nms_inputs NmsCfg self cls_scores bbox_preds featmap_sizes point_list
               img_shape scale_factor cfg rescale.
Proof.
  unfold get_bboxes_single_aug, nms_inputs, decode_level_aug, decode_level.
  reflexivity.
Qed.

Lemma mapM_option_map {A B C} (f : A -> option C) (g : A -> option B) (h : B -> C)
    (l : list A) :
  (forall a, f a = option_map h (g a)) ->
  mapM f l = option_map (map h) (mapM g l).
Proof.
  intros H. induction l as [|a l IH]; simpl; [reflexivity|].
  rewrite H, IH. destruct (g a); simpl; [|reflexivity].
  destruct (mapM g l); reflexivity.
Qed.

(** X14.  On the head outputs of a batch of [n] images, with at most [n]
    image records, [get_bboxes_aug] returns: no slice, reshape, top-k index
    or concatenation raises.  It returns one pair per image record, and in
    every pair the box matrix and the score matrix have one row per kept
    cell: for each level all its [H * W] cells, or [nms_pre] of them when
    [0 < nms_pre < H * W]. *)
Theorem get_bboxes_aug_returns (NmsCfg : Type) (self : PPDetHead)
    (cls_scores bbox_preds : list (tensor4 R)) (img_metas : list img_meta)
    (cfg : test_cfg NmsCfg) (rescale : bool) (n : nat) :
  wf_outputs self cls_scores bbox_preds n ->
  (length img_metas <= n)%nat ->
  let sizes := map (fun t : tensor4 R => (snd (fst (shape4 t)), snd (shape4 t)))
                   cls_scores in
  exists results,
    get_bboxes_aug self cls_scores bbox_preds img_metas cfg rescale = Some results
    /\ length results = length img_metas
    /\ Forall (fun r =>
                 length (fst r) = list_sum (map (kept_cells cfg) (level_cells sizes))
                 /\ length (snd r) = list_sum (map (kept_cells cfg) (level_cells sizes)))
              results.
Proof.
  intros Hwf Hn sizes. unfold get_bboxes_aug. fold sizes.
  pose proof Hwf as (Hlv & _ & _ & _ & Hsh).
  rewrite (Forall2_length Hsh), Nat.eqb_refl. cbn [assert obind].
  destruct (nth_error_0_total bbox_preds) as (b0 & Hb0 & _);
    [rewrite <- (Forall2_length Hsh); exact Hlv|].
  rewrite Hb0. cbn [obind].
  destruct (mapM_total_Forall2
              (fun im : nat * img_meta =>
                 cls_score_list <- mapM (fun t => select_img t (fst im)) cls_scores ;;
                 bbox_pred_list <- mapM (fun t => select_img t (fst im)) bbox_preds ;;
                 get_bboxes_single_aug self cls_score_list bbox_pred_list sizes
                   (decoder_points sizes) (meta_img_shape (snd im))
                   (meta_scale_factor (snd im)) cfg rescale)
              (fun _ r =>
                 length (fst r) = list_sum (map (kept_cells cfg) (level_cells sizes))
                 /\ length (snd r) = list_sum (map (kept_cells cfg) (level_cells sizes)))
              (combine (seq 0 (length img_metas)) img_metas))
    as (results & Eres & Hres).
  { apply Forall_forall. intros [i meta] Hin. apply in_combine_l in Hin.
    apply in_seq in Hin. cbn [fst snd].
    destruct (nms_inputs_total NmsCfg self cls_scores bbox_preds n i
                (meta_img_shape meta) (meta_scale_factor meta) cfg rescale Hwf)
      as (cs & bs & db & ds & Ecs & Ebs & Enms & Hdb & Hds); [lia|].
    rewrite Ecs. cbn [obind]. rewrite Ebs. cbn [obind].
    rewrite (single_aug_is_nms_inputs NmsCfg). unfold sizes. rewrite Enms.
    eexists. split; [reflexivity|]. cbn [fst snd]. split; [exact Hdb | exact Hds]. }
  exists results. split; [exact Eres|]. split.
  - rewrite <- (Forall2_length Hres), length_combine, length_seq. lia.
  - clear - Hres. induction Hres as [|a r l rs Hr _ IH]; constructor; auto.
Qed.

Lemma get_bboxes_aug_returns_witness :
  exists results,
    get_bboxes_aug head8 batch_cls batch_reg metas2 cfg0 true = Some results
    /\ length results = 2%nat
    /\ Forall (fun r => length (fst r) = 1%nat /\ length (snd r) = 1%nat) results.
Proof.
  apply (get_bboxes_aug_returns unit head8 batch_cls batch_reg metas2 cfg0 true 2).
  - unfold wf_outputs. simpl.
    repeat split; try lia; repeat constructor; simpl; lia.
  - simpl. lia.
Defined.

(** X15.  An image record beyond the batch raises: when some score tensor
    holds fewer images than [img_metas] has entries, [get_bboxes_aug] and
    [get_bboxes] do not return, whatever the suppression primitive is. *)
Theorem image_record_beyond_batch (NmsCfg Detections : Type)
    (multiclass_nms : list (list R) -> list (list R) -> R -> R -> R -> NmsCfg
                      -> Z -> Detections)
    (self : PPDetHead)
    (cls_scores bbox_preds : list (tensor4 R)) (img_metas : list img_meta)
    (cfg : test_cfg NmsCfg) (rescale : bool) (t : tensor4 R) :
  In t cls_scores ->
  (fst (fst (fst (shape4 t))) < length img_metas)%nat ->
  get_bboxes_aug self cls_scores bbox_preds img_metas cfg rescale = None
  /\ get_bboxes multiclass_nms self cls_scores bbox_preds img_metas cfg rescale = None.
Proof.
  intros Ht Hlt.
  set (k := fst (fst (fst (shape4 t)))) in *.
  destruct (nth_error img_metas k) as [meta|] eqn:Ek;
    [|apply nth_error_None in Ek; lia].
  assert (Hin : In (k, meta) (combine (seq 0 (length img_metas)) img_metas)).
  { apply In_combine_seq. rewrite Nat.sub_0_r. split; [lia | exact Ek]. }
  assert (Hsel : mapM (fun u : tensor4 R => select_img u k) cls_scores = None).
  { apply (mapM_None_In _ _ t Ht). unfold select_img. fold k.
    rewrite Nat.ltb_irrefl. reflexivity. }
  split.
  - unfold get_bboxes_aug.
    destruct (assert _); [|reflexivity]. cbn [obind].
    destruct (nth_error bbox_preds 0); [|reflexivity]. cbn [obind].
    apply (mapM_None_In _ _ (k, meta) Hin). cbn [fst snd].
    rewrite Hsel. reflexivity.
  - unfold get_bboxes.
    destruct (assert _); [|reflexivity]. cbn [obind].
    destruct (nth_error bbox_preds 0); [|reflexivity]. cbn [obind].
    apply (mapM_None_In _ _ (k, meta) Hin). cbn [fst snd].
    rewrite Hsel. reflexivity.
Qed.

Lemma image_record_beyond_batch_witness :
  get_bboxes_aug head8 batch_cls batch_reg (metas2 ++ metas2) cfg0 false = None
  /\ get_bboxes (fun (b s : list (list R)) (_ _ _ : R) (_ : unit) (_ : Z) => (b, s))
                head8 batch_cls batch_reg (metas2 ++ metas2) cfg0 false = None.
Proof.
  apply (image_record_beyond_batch unit _ _ head8 batch_cls batch_reg
           (metas2 ++ metas2) cfg0 false
           (mk_tensor4 (2, 2, 1, 1)%nat (fun _ _ _ _ => 0%R))).
  - left. reflexivity.
  - simpl. lia.
Defined.

(** X16.  [get_bboxes] is [get_bboxes_aug] followed by the suppression
    primitive: it raises exactly when [get_bboxes_aug] does, and otherwise
    returns, image by image, [multiclass_nms] applied to the pair that
    [get_bboxes_aug] returns for that image, with the arguments in the order
    [score_thr, k, agg_thr, nms, max_per_img]. *)
Theorem get_bboxes_is_aug_then_nms (NmsCfg Detections : Type)
    (multiclass_nms : list (list R) -> list (list R) -> R -> R -> R -> NmsCfg
                      -> Z -> Detections)
    (self : PPDetHead)
    (cls_scores bbox_preds : list (tensor4 R)) (img_metas : list img_meta)
    (cfg : test_cfg NmsCfg) (rescale : bool) :
  get_bboxes multiclass_nms self cls_scores bbox_preds img_metas cfg rescale
  = option_map
      (map (fun r : list (list R) * list (list R) =>
              multiclass_nms (fst r) (snd r) (cfg_score_thr cfg) (cfg_k cfg)
                             (cfg_agg_thr cfg) (cfg_nms cfg) (cfg_max_per_img cfg)))
      (get_bboxes_aug self cls_scores bbox_preds img_metas cfg rescale).
Proof.
  unfold get_bboxes, get_bboxes_aug.
  destruct (assert _); [|reflexivity]. cbn [obind].
  destruct (nth_error bbox_preds 0); [|reflexivity]. cbn [obind].
  apply mapM_option_map. intros [i meta]. cbn [fst snd].
  destruct (mapM (fun t => select_img t i) cls_scores); [|reflexivity]. cbn [obind].
  destruct (mapM (fun t => select_img t i) bbox_preds); [|reflexivity]. cbn [obind].
  rewrite (single_aug_is_nms_inputs NmsCfg). unfold get_bboxes_single.
  destruct (nms_inputs _ _ _ _ _ _ _ _ _ _) as [[b s]|]; reflexivity.
Qed.

(** ** The level loops stop at the shortest list *)

Lemma zip_decode_firstn (cs bs : list (tensor3 R)) (fs : list (nat * nat))
    (ss : list Z) (es : list Q) (ps : list (list R * list R)) :
  zip_decode cs bs fs ss es ps
  = zip_decode (firstn (length ss) cs) (firstn (length ss) bs) fs ss es
               (firstn (length ss) ps).
Proof.
  revert bs fs ss es ps. induction cs as [|c cs IH]; intros bs fs ss es ps.
  - rewrite firstn_nil. reflexivity.
  - destruct bs as [|b bs]; [rewrite firstn_nil; destruct ss; reflexivity|].
    destruct fs as [|f fs]; [destruct ss; reflexivity|].
    destruct ss as [|s ss]; [reflexivity|].
    destruct es as [|e es]; [reflexivity|].
    destruct ps as [|p ps]; [rewrite firstn_nil; reflexivity|].
    simpl. f_equal. apply IH.
Qed.

(** X17.  The decoder drops feature levels without a stride silently: when
    the three per-level lists are equally long, the levels beyond the number
    of configured strides change neither the result nor whether the decoder
    raises. *)
Theorem decoder_ignores_levels_without_stride (NmsCfg : Type) (self : PPDetHead)
    (cls_scores bbox_preds : list (tensor3 R))
    (featmap_sizes : list (nat * nat)) (point_list : list (list R * list R))
    (img_shape : Z * Z) (scale_factor : R) (cfg : test_cfg NmsCfg)
    (rescale : bool) :
  length cls_scores = length bbox_preds ->
  length bbox_preds = length point_list ->
  nms_inputs NmsCfg self cls_scores bbox_preds featmap_sizes point_list
             img_shape scale_factor cfg rescale
  = nms_inputs NmsCfg self
      (firstn (length (strides self)) cls_scores)
      (firstn (length (strides self)) bbox_preds) featmap_sizes
      (firstn (length (strides self)) point_list)
      img_shape scale_factor cfg rescale.
Proof.
  intros H1 H2. unfold nms_inputs.
  rewrite !length_firstn, <- H2, <- H1, !Nat.eqb_refl. cbn [andb assert obind].
  rewrite <- zip_decode_firstn. reflexivity.
Qed.

Lemma decoder_ignores_levels_without_stride_witness :
  nms_inputs unit head8 [cell_cls; cell_cls] [cell_reg; cell_reg] [(1, 1)%nat; (1, 1)%nat]
             (cell_points ++ cell_points) (200, 300) 1 cfg0 false
  = nms_inputs unit head8 [cell_cls] [cell_reg] [(1, 1)%nat; (1, 1)%nat]
               cell_points (200, 300) 1 cfg0 false.
Proof.
  apply (decoder_ignores_levels_without_stride unit head8 [cell_cls; cell_cls]
           [cell_reg; cell_reg] [(1, 1)%nat; (1, 1)%nat] (cell_points ++ cell_points)
           (200, 300) 1 cfg0 false); reflexivity.
Defined.

Lemma zip_levels_length (bases : list Q) (ranges : list (Q * Q)) (strs : list Z)
    (sizes : list (nat * nat)) (pts : list (tensor2 Q * tensor2 Q)) :
  length (zip_levels bases ranges strs sizes pts)
  = Nat.min (length bases)
      (Nat.min (length ranges)
         (Nat.min (length strs) (Nat.min (length sizes) (length pts)))).
Proof.
  revert ranges strs sizes pts. induction bases as [|b bases IH];
    intros [|r ranges] [|s strs] [|f sizes] [|p pts]; simpl; try reflexivity;
    try lia.
  rewrite IH. reflexivity.
Qed.

(** X18.  The target builder returns one label grid, one regression grid
    and one id grid per zipped level, that is as many as the shortest of
    [base_edge_list], [scale_ranges], [strides], the feature-map sizes and
    the point grids: a feature level without a configured stride, range or
    base edge gets no targets, and nothing raises for it. *)
Theorem targets_stop_at_shortest_list (self : PPDetHead) (boxes : list bbox)
    (labels : list Z) (off : Z) (sizes : list (nat * nat))
    (points : list (tensor2 Q * tensor2 Q)) (mem : nat -> nat -> nat -> nat -> Q)
    (LL : list (tensor2 Z)) (BL : list (tensor3 R)) (GL : list (tensor2 Z)) :
  ppdet_target_single self boxes labels off sizes points mem = Some (LL, BL, GL) ->
  let m := Nat.min (length (base_edge_list self))
             (Nat.min (length (scale_ranges self))
                (Nat.min (length (strides self))
                   (Nat.min (length sizes) (length points)))) in
  length LL = m /\ length BL = m /\ length GL = m.
Proof.
  unfold ppdet_target_single. intros H. inv_bind H. inversion H; subst; clear H.
  match goal with
  | Hm : mapM _ _ = Some _ |- _ => apply mapM_length in Hm; rename Hm into Hl
  end.
  rewrite length_combine, length_seq, Nat.min_id, zip_levels_length in Hl.
  cbv zeta. rewrite !length_map. auto.
Qed.

Lemma targets_stop_at_shortest_list_witness :
  exists LL BL GL,
    ppdet_target_single head8 [box16] [1] 0 sizes2 (get_points sizes2) zero_mem
    = Some (LL, BL, GL)
    /\ length LL = 1%nat /\ length BL = 1%nat /\ length GL = 1%nat.
Proof.
  destruct (is_some_true
              (ppdet_target_single head8 [box16] [1] 0 sizes2 (get_points sizes2)
                                   zero_mem))
    as [[[LL BL] GL] E]; [vm_compute; reflexivity|].
  exists LL, BL, GL. split; [exact E|].
  apply (targets_stop_at_shortest_list head8 [box16] [1] 0 sizes2 (get_points sizes2)
           zero_mem LL BL GL E).
Defined.

(** ** Decoder: predictions and cell centres share one order *)

Lemma nth_error_map_seq {A} (f : nat -> A) (n i : nat) :
  (i < n)%nat -> nth_error (map f (seq 0 n)) i = Some (f i).
Proof.
  intros Hi. rewrite nth_error_map, nth_error_seq.
  apply Nat.ltb_lt in Hi. rewrite Hi. reflexivity.
Qed.

Lemma nth_error_flat_rows {A} (g : nat -> nat -> A) (w h s r c : nat) :
  (r < h)%nat -> (c < w)%nat ->
  nth_error (flat_map (fun r' => map (g r') (seq 0 w)) (seq s h)) (r * w + c)
  = Some (g (s + r)%nat c).
Proof.
  revert s r. induction h as [|h IH]; intros s r Hr Hc; [lia|].
  cbn [seq flat_map]. destruct r as [|r].
  - rewrite nth_error_app1 by (rewrite length_map, length_seq; lia).
    simpl. rewrite Nat.add_0_r. apply nth_error_map_seq. exact Hc.
  - rewrite nth_error_app2 by (rewrite length_map, length_seq; lia).
    rewrite length_map, length_seq.
    replace (S r * w + c - w)%nat with (r * w + c)%nat by lia.
    rewrite (IH (S s) r) by lia. do 2 f_equal. lia.
Qed.

Lemma flatten2_nth_error {A} (t : tensor2 A) (r c : nat) :
  (r < fst (shape2 t))%nat -> (c < snd (shape2 t))%nat ->
  nth_error (flatten2 t) (r * snd (shape2 t) + c) = Some (at2 t r c).
Proof.
  intros Hr Hc. unfold flatten2.
  apply (nth_error_flat_rows (at2 t) _ _ 0 r c Hr Hc).
Qed.

(** X19.  The decoder pairs every prediction row with the centre of its own
    cell.  For a [C x H x W] tensor, row [r * W + c] of
    [permute(1, 2, 0).reshape(-1, C)] holds the [C] channels of the cell
    [(r, c)], and entry [r * W + c] of the flattened point grids of
    [get_points] is [(r + 0.5, c + 0.5)]. *)
Theorem prediction_rows_match_points {A} (t : tensor3 A) (cols : Z) (h w r c : nat)
    (rows : list (list A)) :
  shape3 t = (Z.to_nat cols, h, w) ->
  permute_reshape3 t cols = Some rows ->
  (r < h)%nat -> (c < w)%nat ->
  nth_error rows (r * w + c)
  = Some (map (fun ch => at3 t ch r c) (seq 0 (Z.to_nat cols)))
  /\ exists ys xs,
       get_points_flatten [(h, w)] = [(ys, xs)]
       /\ length ys = length rows /\ length xs = length rows
       /\ nth_error ys (r * w + c) = Some (inject_Z (Z.of_nat r) + half)%Q
       /\ nth_error xs (r * w + c) = Some (inject_Z (Z.of_nat c) + half)%Q.
Proof.
  intros Hs Hrows Hr Hc.
  destruct (permute_reshape3_rows _ _ _ Hrows) as (Hcols & _ & Hlen).
  rewrite Hs in Hlen. cbn [fst snd] in Hlen.
  assert (Hk : Z.to_nat cols <> 0%nat) by lia.
  rewrite Nat.div_mul in Hlen by exact Hk.
  assert (Hi : (r * w + c < h * w)%nat) by nia.
  split.
  - unfold permute_reshape3 in Hrows. inv_bind Hrows.
    inversion Hrows; subst rows; clear Hrows.
    rewrite Hs. cbn [fst snd]. rewrite Nat.div_mul by exact Hk.
    rewrite nth_error_map_seq by exact Hi. f_equal.
    apply map_ext_in. intros ch Hch. apply in_seq in Hch.
    set (k := Z.to_nat cols) in *.
    assert (E1 : (((r * w + c) * k + ch) mod k = ch)%nat).
    { rewrite Nat.add_comm, Nat.Div0.mod_add. apply Nat.mod_small. lia. }
    assert (E2 : (((r * w + c) * k + ch) / k = r * w + c)%nat).
    { rewrite Nat.div_add_l by exact Hk. rewrite Nat.div_small by lia. lia. }
    assert (E3 : (((r * w + c) * k + ch) / (w * k) = r)%nat).
    { rewrite (Nat.mul_comm w k), <- Nat.Div0.div_div, E2.
      rewrite Nat.div_add_l by lia. rewrite Nat.div_small by lia. lia. }
    assert (E4 : ((r * w + c) mod w = c)%nat).
    { rewrite Nat.add_comm, Nat.Div0.mod_add. apply Nat.mod_small. lia. }
    cbv zeta. rewrite E1, E3, E2, E4. reflexivity.
  - do 2 eexists. split; [reflexivity|]. cbn [fst snd].
    rewrite !flatten2_length. cbn [shape2 fst snd].
    split; [lia|]. split; [lia|]. split.
    + exact (flatten2_nth_error
               (mk_tensor2 (h, w) (fun r' _ => (inject_Z (Z.of_nat r') + half)%Q))
               r c Hr Hc).
    + exact (flatten2_nth_error
               (mk_tensor2 (h, w) (fun _ c' => (inject_Z (Z.of_nat c') + half)%Q))
               r c Hr Hc).
Qed.

Lemma prediction_rows_match_points_witness :
  exists rows,
    permute_reshape3 (mk_tensor3 (2, 2, 3)%nat (fun ch r c => (ch, r, c))) 2 = Some rows
    /\ nth_error rows (1 * 3 + 2) = Some [(0, 1, 2); (1, 1, 2)]%nat
    /\ exists ys xs,
         get_points_flatten [(2, 3)%nat] = [(ys, xs)]
         /\ length ys = length rows /\ length xs = length rows
         /\ nth_error ys (1 * 3 + 2) = Some (inject_Z (Z.of_nat 1) + half)%Q
         /\ nth_error xs (1 * 3 + 2) = Some (inject_Z (Z.of_nat 2) + half)%Q.
Proof.
  eexists. split; [reflexivity|].
  apply (prediction_rows_match_points
           (mk_tensor3 (2, 2, 3)%nat (fun ch r c => (ch, r, c))) 2 2 3 1 2);
    try reflexivity; lia.
Defined.

(** ** Level selection *)

Lemma map_fst_combine_seq {A} (l : list A) (s : nat) :
  map fst (combine (seq s (length l)) l) = seq s (length l).
Proof.
  revert s. induction l as [|a l IH]; intros s; simpl; [reflexivity|].
  rewrite IH. reflexivity.
Qed.

Lemma NoDup_map_fst_filter {A B} (f : A * B -> bool) (l : list (A * B)) :
  NoDup (map fst l) -> NoDup (map fst (filter f l)).
Proof.
  induction l as [|ab l IH]; simpl; intros H; [constructor|].
  inversion H as [|? ? Hn Hd]; subst.
  destruct (f ab); simpl; [|apply IH; exact Hd].
  constructor; [|apply IH; exact Hd].
  intros Hin. apply Hn. apply in_map_iff in Hin.
  destruct Hin as [x [Hx Hf]]. apply filter_In in Hf.
  apply in_map_iff. exists x. tauto.
Qed.

(** X20.  The boxes that a level paints are exactly the boxes whose area
    product is nonnegative and whose [gt_areas] value, the square root of
    the area, lies in the scale range of the level, both ends included;
    each of them is painted once, and they are painted in descending order
    of area.  A box whose area product is negative (one side reversed) is
    painted by no level. *)
Theorem level_selection_by_area (boxes : list bbox) (lv : level_args) :
  (forall i b,
      In (i, b) (level_hits boxes lv) <->
      nth_error boxes i = Some b
      /\ (0 <= area_sq b)%Q
      /\ (Q2R (fst (lv_range lv)) <= gt_area b <= Q2R (snd (lv_range lv)))%R)
  /\ NoDup (map fst (level_hits boxes lv))
  /\ StronglySorted area_ge (level_hits boxes lv).
Proof.
  split; [|split].
  - intros i b. rewrite level_hits_In, hit_spec. tauto.
  - unfold level_hits.
    apply (Permutation_NoDup
             (Permutation_map fst (Permutation_sym (sort_desc_perm _)))).
    unfold hit_indices. apply NoDup_map_fst_filter.
    rewrite map_fst_combine_seq. apply seq_NoDup.
  - apply sort_desc_sorted.
Qed.

(** ** The regression branch *)

Lemma Forall2_Forall_r {A B} (P : B -> Prop) (la : list A) (lb : list B) :
  Forall2 (fun _ b => P b) la lb -> Forall P lb.
Proof. induction 1; constructor; auto. Qed.

Lemma ones_row (row : list R) :
  length row = 4%nat -> map (fun _ : R => (0 + 1)%R) row = [1; 1; 1; 1]%R.
Proof.
  destruct row as [|a [|b [|c [|d [|e row]]]]]; simpl; try discriminate.
  intros _. rewrite Rplus_0_l. reflexivity.
Qed.

Section RegressionBranch.

Variable loss_cls_fn : list (list Q) -> list Z -> Z -> R.
Variable loss_bbox_fn : list (list Q) -> list (list R) -> list (list R) -> Z -> R.

(** X21.  When at least one cell is positive, the regression loss is the
    external [loss_bbox] called on the prediction rows and the target rows
    of exactly the positive cells, in cell order, with a weight matrix of
    ones of shape [num_pos x 4] and with [avg_factor = num_pos], the number
    of positive cells (not the number of instances that the classification
    loss is averaged over). *)
Theorem regression_on_positive_cells (self : PPDetHead)
    (cls_scores bbox_preds : list (tensor4 Q))
    (gt_bbox_list : list (list bbox)) (gt_label_list : list (list Z))
    (mem : nat -> nat -> nat -> nat -> nat -> Q) (fb : flat_batch) (out : losses) :
  loss_flatten self cls_scores bbox_preds gt_bbox_list gt_label_list mem = Some fb ->
  loss loss_cls_fn loss_bbox_fn self cls_scores bbox_preds gt_bbox_list
       gt_label_list mem = Some out ->
  pos_cells fb <> [] ->
  loss_bbox out
  = loss_bbox_fn (map (fun j => nth j (flatten_bbox_preds fb) []) (pos_cells fb))
                 (map (fun j => nth j (flatten_bbox_targets fb) []) (pos_cells fb))
                 (map (fun _ => [1; 1; 1; 1]%R) (pos_cells fb))
                 (Z.of_nat (length (pos_cells fb))).
Proof.
  intros Hfb Hloss Hpos.
  destruct (loss_flatten_aligned _ _ _ _ _ _ _ Hfb) as [_ Hrows].
  apply Forall2_Forall_r in Hrows.
  unfold loss in Hloss. rewrite Hfb in Hloss. cbn [obind] in Hloss.
  inv_bind Hloss.
  match goal with
  | Ha : aggregate fb = Some ?t |- _ => destruct t as [[al asc] n]
  end.
  cbv beta iota in Hloss. inv_bind Hloss. inversion Hloss; subst out; clear Hloss.
  cbn [loss_bbox].
  match goal with
  | Hr : regression_loss _ fb = Some _ |- _ => rename Hr into Hreg
  end.
  unfold regression_loss in Hreg. fold (pos_cells fb) in Hreg.
  assert (Hn : (0 <? Z.of_nat (length (pos_cells fb))) = true).
  { apply Z.ltb_lt. destruct (pos_cells fb); [congruence | simpl; lia]. }
  rewrite Hn in Hreg. inv_bind Hreg. inversion Hreg; subst; clear Hreg.
  match goal with
  | Hp : index_list (flatten_bbox_preds fb) _ = Some ?pp,
    Ht : index_list (flatten_bbox_targets fb) _ = Some ?pt |- _ =>
      pose proof (index_list_In _ _ _ Ht) as Hin;
      apply (index_list_map _ _ _ []) in Hp;
      apply (index_list_map _ _ _ []) in Ht; subst pp
  end.
  f_equal.
  - assumption.
  - match goal with
    | Ht : ?pt = map _ (pos_cells fb) |- _ => rewrite Ht in Hin; rewrite Ht
    end.
    rewrite map_map. apply map_ext_in. intros j Hj.
    apply ones_row.
    rewrite Forall_forall in Hin, Hrows. apply Hrows, Hin.
    apply in_map_iff. exists j. split; [reflexivity | exact Hj].
Qed.

End RegressionBranch.

Lemma regression_on_positive_cells_witness :
  exists fb out,
    loss_flatten head2 cls_scores2 bbox_preds2 [[box24; box16]] [[1; 2]]
                 (fun _ => zero_mem) = Some fb
    /\ loss count_loss_cls count_loss_bbox head2 cls_scores2 bbox_preds2
            [[box24; box16]] [[1; 2]] (fun _ => zero_mem) = Some out
    /\ loss_bbox out
       = count_loss_bbox
           (map (fun j => nth j (flatten_bbox_preds fb) []) (pos_cells fb))
           (map (fun j => nth j (flatten_bbox_targets fb) []) (pos_cells fb))
           (map (fun _ => [1; 1; 1; 1]%R) (pos_cells fb))
           (Z.of_nat (length (pos_cells fb))).
Proof.
  destruct (is_some_true
              (loss_flatten head2 cls_scores2 bbox_preds2 [[box24; box16]] [[1; 2]]
                            (fun _ => zero_mem)))
    as [fb E]; [vm_compute; reflexivity|].
  destruct (is_some_true
              (loss count_loss_cls count_loss_bbox head2 cls_scores2 bbox_preds2
                    [[box24; box16]] [[1; 2]] (fun _ => zero_mem)))
    as [out Eo]; [vm_compute; reflexivity|].
  exists fb, out. split; [exact E|]. split; [exact Eo|].
  apply (regression_on_positive_cells count_loss_cls count_loss_bbox head2
           cls_scores2 bbox_preds2 [[box24; box16]] [[1; 2]] (fun _ => zero_mem)
           fb out E Eo).
  assert (H : option_map (fun fb => Nat.eqb (length (pos_cells fb)) 0)
                (loss_flatten head2 cls_scores2 bbox_preds2 [[box24; box16]]
                              [[1; 2]] (fun _ => zero_mem))
              = Some false) by (vm_compute; reflexivity).
  rewrite E in H. simpl in H. inversion H as [H'].
  intros Hnil. rewrite Hnil in H'. discriminate.
Defined.

(** ** Rescaling *)

(** X22.  Rescaling acts on the boxes only and after the clamp: with
    [rescale] set the decoder raises exactly when it raises without, returns
    the same score matrix, built from the same cells, and returns every
    coordinate of the clamped boxes divided by [scale_factor]. *)
Theorem rescale_divides_clamped_boxes (NmsCfg : Type) (self : PPDetHead)
    (cls_scores bbox_preds : list (tensor3 R))
    (featmap_sizes : list (nat * nat)) (point_list : list (list R * list R))
    (img_shape : Z * Z) (scale_factor : R) (cfg : test_cfg NmsCfg) :
  nms_inputs NmsCfg self cls_scores bbox_preds featmap_sizes point_list
             img_shape scale_factor cfg true
  = option_map
      (fun r : list (list R) * list (list R) =>
         (map (map (fun v => (v / scale_factor)%R)) (fst r), snd r))
      (nms_inputs NmsCfg self cls_scores bbox_preds featmap_sizes point_list
                  img_shape scale_factor cfg false).
Proof.
  unfold nms_inputs.
  destruct (assert _); [|reflexivity]. cbn [obind].
  destruct (mapM _ _) as [per_level|]; [|reflexivity]. cbn [obind].
  destruct (torch_cat (map fst per_level)); [|reflexivity]. cbn [obind].
  destruct (torch_cat (map snd per_level)); reflexivity.
Qed.
